(** * Symplectic integrators of galpy: [galpy/util/bovy_symplecticode.c]

    A shallow embedding of the leapfrog, fourth-order and sixth-order
    symplectic schemes and of their adaptive step-size searches, followed by
    the properties of the specification that were checked against it.

    Conventions of the embedding.
    - A C [double] is an element of a type [F] that carries the operations the
      source uses (class [Arith]).  Everything in the first part is stated for
      an arbitrary [F], hence in particular for IEEE binary64; the statements
      that need the laws of an ordered field are made on the instance over the
      real numbers ([R_arith]).
    - A [double *] buffer is a [list F]; [rd] reads a cell and stdpp's
      [<[i:=x]>] writes one.  A pointer that the source advances ([result])
      is a buffer together with an offset.  Reads and writes outside a buffer
      are undefined in C; here a read gives [lit 0] and a write does nothing.
    - The callbacks ([drift], [kick], [func], [tol_scaling], [metric]) are
      functions; [nargs] and [potentialArgs] are part of them.
    - The process-wide flag [interrupted] is threaded as a [bool]; the signal
      handler is the function [sigint], telling for every poll of the flag
      whether a SIGINT was delivered since the previous poll.
    - [while] loops whose termination depends on the arithmetic take fuel.
    - An instance over the rational numbers ([Q_arith]) runs the schemes on
      concrete inputs. *)

From Stdlib Require Import ZArith QArith Qabs Reals Lra Lia.
From stdpp Require Import base list.

(** ** Arithmetic on [double] *)

Class Arith (F : Type) := {
  lit : Q -> F;            (* a decimal literal of the source *)
  of_int : Z -> F;         (* conversion of an [int] operand *)
  to_long : F -> Z;        (* the cast [(long)], truncating *)
  fadd : F -> F -> F;
  fsub : F -> F -> F;
  fmul : F -> F -> F;
  fdiv : F -> F -> F;
  flt : F -> F -> bool;    (* [x < y] *)
  feq : F -> F -> bool;    (* [x == y] *)
  c_sqrt : F -> F;
  c_exp : F -> F;
  c_log : F -> F;
  c_fabs : F -> F;
  c_fmax : F -> F -> F;
  c_pow : F -> Z -> F      (* [pow(x, n)] with an integer literal [n] *)
}.

Declare Scope dbl_scope.
Delimit Scope dbl_scope with dbl.
Infix "+." := fadd (at level 50, left associativity) : dbl_scope.
Infix "-." := fsub (at level 50, left associativity) : dbl_scope.
Infix "*." := fmul (at level 40, left associativity) : dbl_scope.
Infix "/." := fdiv (at level 40, left associativity) : dbl_scope.
Infix "<." := flt (at level 70, no associativity) : dbl_scope.
Infix "==." := feq (at level 70, no associativity) : dbl_scope.
Local Open Scope dbl_scope.

(** ** Loops *)

(** [for (ii = lo; ii < hi; ii++) body] *)
Definition for_loop {S : Type} (lo hi : nat) (body : nat -> S -> S) (s : S) : S :=
  fold_left (fun s ii => body ii s) (seq lo (hi - lo)) s.

(** [while (cond) body], at most [fuel] executions of the body. *)
Fixpoint while_fuel {S : Type} (fuel : nat) (cond : S -> bool) (body : S -> S)
    (s : S) : option S :=
  match fuel with
  | O => if cond s then None else Some s
  | Datatypes.S fuel' =>
      if cond s then while_fuel fuel' cond body (body s) else Some s
  end.

(** The macro loop shared by the three schemes,
    [for (ii=0; ii < (nt-1); ii++){ if ( interrupted ) { *err= -10;
    interrupted= 0; break; } body }], run for [n] more iterations from
    iteration [ii].  It gives the final state, [*err] and the flag.
    [sigint j] tells whether the handler, which is installed before the loop
    and removed after it, has set the flag since the poll before the one of
    iteration [j] (since it was installed, for [j = 0]); so when the loop
    runs out the flag is what the poll of a further iteration would read.
    At the [break] the flag is the 0 just written: a SIGINT in the few
    instructions between it and the removal of the handler is left out. *)
Fixpoint macro_loop {S : Type} (n ii : nat) (sigint : nat -> bool)
    (body : S -> S) (err : Z) (interrupted : bool) (s : S) : S * Z * bool :=
  match n with
  | O => (s, err, interrupted || sigint ii)
  | Datatypes.S n' =>
      if interrupted || sigint ii
      then (s, (-10)%Z, false)
      else macro_loop n' (Datatypes.S ii) sigint body err false (body s)
  end.

Section Integrators.
Context {F : Type} {A : Arith F}.
Implicit Types (q p a y yo t result : list F) (dt : F) (dim : nat).

(** ** Buffers *)

Definition rd (l : list F) (i : nat) : F := default (lit 0) (l !! i).

(** [malloc(n * sizeof(double))]: the contents are indeterminate in C, and
    the source writes every cell before it reads it. *)
Definition malloc (n : nat) : list F := replicate n (lit 0).

(** ** Vector step primitives *)

Definition leapfrog_leapq dim q p dt (qn : list F) : list F :=
  for_loop 0 dim (fun ii qn => <[ii := rd q ii +. dt *. rd p ii]> qn) qn.

Definition leapfrog_leapp dim p dt a (pn : list F) : list F :=
  for_loop 0 dim (fun ii pn => <[ii := rd p ii +. dt *. rd a ii]> pn) pn.

(** [result] points at cell [roff] of the output buffer. *)
Definition save_qp dim (qo po : list F) result (roff : nat) : list F :=
  let result := for_loop 0 dim (fun ii r => <[roff + ii := rd qo ii]> r) result in
  for_loop 0 dim (fun ii r => <[roff + dim + ii := rd po ii]> r) result.

Definition save_result dim yo result (roff : nat) (construct_Lz : bool) : list F :=
  let result := for_loop 0 dim (fun ii r => <[roff + ii := rd yo ii]> r) result in
  if construct_Lz
  then <[roff + 2 := rd result (roff + 2) /. rd result roff]> result
  else result.

Definition _MAX_DT_REDUCE : F := lit 10000.

(** ** Callbacks *)

(** [drift(dt, y)] and [kick(dt, t, y, nargs, potentialArgs)] update [y] in
    place; [func(t, q, a, nargs, potentialArgs)] sets [a];
    [tol_scaling(yo, result)] and [metric(dim, x, y, result)] set [result]. *)
Definition drift_fn := F -> list F -> list F.
Definition kick_fn := F -> F -> list F -> list F.
Definition func_fn := F -> list F -> list F.
Definition tol_scaling_fn := list F -> list F.
Definition metric_fn := nat -> list F -> list F -> list F.

(** ** Step-size search of the leapfrog scheme *)

(** The lines [tol_scaling(yo,scaling); for (ii=0; ii < dim; ii++)
    *(scale2+ii) = pow ( exp(atol) + exp(rtol) * *(scaling+ii), 2);],
    common to [leapfrog_estimate_step] and [symplec4_estimate_step]. *)
Definition estimate_scale2 dim (rtol atol : F) (scaling : list F) : list F :=
  for_loop 0 dim
    (fun ii scale2 =>
       <[ii := c_pow (c_exp atol +. c_exp rtol *. rd scaling ii) 2]> scale2)
    (malloc dim).

(** [for (ii=0; ii < dim; ii++) err+= *(delta+ii) * *(delta+ii) / *(scale2+ii);] *)
Definition sum_sq_err dim (delta scale2 : list F) (err : F) : F :=
  for_loop 0 dim
    (fun ii err => err +. rd delta ii *. rd delta ii /. rd scale2 ii) err.

(** The variables that live across iterations of the search loop. *)
Record search_state := {
  ss_dt : F;
  ss_err : F;
  ss_to : F;
  ss_y11 : list F;
  ss_y12 : list F
}.

(** [while ( err > 1.  && init_dt / dt < _MAX_DT_REDUCE)] *)
Definition search_cond (init_dt : F) (dt err : F) : bool :=
  (lit 1 <. err) && (init_dt /. dt <. _MAX_DT_REDUCE).

(** [for (ii=0; ii < dim; ii++) { *(y11+ii)= *(yo+ii); *(y12+ii)= *(yo+ii); }] *)
Definition reset_y dim yo (y11 y12 : list F) : list F * list F :=
  for_loop 0 dim
    (fun ii '(y11, y12) => (<[ii := rd yo ii]> y11, <[ii := rd yo ii]> y12))
    (y11, y12).

(** The two trial trajectories of one iteration of the search: one leapfrog
    step of [dt] on [y11] and two of [dt/2] on [y12], both from [yo]. *)
Definition leapfrog_trial (drift : drift_fn) (kick : kick_fn) dim yo
    (to dt : F) (y11 y12 : list F) : list F * list F :=
  (* Reset to initial condition *)
  let y := reset_y dim yo y11 y12 in
  let y11 := y.1 in
  let y12 := y.2 in
  (* dt *)
  let y11 := drift (dt /. lit 2) y11 in
  let y11 := kick dt (to +. dt /. lit 2) y11 in
  let y11 := drift (dt /. lit 2) y11 in
  (* dt/2. *)
  let y12 := drift (dt /. lit 4) y12 in
  let y12 := kick (dt /. lit 2) (to +. dt /. lit 4) y12 in
  let y12 := drift (dt /. lit 2) y12 in
  let y12 := kick (dt /. lit 2) (to +. lit 3 *. dt /. lit 4) y12 in
  let y12 := drift (dt /. lit 4) y12 in
  (y11, y12).

(** The body of the [while] loop of [leapfrog_estimate_step]. *)
Definition leapfrog_search_body (drift : drift_fn) (kick : kick_fn) dim yo
    (metric : metric_fn) (scale2 : list F) (s : search_state) : search_state :=
  let to := ss_to s in
  let dt := ss_dt s /. lit 2 in
  let y := leapfrog_trial drift kick dim yo to dt (ss_y11 s) (ss_y12 s) in
  (* Norm *)
  let delta := metric dim y.1 y.2 in
  let err := lit 0 in
  let err := sum_sq_err dim delta scale2 err in
  let err := c_sqrt (err /. of_int (Z.of_nat dim)) in
  {| ss_dt := dt; ss_err := err; ss_to := to; ss_y11 := y.1; ss_y12 := y.2 |}.

Definition leapfrog_search_init dim (dt : F) t : search_state :=
  {| ss_dt := dt *. lit 2; ss_err := lit 2; ss_to := rd t 0;
     ss_y11 := malloc dim; ss_y12 := malloc dim |}.

Definition leapfrog_estimate_step (fuel : nat) (drift : drift_fn)
    (kick : kick_fn) dim yo dt t (rtol atol : F)
    (tol_scaling : tol_scaling_fn) (metric : metric_fn) : option F :=
  let init_dt := dt in
  let scaling := tol_scaling yo in
  let scale2 := estimate_scale2 dim rtol atol scaling in
  match while_fuel fuel
          (fun s => search_cond init_dt (ss_dt s) (ss_err s))
          (leapfrog_search_body drift kick dim yo metric scale2)
          (leapfrog_search_init dim dt t) with
  | Some s => Some (ss_dt s)
  | None => None
  end.

(** ** The leapfrog scheme *)

(** What a call leaves behind: the caller's [yo] and [result] buffers, [*err]
    and the flag [interrupted]. *)
Record outcome := {
  out_yo : list F;
  out_result : list F;
  out_err : Z;
  out_interrupted : bool
}.

(** The variables of [leapfrog] and [symplec4] that change in the macro loop;
    [rs_roff] is the distance of the pointer [result] from the start of the
    output buffer. *)
Record run_state := {
  rs_yo : list F;
  rs_to : F;
  rs_result : list F;
  rs_roff : nat
}.

(** [for (jj=0; jj < (ndt-1); jj++){ kick(dt,to+dt/2.,yo,..); drift(dt,yo);
    to= to+dt; }] *)
Definition leapfrog_substeps (drift : drift_fn) (kick : kick_fn) dt
    (ndt : Z) (yo : list F) (to : F) : list F * F :=
  for_loop 0 (Z.to_nat (ndt - 1))
    (fun _ s =>
       let yo := kick dt (s.2 +. dt /. lit 2) s.1 in
       let yo := drift dt yo in
       (yo, s.2 +. dt))
    (yo, to).

(** The body of the macro loop of [leapfrog], after the poll of the flag. *)
Definition leapfrog_interval (drift : drift_fn) (kick : kick_fn) dim dt
    (ndt : Z) (construct_Lz : bool) (s : run_state) : run_state :=
  (* drift half *)
  let yo := drift (dt /. lit 2) (rs_yo s) in
  (* now drift full for a while *)
  let s1 := leapfrog_substeps drift kick dt ndt yo (rs_to s) in
  let yo := s1.1 in
  let to := s1.2 in
  (* end with one last kick and half drift *)
  let yo := kick dt (to +. dt /. lit 2) yo in
  let yo := drift (dt /. lit 2) yo in
  let to := to +. dt in
  (* save *)
  let result := save_result dim yo (rs_result s) (rs_roff s) construct_Lz in
  {| rs_yo := yo; rs_to := to; rs_result := result;
     rs_roff := rs_roff s + dim |}.

(** [if ( construct_Lz ) *(yo+2) *= *yo;] *)
Definition construct_Lz_init (construct_Lz : bool) yo : list F :=
  if construct_Lz then <[2 := rd yo 2 *. rd yo 0]> yo else yo.

(** [if ( dt == -9999.99 ) dt= leapfrog_estimate_step(..);] *)
Definition leapfrog_dt (fuel : nat) (drift : drift_fn) (kick : kick_fn) dim
    yo (init_dt : F) dt t (rtol atol : F) (tol_scaling : tol_scaling_fn)
    (metric : metric_fn) : option F :=
  if dt ==. lit (-9999.99)
  then leapfrog_estimate_step fuel drift kick dim yo init_dt t rtol atol
         tol_scaling metric
  else Some dt.

Definition leapfrog (fuel : nat) (drift : drift_fn) (kick : kick_fn) dim yo
    (nt : Z) dt t (rtol atol : F) (tol_scaling : tol_scaling_fn)
    (metric : metric_fn) (construct_Lz : bool) result
    (interrupted : bool) (sigint : nat -> bool) : option outcome :=
  (* Initialize *)
  let result := save_result dim yo result 0 false in
  let roff := dim in
  let err := 0%Z in
  let yo := construct_Lz_init construct_Lz yo in
  (* Estimate necessary stepsize *)
  let init_dt := rd t 1 -. rd t 0 in
  match leapfrog_dt fuel drift kick dim yo init_dt dt t rtol atol
          tol_scaling metric with
  | None => None
  | Some dt =>
      let ndt := to_long (init_dt /. dt) in
      (* Integrate the system *)
      let to := rd t 0 in
      let r := macro_loop (Z.to_nat (nt - 1)) 0 sigint
                 (leapfrog_interval drift kick dim dt ndt construct_Lz)
                 err interrupted
                 {| rs_yo := yo; rs_to := to; rs_result := result;
                    rs_roff := roff |} in
      Some {| out_yo := rs_yo r.1.1; out_result := rs_result r.1.1;
              out_err := r.1.2; out_interrupted := r.2 |}
  end.

(** ** The fourth-order scheme and its step-size search *)

Definition s4_c1 : F := lit 0.6756035959798289.
Definition s4_c4 : F := s4_c1.
Definition s4_c41 : F := s4_c4 +. s4_c1.
Definition s4_c2 : F := lit (-0.1756035959798288).
Definition s4_c3 : F := s4_c2.
Definition s4_d1 : F := lit 1.3512071919596578.
Definition s4_d3 : F := s4_d1.
Definition s4_d2 : F := lit (-1.7024143839193153).

(** The two trial trajectories of one iteration of the search, and the value
    [to] is left with. *)
Definition symplec4_trial (drift : drift_fn) (kick : kick_fn) dim yo t
    (dt : F) (y11 y12 : list F) : list F * list F * F :=
  (* Reset to initial condition *)
  let to := rd t 0 in
  let y := reset_y dim yo y11 y12 in
  let y11 := y.1 in
  let y12 := y.2 in
  (* dt *)
  let y11 := drift (s4_c1 *. dt) y11 in
  let to := to +. s4_c1 *. dt in
  let y11 := kick (s4_d1 *. dt) to y11 in
  let y11 := drift (s4_c2 *. dt) y11 in
  let to := to +. s4_c2 *. dt in
  let y11 := kick (s4_d2 *. dt) to y11 in
  let y11 := drift (s4_c3 *. dt) y11 in
  let to := to +. s4_c3 *. dt in
  let y11 := kick (s4_d3 *. dt) to y11 in
  let y11 := drift (s4_c4 *. dt) y11 in
  (* reset *)
  let to := to -. dt in
  (* dt/2 *)
  let dt2 := dt /. lit 2 in
  let y12 := drift (s4_c1 *. dt2) y12 in
  let to := to +. s4_c1 *. dt2 in
  let y12 := kick (s4_d1 *. dt2) to y12 in
  let y12 := drift (s4_c2 *. dt2) y12 in
  let to := to +. s4_c2 *. dt2 in
  let y12 := kick (s4_d2 *. dt2) to y12 in
  let y12 := drift (s4_c3 *. dt2) y12 in
  let to := to +. s4_c3 *. dt2 in
  let y12 := kick (s4_d3 *. dt2) to y12 in
  let y12 := drift (s4_c41 *. dt2) y12 in
  let to := to +. s4_c41 *. dt2 in
  let y12 := kick (s4_d1 *. dt2) to y12 in
  let y12 := drift (s4_c2 *. dt2) y12 in
  let to := to +. s4_c2 *. dt2 in
  let y12 := kick (s4_d2 *. dt2) to y12 in
  let y12 := drift (s4_c3 *. dt2) y12 in
  let to := to +. s4_c3 *. dt2 in
  let y12 := kick (s4_d3 *. dt2) to y12 in
  let y12 := drift (s4_c4 *. dt2) y12 in
  (y11, y12, to).

(** The body of the [while] loop of [symplec4_estimate_step]. *)
Definition symplec4_search_body (drift : drift_fn) (kick : kick_fn) dim yo t
    (metric : metric_fn) (scale2 : list F) (s : search_state) : search_state :=
  let err := ss_err s in
  let dt := ss_dt s /. lit 2 in
  let y := symplec4_trial drift kick dim yo t dt (ss_y11 s) (ss_y12 s) in
  (* Norm: [err] is not set to zero here *)
  let delta := metric dim y.1.1 y.1.2 in
  let err := sum_sq_err dim delta scale2 err in
  let err := c_sqrt (err /. of_int (Z.of_nat dim)) in
  {| ss_dt := dt; ss_err := err; ss_to := y.2; ss_y11 := y.1.1;
     ss_y12 := y.1.2 |}.

(** [to] is declared without a value and assigned at the top of the loop
    body. *)
Definition symplec4_search_init dim (dt : F) : search_state :=
  {| ss_dt := dt *. lit 2; ss_err := lit 2; ss_to := lit 0;
     ss_y11 := malloc dim; ss_y12 := malloc dim |}.

Definition symplec4_estimate_step (fuel : nat) (drift : drift_fn)
    (kick : kick_fn) dim yo dt t (rtol atol : F)
    (tol_scaling : tol_scaling_fn) (metric : metric_fn) : option F :=
  let init_dt := dt in
  let scaling := tol_scaling yo in
  let scale2 := estimate_scale2 dim rtol atol scaling in
  match while_fuel fuel
          (fun s => search_cond init_dt (ss_dt s) (ss_err s))
          (symplec4_search_body drift kick dim yo t metric scale2)
          (symplec4_search_init dim dt) with
  | Some s => Some (ss_dt s)
  | None => None
  end.

(** [for (jj=0; jj < (ndt-1); jj++){ .. }] of [symplec4]. *)
Definition symplec4_substeps (drift : drift_fn) (kick : kick_fn) dt
    (ndt : Z) (yo : list F) (to : F) : list F * F :=
  for_loop 0 (Z.to_nat (ndt - 1))
    (fun _ s =>
       let yo := kick (s4_d1 *. dt) s.2 s.1 in
       let yo := drift (s4_c2 *. dt) yo in
       let to := s.2 +. s4_c2 *. dt in
       let yo := kick (s4_d2 *. dt) to yo in
       let yo := drift (s4_c3 *. dt) yo in
       let to := to +. s4_c3 *. dt in
       let yo := kick (s4_d3 *. dt) to yo in
       (* drift for (c4+c1)*dt *)
       let yo := drift (s4_c41 *. dt) yo in
       let to := to +. s4_c41 *. dt in
       (yo, to))
    (yo, to).

(** The body of the macro loop of [symplec4], after the poll of the flag. *)
Definition symplec4_interval (drift : drift_fn) (kick : kick_fn) dim dt
    (ndt : Z) (construct_Lz : bool) (s : run_state) : run_state :=
  (* drift for c1*dt *)
  let yo := drift (s4_c1 *. dt) (rs_yo s) in
  let to := rs_to s +. s4_c1 *. dt in
  (* steps ignoring q4/p4 when output is not wanted *)
  let s1 := symplec4_substeps drift kick dt ndt yo to in
  let yo := s1.1 in
  let to := s1.2 in
  (* steps not ignoring q4/p4 when output is wanted *)
  let yo := kick (s4_d1 *. dt) to yo in
  let yo := drift (s4_c2 *. dt) yo in
  let to := to +. s4_c2 *. dt in
  let yo := kick (s4_d2 *. dt) to yo in
  let yo := drift (s4_c3 *. dt) yo in
  let to := to +. s4_c3 *. dt in
  let yo := kick (s4_d3 *. dt) to yo in
  let yo := drift (s4_c4 *. dt) yo in
  let to := to +. s4_c4 *. dt in
  (* save *)
  let result := save_result dim yo (rs_result s) (rs_roff s) construct_Lz in
  {| rs_yo := yo; rs_to := to; rs_result := result;
     rs_roff := rs_roff s + dim |}.

Definition symplec4_dt (fuel : nat) (drift : drift_fn) (kick : kick_fn) dim
    yo (init_dt : F) dt t (rtol atol : F) (tol_scaling : tol_scaling_fn)
    (metric : metric_fn) : option F :=
  if dt ==. lit (-9999.99)
  then symplec4_estimate_step fuel drift kick dim yo init_dt t rtol atol
         tol_scaling metric
  else Some dt.

Definition symplec4 (fuel : nat) (drift : drift_fn) (kick : kick_fn) dim yo
    (nt : Z) dt t (rtol atol : F) (tol_scaling : tol_scaling_fn)
    (metric : metric_fn) (construct_Lz : bool) result
    (interrupted : bool) (sigint : nat -> bool) : option outcome :=
  (* Initialize *)
  let result := save_result dim yo result 0 false in
  let roff := dim in
  let err := 0%Z in
  let yo := construct_Lz_init construct_Lz yo in
  (* Estimate necessary stepsize *)
  let init_dt := rd t 1 -. rd t 0 in
  match symplec4_dt fuel drift kick dim yo init_dt dt t rtol atol
          tol_scaling metric with
  | None => None
  | Some dt =>
      let ndt := to_long (init_dt /. dt) in
      (* Integrate the system *)
      let to := rd t 0 in
      let r := macro_loop (Z.to_nat (nt - 1)) 0 sigint
                 (symplec4_interval drift kick dim dt ndt construct_Lz)
                 err interrupted
                 {| rs_yo := yo; rs_to := to; rs_result := result;
                    rs_roff := roff |} in
      Some {| out_yo := rs_yo r.1.1; out_result := rs_result r.1.1;
              out_err := r.1.2; out_interrupted := r.2 |}
  end.

(** ** The sixth-order scheme and its step-size search *)

Definition s6_c1 : F := lit 0.392256805238780.
Definition s6_c8 : F := s6_c1.
Definition s6_c2 : F := lit 0.510043411918458.
Definition s6_c7 : F := s6_c2.
Definition s6_c3 : F := lit (-0.471053385409758).
Definition s6_c6 : F := s6_c3.
Definition s6_c4 : F := lit 0.687531682525198e-1.
Definition s6_c5 : F := s6_c4.
Definition s6_d1 : F := lit 0.784513610477560.
Definition s6_d7 : F := s6_d1.
Definition s6_d2 : F := lit 0.235573213359357.
Definition s6_d6 : F := s6_d2.
Definition s6_d3 : F := lit (-0.117767998417887e1).
Definition s6_d5 : F := s6_d3.
Definition s6_d4 : F := lit 0.131518632068391e1.

(** The variables of [symplec6_estimate_step] that live across iterations. *)
Record s6_search_state := {
  e6_dt : F;
  e6_err : F;
  e6_to : F;
  e6_q11 : list F;
  e6_q12 : list F;
  e6_p11 : list F;
  e6_p12 : list F;
  e6_qtmp : list F;
  e6_ptmp : list F;
  e6_a : list F
}.

(** [max_val= fabs( *y ); for (ii=1; ii < dim; ii++) if ( fabs( *(y+ii) ) >
    max_val ) max_val= fabs( *(y+ii) );], for [qo] and for [po]. *)
Definition max_fabs dim (y : list F) : F :=
  for_loop 1 dim
    (fun ii max_val =>
       if max_val <. c_fabs (rd y ii) then c_fabs (rd y ii) else max_val)
    (c_fabs (rd y 0)).

(** [c= fmax(atol, rtol * max_val); s= log(exp(atol-c)+exp(rtol*max_val-c))+c;] *)
Definition s6_scale_of (rtol atol max_val : F) : F :=
  let c := c_fmax atol (rtol *. max_val) in
  c_log (c_exp (atol -. c) +. c_exp (rtol *. max_val -. c)) +. c.

Definition symplec6_scale dim (qo po : list F) (rtol atol : F) : list F :=
  let max_val_q := max_fabs dim qo in
  let max_val_p := max_fabs dim po in
  let scale := malloc (2 * dim) in
  let s := s6_scale_of rtol atol max_val_q in
  let scale := for_loop 0 dim (fun ii scale => <[ii := s]> scale) scale in
  let s := s6_scale_of rtol atol max_val_p in
  for_loop 0 dim (fun ii scale => <[ii + dim := s]> scale) scale.

Definition s6_sum_err dim (q11 q12 p11 p12 scale : list F) (err : F) : F :=
  for_loop 0 dim
    (fun ii err =>
       let err := err +. c_exp (lit 2 *. c_log (c_fabs (rd q11 ii -. rd q12 ii))
                                -. lit 2 *. rd scale ii) in
       err +. c_exp (lit 2 *. c_log (c_fabs (rd p11 ii -. rd p12 ii))
                     -. lit 2 *. rd scale (ii + dim)))
    err.

Definition symplec6_search_body (func : func_fn) dim (qo po : list F)
    (scale : list F) (s : s6_search_state) : s6_search_state :=
  let to := e6_to s in
  let q11 := e6_q11 s in
  let q12 := e6_q12 s in
  let p11 := e6_p11 s in
  let p12 := e6_p12 s in
  let qtmp := e6_qtmp s in
  let ptmp := e6_ptmp s in
  let a := e6_a s in
  let dt := e6_dt s /. lit 2 in
  (* dt *)
  let q12 := leapfrog_leapq dim qo po (s6_c1 *. dt) q12 in
  let to := to +. s6_c1 *. dt in
  let a := func to q12 in
  let p12 := leapfrog_leapp dim po (s6_d1 *. dt) a p12 in
  let qtmp := leapfrog_leapq dim q12 p12 (s6_c2 *. dt) qtmp in
  let to := to +. s6_c2 *. dt in
  let a := func to qtmp in
  let ptmp := leapfrog_leapp dim p12 (s6_d2 *. dt) a ptmp in
  let q12 := leapfrog_leapq dim qtmp ptmp (s6_c3 *. dt) q12 in
  let to := to +. s6_c3 *. dt in
  let a := func to q12 in
  let p12 := leapfrog_leapp dim ptmp (s6_d3 *. dt) a p12 in
  let qtmp := leapfrog_leapq dim q12 p12 (s6_c4 *. dt) qtmp in
  let to := to +. s6_c4 *. dt in
  let a := func to qtmp in
  let ptmp := leapfrog_leapp dim p12 (s6_d4 *. dt) a ptmp in
  let q12 := leapfrog_leapq dim qtmp ptmp (s6_c5 *. dt) q12 in
  let to := to +. s6_c5 *. dt in
  let a := func to q12 in
  let p12 := leapfrog_leapp dim ptmp (s6_d5 *. dt) a p12 in
  let qtmp := leapfrog_leapq dim q12 p12 (s6_c6 *. dt) qtmp in
  let to := to +. s6_c6 *. dt in
  let a := func to qtmp in
  let ptmp := leapfrog_leapp dim p12 (s6_d6 *. dt) a ptmp in
  let q12 := leapfrog_leapq dim qtmp ptmp (s6_c7 *. dt) q12 in
  let to := to +. s6_c7 *. dt in
  let a := func to q12 in
  let p11 := leapfrog_leapp dim ptmp (s6_d7 *. dt) a p11 in
  let q11 := leapfrog_leapq dim q12 p11 (s6_c8 *. dt) q11 in
  let to := to +. s6_c8 *. dt in
  (* reset *)
  let to := to -. dt in
  (* dt/2 *)
  let q12 := leapfrog_leapq dim qo po (s6_c1 *. dt /. lit 2) q12 in
  let to := to +. s6_c1 *. dt /. lit 2 in
  let a := func to q12 in
  let p12 := leapfrog_leapp dim po (s6_d1 *. dt /. lit 2) a p12 in
  let qtmp := leapfrog_leapq dim q12 p12 (s6_c2 *. dt /. lit 2) qtmp in
  let to := to +. s6_c2 *. dt /. lit 2 in
  let a := func to qtmp in
  let ptmp := leapfrog_leapp dim p12 (s6_d2 *. dt /. lit 2) a ptmp in
  let q12 := leapfrog_leapq dim qtmp ptmp (s6_c3 *. dt /. lit 2) q12 in
  let to := to +. s6_c3 *. dt /. lit 2 in
  let a := func to q12 in
  let p12 := leapfrog_leapp dim ptmp (s6_d3 *. dt /. lit 2) a p12 in
  let qtmp := leapfrog_leapq dim q12 p12 (s6_c4 *. dt /. lit 2) qtmp in
  let to := to +. s6_c4 *. dt /. lit 2 in
  let a := func to qtmp in
  let ptmp := leapfrog_leapp dim p12 (s6_d4 *. dt /. lit 2) a ptmp in
  let q12 := leapfrog_leapq dim qtmp ptmp (s6_c5 *. dt /. lit 2) q12 in
  let to := to +. s6_c5 *. dt /. lit 2 in
  let a := func to q12 in
  let p12 := leapfrog_leapp dim ptmp (s6_d5 *. dt /. lit 2) a p12 in
  let qtmp := leapfrog_leapq dim q12 p12 (s6_c6 *. dt /. lit 2) qtmp in
  let to := to +. s6_c6 *. dt /. lit 2 in
  let a := func to qtmp in
  let ptmp := leapfrog_leapp dim p12 (s6_d6 *. dt /. lit 2) a ptmp in
  let q12 := leapfrog_leapq dim qtmp ptmp (s6_c7 *. dt /. lit 2) q12 in
  let to := to +. s6_c7 *. dt /. lit 2 in
  let a := func to q12 in
  let p12 := leapfrog_leapp dim ptmp (s6_d7 *. dt /. lit 2) a p12 in
  let qtmp := leapfrog_leapq dim q12 p12 ((s6_c1 +. s6_c8) *. dt /. lit 2) qtmp in
  let to := to +. (s6_c1 +. s6_c8) *. dt /. lit 2 in
  let a := func to qtmp in
  let ptmp := leapfrog_leapp dim p12 (s6_d1 *. dt /. lit 2) a ptmp in
  let q12 := leapfrog_leapq dim qtmp ptmp (s6_c2 *. dt /. lit 2) q12 in
  let to := to +. s6_c2 *. dt /. lit 2 in
  let a := func to q12 in
  let p12 := leapfrog_leapp dim ptmp (s6_d2 *. dt /. lit 2) a p12 in
  let qtmp := leapfrog_leapq dim q12 p12 (s6_c3 *. dt /. lit 2) qtmp in
  let to := to +. s6_c3 *. dt /. lit 2 in
  let a := func to qtmp in
  let ptmp := leapfrog_leapp dim p12 (s6_d3 *. dt /. lit 2) a ptmp in
  let q12 := leapfrog_leapq dim qtmp ptmp (s6_c4 *. dt /. lit 2) q12 in
  let to := to +. s6_c4 *. dt /. lit 2 in
  let a := func to q12 in
  let p12 := leapfrog_leapp dim ptmp (s6_d4 *. dt /. lit 2) a p12 in
  let qtmp := leapfrog_leapq dim q12 p12 (s6_c5 *. dt /. lit 2) qtmp in
  let to := to +. s6_c5 *. dt /. lit 2 in
  let a := func to qtmp in
  let ptmp := leapfrog_leapp dim p12 (s6_d5 *. dt /. lit 2) a ptmp in
  let q12 := leapfrog_leapq dim qtmp ptmp (s6_c6 *. dt /. lit 2) q12 in
  let to := to +. s6_c6 *. dt /. lit 2 in
  let a := func to q12 in
  let p12 := leapfrog_leapp dim ptmp (s6_d6 *. dt /. lit 2) a p12 in
  let qtmp := leapfrog_leapq dim q12 p12 (s6_c7 *. dt /. lit 2) qtmp in
  let to := to +. s6_c7 *. dt /. lit 2 in
  let a := func to qtmp in
  let ptmp := leapfrog_leapp dim p12 (s6_d7 *. dt /. lit 2) a ptmp in
  let q12 := leapfrog_leapq dim qtmp ptmp (s6_c8 *. dt /. lit 2) q12 in
  let to := to +. s6_c8 *. dt /. lit 2 in
  (* p8=p7 *)
  let p12 := for_loop 0 dim (fun ii p12 => <[ii := rd ptmp ii]> p12) p12 in
  (* Norm *)
  let err := lit 0 in
  let err := s6_sum_err dim q11 q12 p11 p12 scale err in
  let err := c_sqrt (err /. lit 2 /. of_int (Z.of_nat dim)) in
  (* reset *)
  let to := to -. dt in
  {| e6_dt := dt; e6_err := err; e6_to := to; e6_q11 := q11; e6_q12 := q12;
     e6_p11 := p11; e6_p12 := p12; e6_qtmp := qtmp; e6_ptmp := ptmp;
     e6_a := a |}.

Definition symplec6_search_init dim (dt : F) t : s6_search_state :=
  {| e6_dt := dt *. lit 2; e6_err := lit 2; e6_to := rd t 0;
     e6_q11 := malloc dim; e6_q12 := malloc dim; e6_p11 := malloc dim;
     e6_p12 := malloc dim; e6_qtmp := malloc dim; e6_ptmp := malloc dim;
     e6_a := malloc dim |}.

Definition symplec6_estimate_step (fuel : nat) (func : func_fn) dim
    (qo po : list F) dt t (rtol atol : F) : option F :=
  let init_dt := dt in
  let scale := symplec6_scale dim qo po rtol atol in
  match while_fuel fuel
          (fun s => search_cond init_dt (e6_dt s) (e6_err s))
          (symplec6_search_body func dim qo po scale)
          (symplec6_search_init dim dt t) with
  | Some s => Some (e6_dt s)
  | None => None
  end.

(** The scratch buffers of [symplec6] and the running time. *)
Record s6_state := {
  s6_qo : list F;
  s6_po : list F;
  s6_q12 : list F;
  s6_p12 : list F;
  s6_a : list F;
  s6_to : F
}.

(** One pass of [for (jj=0; jj < (ndt-1); jj++){ .. }] of [symplec6]. *)
Definition symplec6_substep (func : func_fn) dim dt (s : s6_state) : s6_state :=
  let qo := s6_qo s in
  let po := s6_po s in
  let q12 := s6_q12 s in
  let p12 := s6_p12 s in
  let a := s6_a s in
  let to := s6_to s in
  let a := func to q12 in
  let p12 := leapfrog_leapp dim po (s6_d1 *. dt) a p12 in
  let qo := leapfrog_leapq dim q12 p12 (s6_c2 *. dt) qo in
  let to := to +. s6_c2 *. dt in
  let a := func to qo in
  let po := leapfrog_leapp dim p12 (s6_d2 *. dt) a po in
  let q12 := leapfrog_leapq dim qo po (s6_c3 *. dt) q12 in
  let to := to +. s6_c3 *. dt in
  let a := func to q12 in
  let p12 := leapfrog_leapp dim po (s6_d3 *. dt) a p12 in
  let qo := leapfrog_leapq dim q12 p12 (s6_c4 *. dt) qo in
  let to := to +. s6_c4 *. dt in
  let a := func to qo in
  let po := leapfrog_leapp dim p12 (s6_d4 *. dt) a po in
  let q12 := leapfrog_leapq dim qo po (s6_c5 *. dt) q12 in
  let to := to +. s6_c5 *. dt in
  let a := func to q12 in
  let p12 := leapfrog_leapp dim po (s6_d5 *. dt) a p12 in
  let qo := leapfrog_leapq dim q12 p12 (s6_c6 *. dt) qo in
  let to := to +. s6_c6 *. dt in
  let a := func to qo in
  let po := leapfrog_leapp dim p12 (s6_d6 *. dt) a po in
  let q12 := leapfrog_leapq dim qo po (s6_c7 *. dt) q12 in
  let to := to +. s6_c7 *. dt in
  let a := func to q12 in
  let p12 := leapfrog_leapp dim po (s6_d7 *. dt) a p12 in
  let qo := leapfrog_leapq dim q12 p12 ((s6_c8 +. s6_c1) *. dt) qo in
  let to := to +. (s6_c8 +. s6_c1) *. dt in
  (* reset *)
  let qp := for_loop 0 dim
              (fun kk qp => (<[kk := rd qo kk]> qp.1, <[kk := rd p12 kk]> qp.2))
              (q12, po) in
  let q12 := qp.1 in
  let po := qp.2 in
  {| s6_qo := qo; s6_po := po; s6_q12 := q12; s6_p12 := p12; s6_a := a;
     s6_to := to |}.

(** The steps of one macro interval of [symplec6] on the scratch buffers:
    the first drift, the [ndt-1] fused passes and the last pass. *)
Definition symplec6_steps (func : func_fn) dim dt (ndt : Z) (s : s6_state) : s6_state :=
  let qo := s6_qo s in
  let po := s6_po s in
  let q12 := s6_q12 s in
  let p12 := s6_p12 s in
  let a := s6_a s in
  let to := s6_to s in
  (* drift for c1*dt *)
  let q12 := leapfrog_leapq dim qo po (s6_c1 *. dt) q12 in
  let to := to +. s6_c1 *. dt in
  (* steps ignoring q8/p8 when output is not wanted *)
  let s := for_loop 0 (Z.to_nat (ndt - 1))
             (fun _ s => symplec6_substep func dim dt s)
             {| s6_qo := qo; s6_po := po; s6_q12 := q12; s6_p12 := p12;
                s6_a := a; s6_to := to |} in
  let qo := s6_qo s in
  let po := s6_po s in
  let q12 := s6_q12 s in
  let p12 := s6_p12 s in
  let a := s6_a s in
  let to := s6_to s in
  (* steps not ignoring q8/p8 when output is wanted *)
  let a := func to q12 in
  let p12 := leapfrog_leapp dim po (s6_d1 *. dt) a p12 in
  let qo := leapfrog_leapq dim q12 p12 (s6_c2 *. dt) qo in
  let to := to +. s6_c2 *. dt in
  let a := func to qo in
  let po := leapfrog_leapp dim p12 (s6_d2 *. dt) a po in
  let q12 := leapfrog_leapq dim qo po (s6_c3 *. dt) q12 in
  let to := to +. s6_c3 *. dt in
  let a := func to q12 in
  let p12 := leapfrog_leapp dim po (s6_d3 *. dt) a p12 in
  let qo := leapfrog_leapq dim q12 p12 (s6_c4 *. dt) qo in
  let to := to +. s6_c4 *. dt in
  let a := func to qo in
  let po := leapfrog_leapp dim p12 (s6_d4 *. dt) a po in
  let q12 := leapfrog_leapq dim qo po (s6_c5 *. dt) q12 in
  let to := to +. s6_c5 *. dt in
  let a := func to q12 in
  let p12 := leapfrog_leapp dim po (s6_d5 *. dt) a p12 in
  let qo := leapfrog_leapq dim q12 p12 (s6_c6 *. dt) qo in
  let to := to +. s6_c6 *. dt in
  let a := func to qo in
  let po := leapfrog_leapp dim p12 (s6_d6 *. dt) a po in
  let q12 := leapfrog_leapq dim qo po (s6_c7 *. dt) q12 in
  let to := to +. s6_c7 *. dt in
  let a := func to q12 in
  let p12 := leapfrog_leapp dim po (s6_d7 *. dt) a p12 in
  let qo := leapfrog_leapq dim q12 p12 (s6_c8 *. dt) qo in
  let to := to +. s6_c8 *. dt in
  (* p8=p7 *)
  let po := for_loop 0 dim (fun kk po => <[kk := rd p12 kk]> po) po in
  {| s6_qo := qo; s6_po := po; s6_q12 := q12; s6_p12 := p12; s6_a := a;
     s6_to := to |}.

(** What the macro loop of [symplec6] can reach: the caller's [yo], the
    scratch state, and the output buffer with the offset of [result]. *)
Record s6_run := {
  r6_yo : list F;
  r6_s : s6_state;
  r6_result : list F;
  r6_roff : nat
}.

(** The body of the macro loop of [symplec6], after the poll of the flag. *)
Definition symplec6_interval (func : func_fn) dim dt (ndt : Z) (r : s6_run) : s6_run :=
  let s := symplec6_steps func dim dt ndt (r6_s r) in
  (* save *)
  let result := save_qp dim (s6_qo s) (s6_po s) (r6_result r) (r6_roff r) in
  {| r6_yo := r6_yo r; r6_s := s; r6_result := result;
     r6_roff := r6_roff r + 2 * dim |}.

(** [for (ii=0; ii < dim; ii++) { *qo++= *(yo+ii); *po++= *(yo+dim+ii); }] *)
Definition symplec6_copy_yo dim yo (qo po : list F) : list F * list F :=
  for_loop 0 dim
    (fun ii qp => (<[ii := rd yo ii]> qp.1, <[ii := rd yo (dim + ii)]> qp.2))
    (qo, po).

Definition symplec6_dt (fuel : nat) (func : func_fn) dim (qo po : list F)
    (init_dt : F) dt t (rtol atol : F) : option F :=
  if dt ==. lit (-9999.99)
  then symplec6_estimate_step fuel func dim qo po init_dt t rtol atol
  else Some dt.

Definition symplec6 (fuel : nat) (func : func_fn) dim yo (nt : Z) dt t
    (rtol atol : F) result (interrupted : bool) (sigint : nat -> bool)
    : option outcome :=
  (* Initialize *)
  let qp := symplec6_copy_yo dim yo (malloc dim) (malloc dim) in
  let qo := qp.1 in
  let po := qp.2 in
  let q12 := malloc dim in
  let p12 := malloc dim in
  let a := malloc dim in
  let result := save_qp dim qo po result 0 in
  let roff := 2 * dim in
  let err := 0%Z in
  (* Estimate necessary stepsize *)
  let init_dt := rd t 1 -. rd t 0 in
  match symplec6_dt fuel func dim qo po init_dt dt t rtol atol with
  | None => None
  | Some dt =>
      let ndt := to_long (init_dt /. dt) in
      (* Integrate the system *)
      let to := rd t 0 in
      let r := macro_loop (Z.to_nat (nt - 1)) 0 sigint
                 (symplec6_interval func dim dt ndt) err interrupted
                 {| r6_yo := yo;
                    r6_s := {| s6_qo := qo; s6_po := po; s6_q12 := q12;
                               s6_p12 := p12; s6_a := a; s6_to := to |};
                    r6_result := result; r6_roff := roff |} in
      Some {| out_yo := r6_yo r.1.1; out_result := r6_result r.1.1;
              out_err := r.1.2; out_interrupted := r.2 |}
  end.

End Integrators.

Arguments drift_fn F : clear implicits.
Arguments kick_fn F : clear implicits.
Arguments func_fn F : clear implicits.
Arguments tol_scaling_fn F : clear implicits.
Arguments metric_fn F : clear implicits.
Arguments outcome F : clear implicits.
Arguments run_state F : clear implicits.
Arguments search_state F : clear implicits.
Arguments s6_state F : clear implicits.
Arguments s6_run F : clear implicits.
Arguments s6_search_state F : clear implicits.

(** ** The arithmetic of the real numbers

    The instance used where a statement needs the laws of an ordered field:
    the searches are then read in exact arithmetic.  [(long) x] truncates
    towards zero. *)

Definition R_trunc (x : R) : Z :=
  if Rle_dec 0 x then Int_part x else (- Int_part (- x))%Z.

Definition R_ltb (x y : R) : bool := if Rlt_dec x y then true else false.

Definition R_eqb (x y : R) : bool := if Req_dec_T x y then true else false.

#[global] Instance R_arith : Arith R := {|
  lit := Q2R;
  of_int := IZR;
  to_long := R_trunc;
  fadd := Rplus;
  fsub := Rminus;
  fmul := Rmult;
  fdiv := Rdiv;
  flt := R_ltb;
  feq := R_eqb;
  c_sqrt := sqrt;
  c_exp := exp;
  c_log := ln;
  c_fabs := Rabs;
  c_fmax := Rmax;
  c_pow := powerRZ
|}.

(** ** Reference definitions for the properties *)

(** The value of the flag that the poll opening macro interval [j] reads, as
    long as no earlier poll has seen it set: the flag is [interrupted] on
    entry and the handler sets it when a SIGINT is delivered.  For [j] the
    number of intervals it is the flag as the loop leaves it when no poll
    has seen it. *)
Definition flag_read (interrupted : bool) (sigint : nat -> bool) (j : nat) : bool :=
  match j with
  | O => interrupted || sigint 0
  | _ => sigint j
  end.

(** The flag is seen set for the first time at the start of interval [k]. *)
Definition first_seen (interrupted : bool) (sigint : nat -> bool) (k : nat) : Prop :=
  flag_read interrupted sigint k = true /\
  forall j, j < k -> flag_read interrupted sigint j = false.

(** No signal is ever delivered. *)
Definition quiet : nat -> bool := fun _ => false.

Section Reference.
Context {F : Type} {A : Arith F}.

(** The loops [for (ii=0; ii < n; ii++) *(l+off+ii)= f(ii);]. *)
Definition fill (n off : nat) (f : nat -> F) (l : list F) : list F :=
  for_loop 0 n (fun ii l => <[off + ii := f ii]> l) l.

(** What the specification asks of a scheme that polls the flag, [run nt
    interrupted sigint] being a call with everything but the number of output
    times and the signals fixed, and [block] the size of an output block.  If
    the flag is first seen at the start of interval [k] and the call without
    signals returns [full], then the interrupted call returns, with status
    [-10] and the flag cleared; it leaves [yo] and the output buffer as the
    call without signals that is asked for [k + 1] output times only, hence
    makes no further sub-step; and its first [k + 1] blocks are those of
    [full]. *)
Definition interrupt_contract
    (run : Z -> bool -> (nat -> bool) -> option (outcome F)) (block : nat) : Prop :=
  forall (nt : Z) (interrupted : bool) (sigint : nat -> bool) (k : nat)
         (full : outcome F),
    first_seen interrupted sigint k ->
    (Z.of_nat k < nt - 1)%Z ->
    run nt false quiet = Some full ->
    exists r short : outcome F,
      run nt interrupted sigint = Some r /\
      run (Z.of_nat k + 1)%Z false quiet = Some short /\
      out_err r = (-10)%Z /\
      out_interrupted r = false /\
      out_yo r = out_yo short /\
      out_result r = out_result short /\
      take ((k + 1) * block) (out_result r)
      = take ((k + 1) * block) (out_result full).

(** The state of [symplec6] when it enters the macro loop. *)
Definition symplec6_entry (dim : nat) (yo t result : list F) : s6_run F :=
  let qp := symplec6_copy_yo dim yo (malloc dim) (malloc dim) in
  {| r6_yo := yo;
     r6_s := {| s6_qo := qp.1; s6_po := qp.2; s6_q12 := malloc dim;
                s6_p12 := malloc dim; s6_a := malloc dim; s6_to := rd t 0 |};
     r6_result := save_qp dim qp.1 qp.2 result 0;
     r6_roff := 2 * dim |}.

(** The state of [leapfrog] and of [symplec4] when they enter the macro
    loop. *)
Definition drift_kick_entry (dim : nat) (yo t result : list F)
    (construct_Lz : bool) : run_state F :=
  {| rs_yo := construct_Lz_init construct_Lz yo;
     rs_to := rd t 0;
     rs_result := save_result dim yo result 0 false;
     rs_roff := dim |}.

(** The caller supplied a step size: [dt == -9999.99] is false. *)
Definition explicit_step (dt : F) : Prop := (dt ==. lit (-9999.99)) = false.

(** The poll and the saving aside, an interval acts on [yo] and [to] only. *)
Definition same_motion (s s' : run_state F) : Prop :=
  rs_yo s = rs_yo s' /\ rs_to s = rs_to s'.

(** What a call returns besides the output buffer. *)
Definition state_on_return (r : outcome F) : list F * Z * bool :=
  (out_yo r, out_err r, out_interrupted r).

(** The leapfrog interval as the specification words it: a half drift, then
    [ndt - 1] times a kick at the midpoint of the sub-step followed by a full
    drift, then a last kick and a half drift.  [KickMid j] is the kick of
    sub-step [j] of the interval. *)
Inductive lf_op := HalfDrift | FullDrift | KickMid (j : nat).

(** The running time after [j] sub-steps of an interval begun at [to]. *)
Definition substep_time (dt to : F) (j : nat) : F :=
  Nat.iter j (fun to => to +. dt) to.

Definition lf_apply (drift : drift_fn F) (kick : kick_fn F) (dt to : F)
    (o : lf_op) (y : list F) : list F :=
  match o with
  | HalfDrift => drift (dt /. lit 2) y
  | FullDrift => drift dt y
  | KickMid j => kick dt (substep_time dt to j +. dt /. lit 2) y
  end.

Definition lf_run (drift : drift_fn F) (kick : kick_fn F) (dt to : F)
    (ops : list lf_op) (y : list F) : list F :=
  fold_left (fun y o => lf_apply drift kick dt to o y) ops y.

Definition lf_middle (m : nat) : list lf_op :=
  flat_map (fun j => [KickMid j; FullDrift]) (seq 0 m).

Definition leapfrog_interval_spec (ndt : nat) : list lf_op :=
  [HalfDrift] ++ lf_middle (ndt - 1) ++ [KickMid (ndt - 1); HalfDrift].

Definition kick_count (ops : list lf_op) : nat :=
  list_sum (map (fun o => match o with KickMid _ => 1 | _ => 0 end) ops).

(** The drift time of a sequence, counted in halves of [dt]. *)
Definition drift_halves (ops : list lf_op) : nat :=
  list_sum (map (fun o => match o with
                          | HalfDrift => 1
                          | FullDrift => 2
                          | KickMid _ => 0
                          end) ops).

(** The states of the three searches after [j] passes of their loop. *)
Definition leapfrog_search_state (drift : drift_fn F) (kick : kick_fn F)
    (dim : nat) (yo : list F) (dt : F) (t : list F) (rtol atol : F)
    (tol_scaling : tol_scaling_fn F) (metric : metric_fn F) (j : nat)
    : search_state F :=
  Nat.iter j
    (leapfrog_search_body drift kick dim yo metric
       (estimate_scale2 dim rtol atol (tol_scaling yo)))
    (leapfrog_search_init dim dt t).

Definition symplec4_search_state (drift : drift_fn F) (kick : kick_fn F)
    (dim : nat) (yo : list F) (dt : F) (t : list F) (rtol atol : F)
    (tol_scaling : tol_scaling_fn F) (metric : metric_fn F) (j : nat)
    : search_state F :=
  Nat.iter j
    (symplec4_search_body drift kick dim yo t metric
       (estimate_scale2 dim rtol atol (tol_scaling yo)))
    (symplec4_search_init dim dt).

Definition symplec6_search_state (func : func_fn F) (dim : nat)
    (qo po : list F) (dt : F) (t : list F) (rtol atol : F) (j : nat)
    : s6_search_state F :=
  Nat.iter j
    (symplec6_search_body func dim qo po
       (symplec6_scale dim qo po rtol atol))
    (symplec6_search_init dim dt t).

(** The tolerance of component [i] as the specification words it,
    [atol + rtol * scaling_i], and the scale it would give. *)
Definition claimed_tolerance (rtol atol scaling_i : F) : F :=
  atol +. rtol *. scaling_i.

Definition claimed_scale2 (dim : nat) (rtol atol : F) (scaling : list F) : list F :=
  fill dim 0 (fun ii => c_pow (claimed_tolerance rtol atol (rd scaling ii)) 2)
    (malloc dim).

End Reference.

(** What the specification asks of a step-size search started from the probe
    step [init_dt], in exact arithmetic: [result fuel] is what the search
    returns and [dt_of j], [err_of j] are its candidate step and its error
    after [j] halvings.  The candidate starts at twice the probe step and
    each pass halves it.  The search returns after [k] halvings, with
    [1 <= k <= 15], the value [init_dt * 2 / 2 ^ k]; at that point the error
    is at most 1 or the ratio [init_dt / dt] has reached 10000; and before it
    neither was the case. *)
Definition halving_search_contract (result : nat -> option R) (init_dt : R)
    (dt_of err_of : nat -> R) : Prop :=
  dt_of 0 = (init_dt * 2)%R /\
  (forall j, dt_of (Datatypes.S j) = (dt_of j / 2)%R) /\
  exists k : nat,
    1 <= k <= 15 /\
    (forall fuel, 15 <= fuel -> result fuel = Some (init_dt * 2 / 2 ^ k)%R) /\
    dt_of k = (init_dt * 2 / 2 ^ k)%R /\
    (err_of k <= 1 \/ 10000 <= init_dt / dt_of k)%R /\
    forall j, j < k -> (1 < err_of j /\ init_dt / dt_of j < 10000)%R.

(** Two states of the leapfrog search that differ in the error only, the
    second having the larger one. *)
Definition lockstep (s s' : search_state R) : Prop :=
  ss_dt s = ss_dt s' /\ ss_to s = ss_to s' /\ ss_y11 s = ss_y11 s' /\
  ss_y12 s = ss_y12 s' /\ (ss_err s <= ss_err s')%R.

(** A system at rest, used to run the searches on a concrete input: [drift]
    and [kick] leave the state as it is, the metric is the componentwise
    difference and the scaling is zero. *)
Definition still_drift : drift_fn R := fun _ y => y.

Definition still_kick : kick_fn R := fun _ _ y => y.

Definition diff_metric : metric_fn R :=
  fun dim x y => map (fun i => (rd x i - rd y i)%R) (seq 0 dim).

Definition zero_scaling : tol_scaling_fn R := fun y => map (fun _ => 0%R) y.

(** ** Rational arithmetic, to run the schemes

    Exact arithmetic on reduced fractions; the functions of the C library
    that have no rational value are arguments of the instance.  The schemes
    do not call them when the caller gives the step size. *)

Definition Q_ltb (x y : Q) : bool :=
  match Qcompare x y with Lt => true | _ => false end.

Definition Q_trunc (x : Q) : Z := Z.quot (Qnum x) (Zpos (Qden x)).

Definition Q_arith (m_sqrt m_exp m_log : Q -> Q) : Arith Q := {|
  lit := Qred;
  of_int := inject_Z;
  to_long := Q_trunc;
  fadd x y := Qred (x + y);
  fsub x y := Qred (x - y);
  fmul x y := Qred (x * y);
  fdiv x y := Qred (x / y);
  flt := Q_ltb;
  feq := Qeq_bool;
  c_sqrt := m_sqrt;
  c_exp := m_exp;
  c_log := m_log;
  c_fabs x := Qred (Qabs x);
  c_fmax x y := if Q_ltb x y then y else x;
  c_pow x n := Qred (Qpower x n)
|}.

(** The harmonic oscillator [a = -q] on the state [[q; p]]. *)
Definition osc_drift : drift_fn Q :=
  fun dt y => match y with [q; p] => [Qred (q + dt * p); p] | _ => y end.

Definition osc_kick : kick_fn Q :=
  fun dt _ y => match y with [q; p] => [q; Qred (p - dt * q)] | _ => y end.

(** A free motion in the plane on the state [[R; vR; Lz; phi]]: the drift
    turns [phi] by [dt * Lz / R^2]. *)
Definition planar_drift : drift_fn Q :=
  fun dt y =>
    match y with
    | [r; vr; lz; phi] => [r; vr; lz; Qred (phi + dt * lz / (r * r))]
    | _ => y
    end.

Definition no_kick : kick_fn Q := fun _ _ y => y.

(** ** Reference definitions for the further properties *)

Section Reference2.
Context {F : Type} {A : Arith F}.

(** The status and the flag of a call that returns: either some poll before
    the last output time saw the flag, the status is [-10] and the flag is
    cleared; or no poll saw it and the status is [0], and the flag is then
    set on return exactly when it was set on entry and there was no poll
    ([nt <= 1]) or a SIGINT came after the last poll. *)
Definition status_contract (call : option (outcome F)) (nt : Z)
    (interrupted : bool) (sigint : nat -> bool) : Prop :=
  forall r, call = Some r ->
    (out_err r = (-10)%Z /\ out_interrupted r = false /\
     exists k, (Z.of_nat k < nt - 1)%Z /\ first_seen interrupted sigint k) \/
    (out_err r = 0%Z /\
     (forall j, (Z.of_nat j < nt - 1)%Z ->
        flag_read interrupted sigint j = false) /\
     out_interrupted r = flag_read interrupted sigint (Z.to_nat (nt - 1))).

(** The cells of the output buffer that a call leaves as they were: all
    those past the blocks it was asked for, and after an interruption at
    interval [k] all those past block [k]. *)
Definition extent_contract (call : option (outcome F)) (nt : Z)
    (interrupted : bool) (sigint : nat -> bool) (result : list F)
    (block : nat) : Prop :=
  forall r, call = Some r ->
    length (out_result r) = length result /\
    (forall j, (Z.to_nat (nt - 1) + 1) * block <= j ->
       out_result r !! j = result !! j) /\
    (forall k, first_seen interrupted sigint k -> (Z.of_nat k < nt - 1)%Z ->
       forall j, (k + 1) * block <= j -> out_result r !! j = result !! j).

(** The shape the three schemes share once their step is chosen: [choose] is
    the step or the failure of the search, [init] the state on entering the
    macro loop and [body] the interval. *)
Definition macro_form {S D : Type} (res yoP : S -> list F)
    (body : D -> S -> S) (init : D -> S) (choose : option D) (nt : Z)
    (interrupted : bool) (sigint : nat -> bool) : option (outcome F) :=
  match choose with
  | None => None
  | Some d =>
      let m := macro_loop (Z.to_nat (nt - 1)) 0 sigint (body d) 0%Z
                 interrupted (init d) in
      Some {| out_yo := yoP m.1.1; out_result := res m.1.1;
              out_err := m.1.2; out_interrupted := m.2 |}
  end.

(** One leapfrog step of [dt] begun at time [to]: half a drift, a kick at
    the midpoint, half a drift; and [n] of them in a row. *)
Definition leapfrog_step (drift : drift_fn F) (kick : kick_fn F) (dt to : F)
    (y : list F) : list F :=
  drift (dt /. lit 2) (kick dt (to +. dt /. lit 2) (drift (dt /. lit 2) y)).

Definition leapfrog_n_steps (drift : drift_fn F) (kick : kick_fn F)
    (dt to : F) (n : nat) (y : list F) : list F :=
  for_loop 0 n
    (fun j y => leapfrog_step drift kick dt (substep_time dt to j) y) y.

(** The candidate step of a search after [k] passes. *)
Definition halved (dt : F) (k : nat) : F :=
  Nat.iter k (fun d => d /. lit 2) (dt *. lit 2).

(** What a search that returns has done, in any arithmetic: [result fuel] is
    what it returns with [fuel] and [err_of j] its error after [j] passes.
    The step returned is the doubled probe step halved [k] times; the loop
    condition fails at it and held at every candidate before; and more fuel
    gives the same step. *)
Definition halving_result_contract (result : nat -> option F) (init_dt : F)
    (err_of : nat -> F) : Prop :=
  forall fuel d, result fuel = Some d ->
    exists k, k <= fuel /\ d = halved init_dt k /\
      search_cond init_dt d (err_of k) = false /\
      (forall j, j < k ->
         search_cond init_dt (halved init_dt j) (err_of j) = true) /\
      forall fuel', fuel <= fuel' -> result fuel' = Some d.

End Reference2.

(** The oscillator [a = -q] and a free motion over the real numbers. *)
Definition osc_drift_R : drift_fn R :=
  fun dt y => match y with [q; p] => [(q + dt * p)%R; p] | _ => y end.

Definition osc_kick_R : kick_fn R :=
  fun dt _ y => match y with [q; p] => [q; (p - dt * q)%R] | _ => y end.

(** ** Reference definitions for the sixth-order scheme *)

Section Reference6.
Context {F : Type} {A : Arith F}.

(** The [dim] cells that [leapfrog_leapq] and [leapfrog_leapp] compute. *)
Definition leapq_cells (dim : nat) (q p : list F) (dt : F) : list F :=
  map (fun ii => rd q ii +. dt *. rd p ii) (seq 0 dim).

Definition leapp_cells (dim : nat) (p : list F) (dt : F) (a : list F)
    : list F :=
  map (fun ii => rd p ii +. dt *. rd a ii) (seq 0 dim).

(** The scratch buffers of [symplec6] have [dim] cells each. *)
Definition s6_sized (dim : nat) (s : s6_state F) : Prop :=
  length (s6_qo s) = dim /\ length (s6_po s) = dim /\
  length (s6_q12 s) = dim /\ length (s6_p12 s) = dim.

(** What one macro interval of [symplec6] hands to the next and to the
    output: the positions, the momenta and the time. *)
Definition s6_live (s : s6_state F) : list F * list F * F :=
  (s6_qo s, s6_po s, s6_to s).

(** The parts of [symplec6_steps] around its loop: the first drift, and the
    last pass with the copy of the momenta. *)
Definition symplec6_first (dim : nat) (dt : F) (s : s6_state F)
    : s6_state F :=
  {| s6_qo := s6_qo s; s6_po := s6_po s;
     s6_q12 := leapfrog_leapq dim (s6_qo s) (s6_po s) (s6_c1 *. dt) (s6_q12 s);
     s6_p12 := s6_p12 s; s6_a := s6_a s;
     s6_to := s6_to s +. s6_c1 *. dt |}.

Definition symplec6_last (func : func_fn F) (dim : nat) (dt : F)
    (s : s6_state F) : s6_state F :=
  let qo := s6_qo s in
  let po := s6_po s in
  let q12 := s6_q12 s in
  let p12 := s6_p12 s in
  let a := s6_a s in
  let to := s6_to s in
  let a := func to q12 in
  let p12 := leapfrog_leapp dim po (s6_d1 *. dt) a p12 in
  let qo := leapfrog_leapq dim q12 p12 (s6_c2 *. dt) qo in
  let to := to +. s6_c2 *. dt in
  let a := func to qo in
  let po := leapfrog_leapp dim p12 (s6_d2 *. dt) a po in
  let q12 := leapfrog_leapq dim qo po (s6_c3 *. dt) q12 in
  let to := to +. s6_c3 *. dt in
  let a := func to q12 in
  let p12 := leapfrog_leapp dim po (s6_d3 *. dt) a p12 in
  let qo := leapfrog_leapq dim q12 p12 (s6_c4 *. dt) qo in
  let to := to +. s6_c4 *. dt in
  let a := func to qo in
  let po := leapfrog_leapp dim p12 (s6_d4 *. dt) a po in
  let q12 := leapfrog_leapq dim qo po (s6_c5 *. dt) q12 in
  let to := to +. s6_c5 *. dt in
  let a := func to q12 in
  let p12 := leapfrog_leapp dim po (s6_d5 *. dt) a p12 in
  let qo := leapfrog_leapq dim q12 p12 (s6_c6 *. dt) qo in
  let to := to +. s6_c6 *. dt in
  let a := func to qo in
  let po := leapfrog_leapp dim p12 (s6_d6 *. dt) a po in
  let q12 := leapfrog_leapq dim qo po (s6_c7 *. dt) q12 in
  let to := to +. s6_c7 *. dt in
  let a := func to q12 in
  let p12 := leapfrog_leapp dim po (s6_d7 *. dt) a p12 in
  let qo := leapfrog_leapq dim q12 p12 (s6_c8 *. dt) qo in
  let to := to +. s6_c8 *. dt in
  let po := for_loop 0 dim (fun kk po => <[kk := rd p12 kk]> po) po in
  {| s6_qo := qo; s6_po := po; s6_q12 := q12; s6_p12 := p12; s6_a := a;
     s6_to := to |}.

(** The sixth-order step as the composition of drifts and kicks that it
    stands for, on the positions, the momenta and the time: a drift of [h]
    advances the positions by [h] times the momenta and the time by [h]; a
    kick of [h] advances the momenta by [h] times the acceleration at the
    current time and positions.  A step is the drift of [c1*dt], the seven
    kicks with the six drifts between them, and the drift of [c8*dt]. *)
Definition s6_drift (dim : nat) (h : F) (x : list F * list F * F)
    : list F * list F * F :=
  (leapq_cells dim x.1.1 x.1.2 h, x.1.2, x.2 +. h).

Definition s6_kick (func : func_fn F) (dim : nat) (h : F)
    (x : list F * list F * F) : list F * list F * F :=
  (x.1.1, leapp_cells dim x.1.2 h (func x.2 x.1.1), x.2).

Definition s6_middle (func : func_fn F) (dim : nat) (dt : F)
    (x : list F * list F * F) : list F * list F * F :=
  let x := s6_kick func dim (s6_d1 *. dt) x in
  let x := s6_drift dim (s6_c2 *. dt) x in
  let x := s6_kick func dim (s6_d2 *. dt) x in
  let x := s6_drift dim (s6_c3 *. dt) x in
  let x := s6_kick func dim (s6_d3 *. dt) x in
  let x := s6_drift dim (s6_c4 *. dt) x in
  let x := s6_kick func dim (s6_d4 *. dt) x in
  let x := s6_drift dim (s6_c5 *. dt) x in
  let x := s6_kick func dim (s6_d5 *. dt) x in
  let x := s6_drift dim (s6_c6 *. dt) x in
  let x := s6_kick func dim (s6_d6 *. dt) x in
  let x := s6_drift dim (s6_c7 *. dt) x in
  s6_kick func dim (s6_d7 *. dt) x.

Definition s6_step (func : func_fn F) (dim : nat) (dt : F)
    (x : list F * list F * F) : list F * list F * F :=
  s6_drift dim (s6_c8 *. dt)
    (s6_middle func dim dt (s6_drift dim (s6_c1 *. dt) x)).

(** The positions and the momenta have [dim] cells each. *)
Definition s6_sized3 (dim : nat) (x : list F * list F * F) : Prop :=
  length x.1.1 = dim /\ length x.1.2 = dim.

(** What the passes of [symplec6] read of the scratch state: the advanced
    positions, the momenta and the time. *)
Definition s6_work (s : s6_state F) : list F * list F * F :=
  (s6_q12 s, s6_po s, s6_to s).

End Reference6.

(** * Properties *)

(** ** Loops and buffers *)

Section LoopFacts.
Context {S : Type}.

Lemma for_loop_empty (lo : nat) (body : nat -> S -> S) (s : S) :
  for_loop lo lo body s = s.
Proof. unfold for_loop. by rewrite Nat.sub_diag. Qed.

Lemma for_loop_snoc (lo hi : nat) (body : nat -> S -> S) (s : S) :
  lo <= hi ->
  for_loop lo (Datatypes.S hi) body s = body hi (for_loop lo hi body s).
Proof.
  intros Hle. unfold for_loop.
  replace (Datatypes.S hi - lo) with (Datatypes.S (hi - lo)) by lia.
  rewrite seq_S, fold_left_app. simpl.
  by replace (lo + (hi - lo)) with hi by lia.
Qed.

End LoopFacts.

Section BufferFacts.
Context {F : Type} {A : Arith F}.
Implicit Types (l : list F) (f : nat -> F).

Lemma fill_length n off f l : length (fill n off f l) = length l.
Proof.
  unfold fill. induction n as [|n IH]; [by rewrite for_loop_empty|].
  rewrite for_loop_snoc by lia. by rewrite length_insert.
Qed.

Lemma fill_lookup_in n off f l j :
  j < n -> off + j < length l -> fill n off f l !! (off + j) = Some (f j).
Proof.
  unfold fill. induction n as [|n IH]; intros Hj Hlen; [lia|].
  rewrite for_loop_snoc by lia.
  destruct (decide (j = n)) as [->|Hne].
  - apply list_lookup_insert_eq. fold (fill n off f l). by rewrite fill_length.
  - rewrite list_lookup_insert_ne by lia. apply IH; lia.
Qed.

Lemma fill_lookup_out n off f l j :
  j < off \/ off + n <= j -> fill n off f l !! j = l !! j.
Proof.
  unfold fill. induction n as [|n IH]; intros Hj; [by rewrite for_loop_empty|].
  rewrite for_loop_snoc by lia.
  rewrite list_lookup_insert_ne by lia. apply IH; lia.
Qed.

Lemma fill_take n off f l k : k <= off -> take k (fill n off f l) = take k l.
Proof.
  intros Hk. unfold fill. induction n as [|n IH]; [by rewrite for_loop_empty|].
  rewrite for_loop_snoc by lia. by rewrite take_insert_ge by lia.
Qed.

Lemma rd_fill_in n off f l j :
  j < n -> off + j < length l -> rd (fill n off f l) (off + j) = f j.
Proof. intros Hj Hl. unfold rd. by rewrite fill_lookup_in. Qed.

Lemma leapfrog_leapq_fill dim (q p : list F) (dt : F) (qn : list F) :
  leapfrog_leapq dim q p dt qn
  = fill dim 0 (fun ii => (rd q ii +. dt *. rd p ii)%dbl) qn.
Proof. reflexivity. Qed.

Lemma leapfrog_leapp_fill dim (p : list F) (dt : F) (a pn : list F) :
  leapfrog_leapp dim p dt a pn
  = fill dim 0 (fun ii => (rd p ii +. dt *. rd a ii)%dbl) pn.
Proof. reflexivity. Qed.

(** C7. The position primitive writes [q[i] + dt * p[i]] and the momentum
    primitive writes [p[i] + dt * a[i]] into cell [i] of the output vector,
    for every [i < dim]; the output vector keeps its length and its cells
    from [dim] on, and nothing else is written. *)
Theorem leap_primitives_pointwise dim (q p a : list F) (dt : F)
    (qn pn : list F) :
  dim <= length qn -> dim <= length pn ->
  (forall i, i < dim ->
     rd (leapfrog_leapq dim q p dt qn) i = (rd q i +. dt *. rd p i)%dbl /\
     rd (leapfrog_leapp dim p dt a pn) i = (rd p i +. dt *. rd a i)%dbl) /\
  length (leapfrog_leapq dim q p dt qn) = length qn /\
  length (leapfrog_leapp dim p dt a pn) = length pn /\
  (forall j, dim <= j ->
     leapfrog_leapq dim q p dt qn !! j = qn !! j /\
     leapfrog_leapp dim p dt a pn !! j = pn !! j).
Proof.
  intros Hq Hp. rewrite leapfrog_leapq_fill, leapfrog_leapp_fill.
  repeat split.
  - apply (rd_fill_in dim 0); lia.
  - apply (rd_fill_in dim 0); lia.
  - apply fill_length.
  - apply fill_length.
  - apply fill_lookup_out; lia.
  - apply fill_lookup_out; lia.
Qed.

End BufferFacts.


(** ** The macro loop and the output buffer *)

Section MacroLoopFacts.
Context {S : Type} (body : S -> S).

Lemma macro_loop_quiet (n ii : nat) (err : Z) (s : S) :
  macro_loop n ii quiet body err false s = (Nat.iter n body s, err, false).
Proof.
  revert ii s. induction n as [|n IH]; intros ii s; [done|].
  cbn [macro_loop quiet orb]. by rewrite IH, Nat.iter_succ_r.
Qed.

Lemma macro_loop_seen_from (sigint : nat -> bool) (err : Z) (n : nat) :
  forall (ii : nat) (fl : bool) (s : S) (k : nat),
    k < n ->
    (forall j, j < k ->
       match j with O => fl || sigint ii | _ => sigint (ii + j) end = false) ->
    match k with O => fl || sigint ii | _ => sigint (ii + k) end = true ->
    macro_loop n ii sigint body err fl s = (Nat.iter k body s, (-10)%Z, false).
Proof.
  induction n as [|n IH]; intros ii fl s k Hk Hbefore Hat; [lia|].
  cbn [macro_loop]. destruct k as [|k].
  - by rewrite Hat.
  - rewrite (Hbefore 0) by lia.
    rewrite (IH (Datatypes.S ii) false (body s) k); [| lia | |].
    + by rewrite Nat.iter_succ_r.
    + intros j Hj. specialize (Hbefore (Datatypes.S j) ltac:(lia)).
      simpl in Hbefore. destruct j as [|j]; simpl.
      * by replace (ii + 1) with (Datatypes.S ii) in Hbefore by lia.
      * by replace (ii + Datatypes.S (Datatypes.S j))
          with (Datatypes.S (ii + Datatypes.S j)) in Hbefore by lia.
    + destruct k as [|k]; simpl.
      * by replace (ii + 1) with (Datatypes.S ii) in Hat by lia.
      * by replace (ii + Datatypes.S (Datatypes.S k))
          with (Datatypes.S (ii + Datatypes.S k)) in Hat by lia.
Qed.

Lemma macro_loop_seen (sigint : nat -> bool) (err : Z) (n k : nat)
    (interrupted : bool) (s : S) :
  first_seen interrupted sigint k -> k < n ->
  macro_loop n 0 sigint body err interrupted s
  = (Nat.iter k body s, (-10)%Z, false).
Proof.
  intros [Hat Hbefore] Hk. apply macro_loop_seen_from; [done | |].
  - intros j Hj. specialize (Hbefore j Hj). by destruct j.
  - by destruct k.
Qed.

(** Either the whole loop runs or it stops at the first poll that sees the
    flag; in both cases the state is an iterate of the body. *)
Lemma macro_loop_iterate (sigint : nat -> bool) (err : Z) (n : nat) :
  forall (ii : nat) (fl : bool) (s : S),
    exists k, k <= n /\
      (macro_loop n ii sigint body err fl s).1.1 = Nat.iter k body s.
Proof.
  induction n as [|n IH]; intros ii fl s; cbn [macro_loop].
  - by exists 0.
  - destruct (fl || sigint ii).
    + exists 0. split; [lia | done].
    + destruct (IH (Datatypes.S ii) false (body s)) as (k & Hk & ->).
      exists (Datatypes.S k). split; [lia|]. by rewrite Nat.iter_succ_r.
Qed.

Lemma macro_loop_unseen_from (sigint : nat -> bool) (err : Z) (n : nat) :
  forall (ii : nat) (fl : bool) (s : S),
    (forall j, j < n ->
       match j with O => fl || sigint ii | _ => sigint (ii + j) end = false) ->
    macro_loop n ii sigint body err fl s
    = (Nat.iter n body s, err,
       match n with O => fl || sigint ii | _ => sigint (ii + n) end).
Proof.
  induction n as [|n IH]; intros ii fl s Hnone; [done|].
  cbn [macro_loop]. rewrite (Hnone 0) by lia.
  rewrite (IH (Datatypes.S ii) false (body s)).
  - rewrite Nat.iter_succ_r. destruct n as [|n]; cbn [orb].
    + by replace (ii + 1) with (Datatypes.S ii) by lia.
    + by replace (ii + Datatypes.S (Datatypes.S n))
        with (Datatypes.S ii + Datatypes.S n) by lia.
  - intros j Hj. specialize (Hnone (Datatypes.S j) ltac:(lia)).
    simpl in Hnone. destruct j as [|j]; simpl.
    + by replace (ii + 1) with (Datatypes.S ii) in Hnone by lia.
    + by replace (ii + Datatypes.S (Datatypes.S j))
        with (Datatypes.S (ii + Datatypes.S j)) in Hnone by lia.
Qed.

Lemma macro_loop_unseen (sigint : nat -> bool) (err : Z) (n : nat)
    (interrupted : bool) (s : S) :
  (forall j, j < n -> flag_read interrupted sigint j = false) ->
  macro_loop n 0 sigint body err interrupted s
  = (Nat.iter n body s, err, flag_read interrupted sigint n).
Proof.
  intros Hnone. rewrite macro_loop_unseen_from.
  - by destruct n.
  - intros j Hj. specialize (Hnone j Hj). by destruct j.
Qed.

Lemma seen_or_not (interrupted : bool) (sigint : nat -> bool) (n : nat) :
  (exists k, k < n /\ first_seen interrupted sigint k) \/
  (forall j, j < n -> flag_read interrupted sigint j = false).
Proof.
  induction n as [|n [(k & Hk & Hseen)|Hnone]].
  - right. intros j Hj. lia.
  - left. exists k. split; [lia | done].
  - destruct (flag_read interrupted sigint n) eqn:Hn.
    + left. exists n. split; [lia|]. split; [done|]. intros j Hj. by apply Hnone.
    + right. intros j Hj. destruct (decide (j = n)) as [->|]; [done|].
      apply Hnone. lia.
Qed.

(** The loop stops at the first poll that sees the flag, after as many
    intervals as polls went before, or runs all its intervals when no poll
    sees it. *)
Lemma macro_loop_done (sigint : nat -> bool) (err : Z) (n : nat)
    (interrupted : bool) (s : S) :
  (exists k, k < n /\ first_seen interrupted sigint k /\
     macro_loop n 0 sigint body err interrupted s
     = (Nat.iter k body s, (-10)%Z, false)) \/
  ((forall j, j < n -> flag_read interrupted sigint j = false) /\
   macro_loop n 0 sigint body err interrupted s
   = (Nat.iter n body s, err, flag_read interrupted sigint n)).
Proof.
  destruct (seen_or_not interrupted sigint n) as [(k & Hk & Hseen)|Hnone].
  - left. exists k. split; [done|]. split; [done|]. by apply macro_loop_seen.
  - right. split; [done|]. by apply macro_loop_unseen.
Qed.

End MacroLoopFacts.

Section PrefixFacts.
Context {F : Type} {S : Type}.
Context (roff : S -> nat) (result : S -> list F) (body : S -> S) (blk : nat).
Hypothesis Hroff : forall s, roff (body s) = roff s + blk.
Hypothesis Hres :
  forall s, take (roff s) (result (body s)) = take (roff s) (result s).

Lemma roff_iter (m : nat) (s : S) :
  roff (Nat.iter m body s) = roff s + m * blk.
Proof using Hroff.
  induction m as [|m IH]; simpl; [lia|]. rewrite Hroff, IH. lia.
Qed.

Lemma prefix_iter (m : nat) (s : S) (n : nat) :
  n <= roff s ->
  take n (result (Nat.iter m body s)) = take n (result s).
Proof using Hroff Hres.
  intros Hn. induction m as [|m IH]; simpl; [done|].
  rewrite <- IH.
  pose proof (roff_iter m s) as Hm.
  rewrite <- (Nat.min_l n (roff (Nat.iter m body s))) by lia.
  rewrite <- !take_take. by rewrite Hres.
Qed.

Lemma prefix_iter_add (k m : nat) (s : S) :
  take (roff s + k * blk) (result (Nat.iter (m + k) body s))
  = take (roff s + k * blk) (result (Nat.iter k body s)).
Proof using Hroff Hres.
  rewrite Nat.iter_add. apply prefix_iter. rewrite roff_iter. lia.
Qed.

End PrefixFacts.

Section SaveFacts.
Context {F : Type} {A : Arith F}.
Implicit Types (yo qo po result : list F).

Lemma save_result_fill dim yo result roff (construct_Lz : bool) :
  save_result dim yo result roff construct_Lz
  = let r := fill dim roff (rd yo) result in
    if construct_Lz then <[roff + 2 := (rd r (roff + 2) /. rd r roff)%dbl]> r
    else r.
Proof. reflexivity. Qed.

Lemma save_result_take dim yo result roff construct_Lz n :
  n <= roff ->
  take n (save_result dim yo result roff construct_Lz) = take n result.
Proof.
  intros Hn. rewrite save_result_fill. simpl.
  destruct construct_Lz; [rewrite take_insert_ge by lia|]; by apply fill_take.
Qed.

Lemma save_qp_fill dim qo po result roff :
  save_qp dim qo po result roff
  = fill dim (roff + dim) (rd po) (fill dim roff (rd qo) result).
Proof. reflexivity. Qed.

Lemma save_qp_take dim qo po result roff n :
  n <= roff -> take n (save_qp dim qo po result roff) = take n result.
Proof.
  intros Hn. rewrite save_qp_fill. rewrite !fill_take by lia. done.
Qed.

End SaveFacts.

(** ** Cancellation *)

Section Cancellation.
Context {F : Type} {A : Arith F}.

Lemma interrupt_contract_macro {S D : Type} (roff : S -> nat)
    (res yoP : S -> list F) (body : D -> S -> S) (init : D -> S)
    (choose : option D) (blk : nat) :
  (forall d s, roff (body d s) = roff s + blk) ->
  (forall d s, take (roff s) (res (body d s)) = take (roff s) (res s)) ->
  (forall d, roff (init d) = blk) ->
  interrupt_contract
    (fun nt interrupted sigint =>
       match choose with
       | None => None
       | Some d =>
           let r := macro_loop (Z.to_nat (nt - 1)) 0 sigint (body d) 0%Z
                      interrupted (init d) in
           Some {| out_yo := yoP r.1.1; out_result := res r.1.1;
                   out_err := r.1.2; out_interrupted := r.2 |}
       end) blk.
Proof.
  intros Hroff Hres Hinit nt interrupted sigint k full Hseen Hk Hfull.
  destruct choose as [d|]; [|discriminate].
  eexists _, _. split; [reflexivity|]. split; [reflexivity|].
  cbn zeta.
  rewrite (macro_loop_seen (body d) sigint 0%Z (Z.to_nat (nt - 1)) k)
    by (done || lia).
  rewrite macro_loop_quiet.
  replace (Z.to_nat (Z.of_nat k + 1 - 1)) with k by lia.
  cbn [fst snd out_yo out_result out_err out_interrupted].
  repeat (split; [reflexivity|]).
  injection Hfull as <-. rewrite macro_loop_quiet.
  cbn [fst snd out_result].
  replace (Z.to_nat (nt - 1)) with ((Z.to_nat (nt - 1) - k) + k) by lia.
  replace ((k + 1) * blk) with (roff (init d) + k * blk)
    by (rewrite Hinit; lia).
  symmetry. by apply (prefix_iter_add roff res (body d) blk).
Qed.

(** C1. For each of the three schemes: if the flag is first seen set at the
    start of macro interval [k] (counted from 0, with [k < nt - 1]), the call
    returns with status [-10] and the flag reset to [0]; it makes no further
    sub-step, leaving [yo] and the output buffer exactly as a call without
    signals that is asked for [k + 1] output times; and the blocks written,
    the initial one and the [k] completed intervals, are the first [k + 1]
    blocks of the run without signals on the same inputs. *)
Theorem cancellation_keeps_prefix (fuel : nat) (drift : drift_fn F)
    (kick : kick_fn F) (func : func_fn F) (dim : nat) (yo : list F) (dt : F)
    (t : list F) (rtol atol : F) (tol_scaling : tol_scaling_fn F)
    (metric : metric_fn F) (construct_Lz : bool) (result : list F) :
  interrupt_contract
    (fun nt interrupted sigint =>
       leapfrog fuel drift kick dim yo nt dt t rtol atol tol_scaling metric
         construct_Lz result interrupted sigint) dim /\
  interrupt_contract
    (fun nt interrupted sigint =>
       symplec4 fuel drift kick dim yo nt dt t rtol atol tol_scaling metric
         construct_Lz result interrupted sigint) dim /\
  interrupt_contract
    (fun nt interrupted sigint =>
       symplec6 fuel func dim yo nt dt t rtol atol result interrupted sigint)
    (2 * dim).
Proof.
  split; [|split].
  - apply (interrupt_contract_macro rs_roff rs_result rs_yo
             (fun d => leapfrog_interval drift kick dim d
                         (to_long ((rd t 1 -. rd t 0) /. d)) construct_Lz)
             (fun d => {| rs_yo := construct_Lz_init construct_Lz yo;
                          rs_to := rd t 0;
                          rs_result := save_result dim yo result 0 false;
                          rs_roff := dim |})).
    + done.
    + intros d s. by apply save_result_take.
    + done.
  - apply (interrupt_contract_macro rs_roff rs_result rs_yo
             (fun d => symplec4_interval drift kick dim d
                         (to_long ((rd t 1 -. rd t 0) /. d)) construct_Lz)
             (fun d => {| rs_yo := construct_Lz_init construct_Lz yo;
                          rs_to := rd t 0;
                          rs_result := save_result dim yo result 0 false;
                          rs_roff := dim |})).
    + done.
    + intros d s. by apply save_result_take.
    + done.
  - apply (interrupt_contract_macro r6_roff r6_result r6_yo
             (fun d => symplec6_interval func dim d
                         (to_long ((rd t 1 -. rd t 0) /. d)))
             (fun d =>
                let qp := symplec6_copy_yo dim yo (malloc dim) (malloc dim) in
                {| r6_yo := yo;
                   r6_s := {| s6_qo := qp.1; s6_po := qp.2;
                              s6_q12 := malloc dim; s6_p12 := malloc dim;
                              s6_a := malloc dim; s6_to := rd t 0 |};
                   r6_result := save_qp dim qp.1 qp.2 result 0;
                   r6_roff := 2 * dim |})).
    + done.
    + intros d s. by apply save_qp_take.
    + done.
Qed.

End Cancellation.

(** ** The first output block *)

Section FirstBlock.
Context {F : Type} {A : Arith F}.

Lemma rd_take (l : list F) (n i : nat) : i < n -> rd (take n l) i = rd l i.
Proof. intros Hi. unfold rd. by rewrite lookup_take_lt. Qed.

Lemma for_loop_pair {X Y : Type} (n : nat) (f : nat -> X -> X)
    (g : nat -> Y -> Y) (x : X) (y : Y) :
  for_loop 0 n (fun ii xy => (f ii xy.1, g ii xy.2)) (x, y)
  = (for_loop 0 n f x, for_loop 0 n g y).
Proof.
  induction n as [|n IH]; [by rewrite !for_loop_empty|].
  rewrite !for_loop_snoc by lia. by rewrite IH.
Qed.

Lemma symplec6_copy_yo_fill dim (yo qo po : list F) :
  symplec6_copy_yo dim yo qo po
  = (fill dim 0 (rd yo) qo, fill dim 0 (fun ii => rd yo (dim + ii)) po).
Proof.
  apply (for_loop_pair dim (fun ii q => <[ii := rd yo ii]> q)
           (fun ii p => <[ii := rd yo (dim + ii)]> p)).
Qed.

Lemma malloc_length (n : nat) : length (malloc n : list F) = n.
Proof. apply length_replicate. Qed.

(** Every call that returns went through some number of whole intervals. *)
Lemma macro_form_outcome {S D : Type} (res yoP : S -> list F)
    (body : D -> S -> S) (init : D -> S) (choose : option D) (n : nat)
    (interrupted : bool) (sigint : nat -> bool) (r : outcome F) :
  match choose with
  | None => None
  | Some d =>
      let m := macro_loop n 0 sigint (body d) 0%Z interrupted (init d) in
      Some {| out_yo := yoP m.1.1; out_result := res m.1.1;
              out_err := m.1.2; out_interrupted := m.2 |}
  end = Some r ->
  exists d k, choose = Some d /\ k <= n /\
    out_yo r = yoP (Nat.iter k (body d) (init d)) /\
    out_result r = res (Nat.iter k (body d) (init d)).
Proof.
  destruct choose as [d|]; [|discriminate]. intros [= <-].
  destruct (macro_loop_iterate (body d) sigint 0%Z n 0 interrupted (init d))
    as (k & Hk & Hit).
  exists d, k. cbn [out_yo out_result]. rewrite Hit. done.
Qed.

(** A call that returns has run all its intervals, with status [0], when no
    poll saw the flag, and otherwise the intervals before the first poll
    that saw it, with status [-10]. *)
Lemma macro_form_done {S D : Type} (res yoP : S -> list F)
    (body : D -> S -> S) (init : D -> S) (choose : option D) (n : nat)
    (interrupted : bool) (sigint : nat -> bool) (r : outcome F) :
  match choose with
  | None => None
  | Some d =>
      let m := macro_loop n 0 sigint (body d) 0%Z interrupted (init d) in
      Some {| out_yo := yoP m.1.1; out_result := res m.1.1;
              out_err := m.1.2; out_interrupted := m.2 |}
  end = Some r ->
  exists d k, choose = Some d /\
    ((out_err r = 0%Z /\ k = n /\
      forall j, j < n -> flag_read interrupted sigint j = false) \/
     (out_err r = (-10)%Z /\ k < n /\ first_seen interrupted sigint k)) /\
    out_yo r = yoP (Nat.iter k (body d) (init d)) /\
    out_result r = res (Nat.iter k (body d) (init d)).
Proof.
  destruct choose as [d|]; [|discriminate]. intros [= <-].
  cbn [out_yo out_result out_err].
  destruct (macro_loop_done (body d) sigint 0%Z n interrupted (init d))
    as [(k & Hk & Hseen & ->)|[Hnone ->]]; cbn [fst snd].
  - exists d, k. split; [done|]. split; [by right|]. done.
  - exists d, n. split; [done|]. split; [by left|]. done.
Qed.

Variables (fuel : nat) (drift : drift_fn F) (kick : kick_fn F) (func : func_fn F).
Variables (dim : nat) (yo : list F) (nt : Z) (dt : F) (t : list F).
Variables (rtol atol : F) (tol_scaling : tol_scaling_fn F) (metric : metric_fn F).
Variables (construct_Lz : bool) (result : list F).
Variables (interrupted : bool) (sigint : nat -> bool).

Lemma leapfrog_done (r : outcome F) :
  leapfrog fuel drift kick dim yo nt dt t rtol atol tol_scaling metric
    construct_Lz result interrupted sigint = Some r ->
  exists d k,
    leapfrog_dt fuel drift kick dim (construct_Lz_init construct_Lz yo)
      (rd t 1 -. rd t 0) dt t rtol atol tol_scaling metric = Some d /\
    ((out_err r = 0%Z /\ k = Z.to_nat (nt - 1) /\
      forall j, j < Z.to_nat (nt - 1) ->
        flag_read interrupted sigint j = false) \/
     (out_err r = (-10)%Z /\ k < Z.to_nat (nt - 1) /\
      first_seen interrupted sigint k)) /\
    let s := Nat.iter k
               (leapfrog_interval drift kick dim d
                  (to_long ((rd t 1 -. rd t 0) /. d)) construct_Lz)
               (drift_kick_entry dim yo t result construct_Lz) in
    out_yo r = rs_yo s /\ out_result r = rs_result s.
Proof.
  intros H.
  apply (macro_form_done rs_result rs_yo
           (fun d => leapfrog_interval drift kick dim d
                       (to_long ((rd t 1 -. rd t 0) /. d)) construct_Lz)
           (fun d => {| rs_yo := construct_Lz_init construct_Lz yo;
                        rs_to := rd t 0;
                        rs_result := save_result dim yo result 0 false;
                        rs_roff := dim |})) in H.
  exact H.
Qed.

Lemma symplec4_done (r : outcome F) :
  symplec4 fuel drift kick dim yo nt dt t rtol atol tol_scaling metric
    construct_Lz result interrupted sigint = Some r ->
  exists d k,
    symplec4_dt fuel drift kick dim (construct_Lz_init construct_Lz yo)
      (rd t 1 -. rd t 0) dt t rtol atol tol_scaling metric = Some d /\
    ((out_err r = 0%Z /\ k = Z.to_nat (nt - 1) /\
      forall j, j < Z.to_nat (nt - 1) ->
        flag_read interrupted sigint j = false) \/
     (out_err r = (-10)%Z /\ k < Z.to_nat (nt - 1) /\
      first_seen interrupted sigint k)) /\
    let s := Nat.iter k
               (symplec4_interval drift kick dim d
                  (to_long ((rd t 1 -. rd t 0) /. d)) construct_Lz)
               (drift_kick_entry dim yo t result construct_Lz) in
    out_yo r = rs_yo s /\ out_result r = rs_result s.
Proof.
  intros H.
  apply (macro_form_done rs_result rs_yo
           (fun d => symplec4_interval drift kick dim d
                       (to_long ((rd t 1 -. rd t 0) /. d)) construct_Lz)
           (fun d => {| rs_yo := construct_Lz_init construct_Lz yo;
                        rs_to := rd t 0;
                        rs_result := save_result dim yo result 0 false;
                        rs_roff := dim |})) in H.
  exact H.
Qed.

Lemma leapfrog_outcome (r : outcome F) :
  leapfrog fuel drift kick dim yo nt dt t rtol atol tol_scaling metric
    construct_Lz result interrupted sigint = Some r ->
  exists d k,
    leapfrog_dt fuel drift kick dim (construct_Lz_init construct_Lz yo)
      (rd t 1 -. rd t 0) dt t rtol atol tol_scaling metric = Some d /\
    k <= Z.to_nat (nt - 1) /\
    let s := Nat.iter k
               (leapfrog_interval drift kick dim d
                  (to_long ((rd t 1 -. rd t 0) /. d)) construct_Lz)
               (drift_kick_entry dim yo t result construct_Lz) in
    out_yo r = rs_yo s /\ out_result r = rs_result s.
Proof.
  intros H.
  apply (macro_form_outcome rs_result rs_yo
           (fun d => leapfrog_interval drift kick dim d
                       (to_long ((rd t 1 -. rd t 0) /. d)) construct_Lz)
           (fun d => {| rs_yo := construct_Lz_init construct_Lz yo;
                        rs_to := rd t 0;
                        rs_result := save_result dim yo result 0 false;
                        rs_roff := dim |})) in H.
  exact H.
Qed.

Lemma symplec4_outcome (r : outcome F) :
  symplec4 fuel drift kick dim yo nt dt t rtol atol tol_scaling metric
    construct_Lz result interrupted sigint = Some r ->
  exists d k,
    symplec4_dt fuel drift kick dim (construct_Lz_init construct_Lz yo)
      (rd t 1 -. rd t 0) dt t rtol atol tol_scaling metric = Some d /\
    k <= Z.to_nat (nt - 1) /\
    let s := Nat.iter k
               (symplec4_interval drift kick dim d
                  (to_long ((rd t 1 -. rd t 0) /. d)) construct_Lz)
               (drift_kick_entry dim yo t result construct_Lz) in
    out_yo r = rs_yo s /\ out_result r = rs_result s.
Proof.
  intros H.
  apply (macro_form_outcome rs_result rs_yo
           (fun d => symplec4_interval drift kick dim d
                       (to_long ((rd t 1 -. rd t 0) /. d)) construct_Lz)
           (fun d => {| rs_yo := construct_Lz_init construct_Lz yo;
                        rs_to := rd t 0;
                        rs_result := save_result dim yo result 0 false;
                        rs_roff := dim |})) in H.
  exact H.
Qed.

Lemma symplec6_outcome (r : outcome F) :
  symplec6 fuel func dim yo nt dt t rtol atol result interrupted sigint
  = Some r ->
  exists d k,
    k <= Z.to_nat (nt - 1) /\
    let s := Nat.iter k
               (symplec6_interval func dim d
                  (to_long ((rd t 1 -. rd t 0) /. d)))
               (symplec6_entry dim yo t result) in
    out_yo r = r6_yo s /\ out_result r = r6_result s.
Proof.
  intros H.
  apply (macro_form_outcome r6_result r6_yo
           (fun d => symplec6_interval func dim d
                       (to_long ((rd t 1 -. rd t 0) /. d)))
           (fun d => symplec6_entry dim yo t result)) in H.
  destruct H as (d & k & _ & Hk & H). by exists d, k.
Qed.

End FirstBlock.

Section SchemeFacts.
Context {F : Type} {A : Arith F}.
Variables (fuel : nat) (drift : drift_fn F) (kick : kick_fn F) (func : func_fn F).
Variables (dim : nat) (yo : list F) (nt : Z) (dt : F) (t : list F).
Variables (rtol atol : F) (tol_scaling : tol_scaling_fn F) (metric : metric_fn F).
Variables (construct_Lz : bool) (result : list F).
Variables (interrupted : bool) (sigint : nat -> bool).

(** With a step size supplied by the caller the three schemes return. *)
Lemma leapfrog_returns :
  explicit_step dt ->
  is_Some (leapfrog fuel drift kick dim yo nt dt t rtol atol tol_scaling
             metric construct_Lz result interrupted sigint).
Proof. intros H. unfold leapfrog, leapfrog_dt. rewrite H. by eexists. Qed.

Lemma symplec4_returns :
  explicit_step dt ->
  is_Some (symplec4 fuel drift kick dim yo nt dt t rtol atol tol_scaling
             metric construct_Lz result interrupted sigint).
Proof. intros H. unfold symplec4, symplec4_dt. rewrite H. by eexists. Qed.

Lemma symplec6_returns :
  explicit_step dt ->
  is_Some (symplec6 fuel func dim yo nt dt t rtol atol result interrupted
             sigint).
Proof. intros H. unfold symplec6, symplec6_dt. rewrite H. by eexists. Qed.

Lemma symplec6_interval_yo d ndt (k : nat) (s : s6_run F) :
  r6_yo (Nat.iter k (symplec6_interval func dim d ndt) s) = r6_yo s.
Proof. induction k as [|k IH]; [done|]. simpl. exact IH. Qed.

Lemma first_block_drift_kick (i : nat) :
  i < dim -> dim <= length result ->
  rd (take dim (rs_result (drift_kick_entry dim yo t result construct_Lz))) i
  = rd yo i.
Proof.
  intros Hi Hlen. rewrite rd_take by done. unfold drift_kick_entry.
  cbn [rs_result]. rewrite save_result_fill. cbn zeta.
  apply (rd_fill_in dim 0 (rd yo) result i); simpl; lia.
Qed.

Lemma first_block_symplec6 (i : nat) :
  i < 2 * dim -> 2 * dim <= length result ->
  rd (take (2 * dim) (r6_result (symplec6_entry dim yo t result))) i
  = rd yo i.
Proof.
  intros Hi Hlen. rewrite rd_take by done. unfold symplec6_entry.
  cbn [r6_result]. rewrite symplec6_copy_yo_fill. cbn [fst snd].
  rewrite save_qp_fill. unfold rd at 1.
  destruct (decide (i < dim)) as [Hlt|Hge].
  - rewrite fill_lookup_out by lia.
    rewrite (fill_lookup_in dim 0 _ result i) by (simpl; lia).
    simpl. apply (rd_fill_in dim 0 (rd yo) (malloc dim) i);
      [done | rewrite malloc_length; simpl; lia].
  - replace i with ((0 + dim) + (i - dim)) at 1 by lia.
    rewrite fill_lookup_in; [| lia | rewrite fill_length; lia].
    simpl.
    rewrite (rd_fill_in dim 0 (fun ii => rd yo (dim + ii)) (malloc dim)
               (i - dim)); [| lia | rewrite malloc_length; simpl; lia].
    f_equal. lia.
Qed.

(** C10. In each scheme the first output block holds the initial state,
    whatever the signals and the flag on entry (so also when the very first
    poll interrupts the run), and whatever [construct_Lz] is in [leapfrog]
    and [symplec4]; with a step size given by the caller the call returns. *)
Theorem first_block_is_initial_state :
  (dim <= length result ->
   (explicit_step dt ->
    is_Some (leapfrog fuel drift kick dim yo nt dt t rtol atol tol_scaling
               metric construct_Lz result interrupted sigint)) /\
   forall r,
     leapfrog fuel drift kick dim yo nt dt t rtol atol tol_scaling metric
       construct_Lz result interrupted sigint = Some r ->
     forall i, i < dim -> rd (out_result r) i = rd yo i) /\
  (dim <= length result ->
   (explicit_step dt ->
    is_Some (symplec4 fuel drift kick dim yo nt dt t rtol atol tol_scaling
               metric construct_Lz result interrupted sigint)) /\
   forall r,
     symplec4 fuel drift kick dim yo nt dt t rtol atol tol_scaling metric
       construct_Lz result interrupted sigint = Some r ->
     forall i, i < dim -> rd (out_result r) i = rd yo i) /\
  (2 * dim <= length result ->
   (explicit_step dt ->
    is_Some (symplec6 fuel func dim yo nt dt t rtol atol result interrupted
               sigint)) /\
   forall r,
     symplec6 fuel func dim yo nt dt t rtol atol result interrupted sigint
     = Some r ->
     forall i, i < 2 * dim -> rd (out_result r) i = rd yo i).
Proof.
  split; [|split]; intros Hlen; (split; [intros Hdt|intros r Hr i Hi]).
  - by apply leapfrog_returns.
  - apply leapfrog_outcome in Hr as (d & k & _ & _ & _ & Hres).
    rewrite <- (rd_take _ dim) by done. rewrite Hres.
    rewrite (prefix_iter rs_roff rs_result _ dim); [| done | | done].
    + by apply first_block_drift_kick.
    + intros s. by apply save_result_take.
  - by apply symplec4_returns.
  - apply symplec4_outcome in Hr as (d & k & _ & _ & _ & Hres).
    rewrite <- (rd_take _ dim) by done. rewrite Hres.
    rewrite (prefix_iter rs_roff rs_result _ dim); [| done | | done].
    + by apply first_block_drift_kick.
    + intros s. by apply save_result_take.
  - by apply symplec6_returns.
  - apply symplec6_outcome in Hr as (d & k & _ & _ & Hres).
    rewrite <- (rd_take _ (2 * dim)) by done. rewrite Hres.
    rewrite (prefix_iter r6_roff r6_result _ (2 * dim)); [| done | | done].
    + by apply first_block_symplec6.
    + intros s. by apply save_qp_take.
Qed.

End SchemeFacts.

(** ** The caller's state vector and the cylindrical transform *)

Section MacroLoopRel.
Context {S S' : Type} (R : S -> S' -> Prop) (body : S -> S) (body' : S' -> S').
Hypothesis Hbody : forall s s', R s s' -> R (body s) (body' s').

(** Two loops that poll the same flag and whose bodies keep two states
    related stop at the same poll, with related states. *)
Lemma macro_loop_rel (sigint : nat -> bool) (err : Z) (n : nat) :
  forall (ii : nat) (fl : bool) (s : S) (s' : S'),
    R s s' ->
    let m := macro_loop n ii sigint body err fl s in
    let m' := macro_loop n ii sigint body' err fl s' in
    R m.1.1 m'.1.1 /\ m.1.2 = m'.1.2 /\ m.2 = m'.2.
Proof using Hbody.
  induction n as [|n IH]; intros ii fl s s' Hs; cbn [macro_loop]; [done|].
  destruct (fl || sigint ii); [done|]. apply IH. by apply Hbody.
Qed.

End MacroLoopRel.

Section SavedBlock.
Context {F : Type} {A : Arith F}.
Variables (dim : nat) (construct_Lz : bool) (step : run_state F -> run_state F).
Hypothesis Hroff : forall s, rs_roff (step s) = rs_roff s + dim.
Hypothesis Hsave :
  forall s, rs_result (step s)
            = save_result dim (rs_yo (step s)) (rs_result s) (rs_roff s)
                construct_Lz.

Lemma save_result_length (yo result : list F) (roff : nat) (c : bool) :
  length (save_result dim yo result roff c) = length result.
Proof.
  rewrite save_result_fill. cbn zeta.
  destruct c; [rewrite length_insert|]; apply fill_length.
Qed.

Lemma save_result_rd (yo result : list F) (roff i : nat) (c : bool) :
  i < dim -> roff + i < length result -> c = false \/ i <> 2 ->
  rd (save_result dim yo result roff c) (roff + i) = rd yo i.
Proof.
  intros Hi Hlen Hc. rewrite save_result_fill. cbn zeta.
  destruct c.
  - destruct Hc as [|Hne]; [done|]. unfold rd at 1.
    rewrite list_lookup_insert_ne by lia.
    by rewrite fill_lookup_in.
  - by apply rd_fill_in.
Qed.

Lemma step_result_length (k : nat) (s : run_state F) :
  length (rs_result (Nat.iter k step s)) = length (rs_result s).
Proof using Hsave.
  induction k as [|k IH]; [done|]. simpl.
  by rewrite Hsave, save_result_length.
Qed.

(** After [k >= 1] intervals the block written last holds the current
    state, except for the component that the transform divides. *)
Lemma last_block_is_state (k : nat) (s : run_state F) (i : nat) :
  1 <= k -> rs_roff s + k * dim <= length (rs_result s) ->
  i < dim -> construct_Lz = false \/ i <> 2 ->
  rd (rs_result (Nat.iter k step s)) (rs_roff s + (k - 1) * dim + i)
  = rd (rs_yo (Nat.iter k step s)) i.
Proof using Hroff Hsave.
  intros Hk Hlen Hi Hc. destruct k as [|k]; [lia|]. simpl.
  rewrite Hsave.
  replace (rs_roff s + (k - 0) * dim + i)
    with (rs_roff (Nat.iter k step s) + i)
    by (rewrite (roff_iter rs_roff step dim Hroff); lia).
  apply save_result_rd; [done | | done].
  rewrite step_result_length, (roff_iter rs_roff step dim Hroff). lia.
Qed.

End SavedBlock.

Section CallerState.
Context {F : Type} {A : Arith F}.
Variables (fuel : nat) (drift : drift_fn F) (kick : kick_fn F) (func : func_fn F).
Variables (dim : nat) (yo : list F) (nt : Z) (dt : F) (t : list F).
Variables (rtol atol : F) (tol_scaling : tol_scaling_fn F) (metric : metric_fn F).
Variables (construct_Lz : bool) (result : list F).
Variables (interrupted : bool) (sigint : nat -> bool).

(** C9. [symplec6] returns with the caller's [yo] unchanged.  [leapfrog] and
    [symplec4] integrate the caller's [yo] in place: they return with [yo]
    holding the state after the intervals they completed, with the step [d]
    that was given or searched, starting from [yo] with its third component
    multiplied by its first when [construct_Lz] is set.  The intervals
    completed are all [nt - 1] of them, with status [0], when no poll saw
    the flag, and those before the first poll that saw it, with status
    [-10], otherwise.  After at least one interval this state is what the
    last written output block holds, up to the component that the transform
    divides. *)
Theorem caller_state_on_return :
  (forall r,
     symplec6 fuel func dim yo nt dt t rtol atol result interrupted sigint
     = Some r ->
     out_yo r = yo) /\
  (forall r,
     leapfrog fuel drift kick dim yo nt dt t rtol atol tol_scaling metric
       construct_Lz result interrupted sigint = Some r ->
     exists d k,
       leapfrog_dt fuel drift kick dim (construct_Lz_init construct_Lz yo)
         (rd t 1 -. rd t 0) dt t rtol atol tol_scaling metric = Some d /\
       ((out_err r = 0%Z /\ k = Z.to_nat (nt - 1) /\
         forall j, j < Z.to_nat (nt - 1) ->
           flag_read interrupted sigint j = false) \/
        (out_err r = (-10)%Z /\ k < Z.to_nat (nt - 1) /\
         first_seen interrupted sigint k)) /\
       out_yo r
       = rs_yo (Nat.iter k
                  (leapfrog_interval drift kick dim d
                     (to_long ((rd t 1 -. rd t 0) /. d)) construct_Lz)
                  (drift_kick_entry dim yo t result construct_Lz)) /\
       (1 <= k -> (k + 1) * dim <= length result ->
        forall i, i < dim -> construct_Lz = false \/ i <> 2 ->
          rd (out_result r) (k * dim + i) = rd (out_yo r) i)) /\
  (forall r,
     symplec4 fuel drift kick dim yo nt dt t rtol atol tol_scaling metric
       construct_Lz result interrupted sigint = Some r ->
     exists d k,
       symplec4_dt fuel drift kick dim (construct_Lz_init construct_Lz yo)
         (rd t 1 -. rd t 0) dt t rtol atol tol_scaling metric = Some d /\
       ((out_err r = 0%Z /\ k = Z.to_nat (nt - 1) /\
         forall j, j < Z.to_nat (nt - 1) ->
           flag_read interrupted sigint j = false) \/
        (out_err r = (-10)%Z /\ k < Z.to_nat (nt - 1) /\
         first_seen interrupted sigint k)) /\
       out_yo r
       = rs_yo (Nat.iter k
                  (symplec4_interval drift kick dim d
                     (to_long ((rd t 1 -. rd t 0) /. d)) construct_Lz)
                  (drift_kick_entry dim yo t result construct_Lz)) /\
       (1 <= k -> (k + 1) * dim <= length result ->
        forall i, i < dim -> construct_Lz = false \/ i <> 2 ->
          rd (out_result r) (k * dim + i) = rd (out_yo r) i)) /\
  rs_yo (drift_kick_entry dim yo t result true)
  = <[2 := (rd yo 2 *. rd yo 0)%dbl]> yo /\
  rs_yo (drift_kick_entry dim yo t result false) = yo.
Proof.
  split; [|split; [|split; [|done]]].
  - intros r Hr. apply symplec6_outcome in Hr as (d & k & _ & Hyo & _).
    rewrite Hyo. by rewrite symplec6_interval_yo.
  - intros r Hr.
    apply leapfrog_done in Hr as (d & k & Hd & Hk & Hyo & Hres).
    exists d, k. split; [done|]. split; [done|]. split; [done|].
    intros Hk1 Hlen i Hi Hc. rewrite Hyo, Hres.
    replace (k * dim + i) with
      (rs_roff (drift_kick_entry dim yo t result construct_Lz)
       + (k - 1) * dim + i) by (cbn [drift_kick_entry rs_roff]; nia).
    apply (last_block_is_state dim construct_Lz); try done.
    cbn [drift_kick_entry rs_roff rs_result].
    rewrite save_result_length. lia.
  - intros r Hr.
    apply symplec4_done in Hr as (d & k & Hd & Hk & Hyo & Hres).
    exists d, k. split; [done|]. split; [done|]. split; [done|].
    intros Hk1 Hlen i Hi Hc. rewrite Hyo, Hres.
    replace (k * dim + i) with
      (rs_roff (drift_kick_entry dim yo t result construct_Lz)
       + (k - 1) * dim + i) by (cbn [drift_kick_entry rs_roff]; nia).
    apply (last_block_is_state dim construct_Lz); try done.
    cbn [drift_kick_entry rs_roff rs_result].
    rewrite save_result_length. lia.
Qed.

Lemma leapfrog_interval_motion d ndt c c' (s s' : run_state F) :
  same_motion s s' ->
  same_motion (leapfrog_interval drift kick dim d ndt c s)
              (leapfrog_interval drift kick dim d ndt c' s').
Proof.
  intros [Hy Ht]. unfold same_motion, leapfrog_interval.
  cbn [rs_yo rs_to]. by rewrite Hy, Ht.
Qed.

Lemma symplec4_interval_motion d ndt c c' (s s' : run_state F) :
  same_motion s s' ->
  same_motion (symplec4_interval drift kick dim d ndt c s)
              (symplec4_interval drift kick dim d ndt c' s').
Proof.
  intros [Hy Ht]. unfold same_motion, symplec4_interval.
  cbn [rs_yo rs_to]. by rewrite Hy, Ht.
Qed.

(** C5. With [construct_Lz] set, the division of the third component by the
    first is made in the output buffer, on the block just copied there; and
    the state that [leapfrog] and [symplec4] integrate is never divided: on
    return (with any number of output times, hence after any number of
    intervals) it is the state of a call with the transform switched off
    that starts from the state as constructed on entry. *)
Theorem transform_only_on_saved_copy :
  (forall (y buf : list F) (roff : nat),
     save_result dim y buf roff true
     = <[roff + 2 := (rd (save_result dim y buf roff false) (roff + 2)
                      /. rd (save_result dim y buf roff false) roff)%dbl]>
         (save_result dim y buf roff false)) /\
  (forall result' : list F,
     state_on_return <$>
       leapfrog fuel drift kick dim yo nt dt t rtol atol tol_scaling metric
         true result interrupted sigint
     = state_on_return <$>
         leapfrog fuel drift kick dim (construct_Lz_init true yo) nt dt t
           rtol atol tol_scaling metric false result' interrupted sigint) /\
  (forall result' : list F,
     state_on_return <$>
       symplec4 fuel drift kick dim yo nt dt t rtol atol tol_scaling metric
         true result interrupted sigint
     = state_on_return <$>
         symplec4 fuel drift kick dim (construct_Lz_init true yo) nt dt t
           rtol atol tol_scaling metric false result' interrupted sigint).
Proof.
  split; [done|]. split; intros result'.
  - unfold leapfrog. cbn [construct_Lz_init].
    destruct (leapfrog_dt _ _ _ _ _ _ _ _ _ _ _ _) as [d|]; [|done].
    cbn zeta. unfold state_on_return. cbn [fmap option_fmap option_map
      out_yo out_err out_interrupted].
    match goal with
    | |- context [macro_loop ?n 0 sigint ?b 0%Z interrupted ?s] =>
        match goal with
        | |- context [macro_loop n 0 sigint ?b' 0%Z interrupted ?s'] =>
            lazymatch b' with
            | b => fail
            | _ =>
                destruct (macro_loop_rel same_motion b b'
                            ltac:(intros; by apply leapfrog_interval_motion)
                            sigint 0%Z n 0 interrupted s s' ltac:(done))
                  as ([Hy _] & He & Hf)
            end
        end
    end.
    by rewrite Hy, He, Hf.
  - unfold symplec4. cbn [construct_Lz_init].
    destruct (symplec4_dt _ _ _ _ _ _ _ _ _ _ _ _) as [d|]; [|done].
    cbn zeta. unfold state_on_return. cbn [fmap option_fmap option_map
      out_yo out_err out_interrupted].
    match goal with
    | |- context [macro_loop ?n 0 sigint ?b 0%Z interrupted ?s] =>
        match goal with
        | |- context [macro_loop n 0 sigint ?b' 0%Z interrupted ?s'] =>
            lazymatch b' with
            | b => fail
            | _ =>
                destruct (macro_loop_rel same_motion b b'
                            ltac:(intros; by apply symplec4_interval_motion)
                            sigint 0%Z n 0 interrupted s s' ltac:(done))
                  as ([Hy _] & He & Hf)
            end
        end
    end.
    by rewrite Hy, He, Hf.
Qed.

End CallerState.

(** ** The leapfrog interval *)

Section LeapfrogInterval.
Context {F : Type} {A : Arith F}.
Variables (drift : drift_fn F) (kick : kick_fn F) (dim : nat) (dt : F).

Lemma lf_middle_snoc (m : nat) :
  lf_middle (Datatypes.S m) = lf_middle m ++ [KickMid m; FullDrift].
Proof. unfold lf_middle. by rewrite seq_S, flat_map_app. Qed.

Lemma lf_run_app (to : F) (ops ops' : list lf_op) (y : list F) :
  lf_run drift kick dt to (ops ++ ops') y
  = lf_run drift kick dt to ops' (lf_run drift kick dt to ops y).
Proof. apply fold_left_app. Qed.

Lemma leapfrog_substeps_spec (m : nat) (y : list F) (to : F) :
  for_loop 0 m
    (fun _ s => (drift dt (kick dt (s.2 +. dt /. lit 2) s.1), s.2 +. dt))
    (y, to)
  = (lf_run drift kick dt to (lf_middle m) y, substep_time dt to m).
Proof.
  induction m as [|m IH]; [by rewrite for_loop_empty|].
  rewrite for_loop_snoc by lia. rewrite IH, lf_middle_snoc, lf_run_app.
  reflexivity.
Qed.

Lemma kick_count_middle (m : nat) : kick_count (lf_middle m) = m.
Proof.
  induction m as [|m IH]; [done|].
  rewrite lf_middle_snoc. unfold kick_count in IH |- * .
  rewrite map_app, list_sum_app, IH. simpl. lia.
Qed.

Lemma drift_halves_middle (m : nat) : drift_halves (lf_middle m) = 2 * m.
Proof.
  induction m as [|m IH]; [done|].
  rewrite lf_middle_snoc. unfold drift_halves in IH |- * .
  rewrite map_app, list_sum_app, IH. simpl. lia.
Qed.

(** C6. With [ndt >= 1] sub-steps, one macro interval of [leapfrog] applies
    to the state exactly a half drift, then [ndt - 1] times a kick of [dt] at
    the midpoint of the sub-step and a full drift, then a last kick and a
    half drift: [ndt] kicks and a drift time of [2 * ndt] halves of [dt];
    the running time has advanced by [ndt] steps of [dt]; the state reached
    is then written at the current block of the output buffer.  A call
    without signals is [nt - 1] such intervals with
    [ndt = (long) (init_dt / dt)]. *)
Theorem leapfrog_interval_is_drift_kick_drift (ndt : Z) (construct_Lz : bool)
    (s : run_state F) :
  (1 <= ndt)%Z ->
  let n := Z.to_nat ndt in
  let s' := leapfrog_interval drift kick dim dt ndt construct_Lz s in
  rs_yo s'
  = lf_run drift kick dt (rs_to s) (leapfrog_interval_spec n) (rs_yo s) /\
  kick_count (leapfrog_interval_spec n) = n /\
  drift_halves (leapfrog_interval_spec n) = 2 * n /\
  rs_to s' = substep_time dt (rs_to s) n /\
  rs_result s'
  = save_result dim (rs_yo s') (rs_result s) (rs_roff s) construct_Lz /\
  rs_roff s' = rs_roff s + dim /\
  forall fuel yo nt t rtol atol tol_scaling metric result r,
    leapfrog fuel drift kick dim yo nt dt t rtol atol tol_scaling metric
      construct_Lz result false quiet = Some r ->
    exists d,
      leapfrog_dt fuel drift kick dim (construct_Lz_init construct_Lz yo)
        (rd t 1 -. rd t 0) dt t rtol atol tol_scaling metric = Some d /\
      let final :=
        Nat.iter (Z.to_nat (nt - 1))
          (leapfrog_interval drift kick dim d
             (to_long ((rd t 1 -. rd t 0) /. d)) construct_Lz)
          (drift_kick_entry dim yo t result construct_Lz) in
      out_yo r = rs_yo final /\ out_result r = rs_result final.
Proof.
  intros Hndt n s'. subst s'.
  assert (Hm : Z.to_nat (ndt - 1) = n - 1) by (subst n; lia).
  assert (Hn : n = Datatypes.S (n - 1)) by (subst n; lia).
  repeat split.
  - unfold leapfrog_interval, leapfrog_substeps. cbn [rs_yo].
    rewrite Hm, leapfrog_substeps_spec. cbn [fst snd].
    unfold leapfrog_interval_spec. by rewrite !lf_run_app.
  - unfold leapfrog_interval_spec, kick_count.
    rewrite !map_app, !list_sum_app.
    fold (kick_count (lf_middle (n - 1))). rewrite kick_count_middle.
    simpl. lia.
  - unfold leapfrog_interval_spec, drift_halves.
    rewrite !map_app, !list_sum_app.
    fold (drift_halves (lf_middle (n - 1))). rewrite drift_halves_middle.
    simpl. lia.
  - unfold leapfrog_interval, leapfrog_substeps. cbn [rs_to].
    rewrite Hm, leapfrog_substeps_spec. cbn [fst snd].
    rewrite Hn at 2. reflexivity.
  - intros fuel yo nt t rtol atol tol_scaling metric result r Hr.
    unfold leapfrog in Hr.
    destruct (leapfrog_dt _ _ _ _ _ _ _ _ _ _ _ _) as [d|]; [|done].
    exists d. split; [done|]. cbn zeta in Hr.
    rewrite macro_loop_quiet in Hr. by injection Hr as <-.
Qed.

End LeapfrogInterval.

(** ** The tolerance and the error of the searches of [leapfrog] and
    [symplec4] *)

Section Tolerance.
Context {F : Type} {A : Arith F}.

Lemma estimate_scale2_rd (dim : nat) (rtol atol : F) (scaling : list F)
    (i : nat) :
  i < dim ->
  rd (estimate_scale2 dim rtol atol scaling) i
  = (c_pow (c_exp atol +. c_exp rtol *. rd scaling i) 2)%dbl.
Proof.
  intros Hi.
  apply (rd_fill_in dim 0
           (fun ii => (c_pow (c_exp atol +. c_exp rtol *. rd scaling ii) 2)%dbl)
           (malloc dim) i Hi).
  rewrite malloc_length. simpl. lia.
Qed.

(** C2, as the code has it. The tolerance of component [i] that normalises
    the error in the searches of [leapfrog] and [symplec4] is
    [exp(atol) + exp(rtol) * scaling_i], with [scaling] the output of
    [tol_scaling] on the initial state: [atol] and [rtol] are taken as
    logarithms.  Its square divides [delta_i * delta_i] in the error sum. *)
Theorem tolerance_is_exponentiated (drift : drift_fn F) (kick : kick_fn F)
    (dim : nat) (yo : list F) (dt : F) (t : list F) (rtol atol : F)
    (tol_scaling : tol_scaling_fn F) (metric : metric_fn F) (i : nat) :
  i < dim ->
  let scale2 := estimate_scale2 dim rtol atol (tol_scaling yo) in
  rd scale2 i
  = (c_pow (c_exp atol +. c_exp rtol *. rd (tol_scaling yo) i) 2)%dbl /\
  (forall fuel,
     leapfrog_estimate_step fuel drift kick dim yo dt t rtol atol tol_scaling
       metric
     = ss_dt <$> while_fuel fuel
                   (fun s => search_cond dt (ss_dt s) (ss_err s))
                   (leapfrog_search_body drift kick dim yo metric scale2)
                   (leapfrog_search_init dim dt t)) /\
  (forall fuel,
     symplec4_estimate_step fuel drift kick dim yo dt t rtol atol tol_scaling
       metric
     = ss_dt <$> while_fuel fuel
                   (fun s => search_cond dt (ss_dt s) (ss_err s))
                   (symplec4_search_body drift kick dim yo t metric scale2)
                   (symplec4_search_init dim dt)) /\
  (forall delta err n,
     n < dim ->
     sum_sq_err (Datatypes.S n) delta scale2 err
     = (sum_sq_err n delta scale2 err
        +. rd delta n *. rd delta n
           /. c_pow (c_exp atol +. c_exp rtol *. rd (tol_scaling yo) n) 2)%dbl).
Proof.
  intros Hi scale2. split; [by apply estimate_scale2_rd|].
  split; [intros fuel; unfold leapfrog_estimate_step;
          by destruct (while_fuel _ _ _ _)|].
  split; [intros fuel; unfold symplec4_estimate_step;
          by destruct (while_fuel _ _ _ _)|].
  intros delta err n Hn. unfold sum_sq_err.
  rewrite for_loop_snoc by lia. subst scale2.
  by rewrite estimate_scale2_rd.
Qed.

(** In [leapfrog_estimate_step] the error of a pass starts from zero; in
    [symplec4_estimate_step] it starts from the error of the pass before,
    and from 2 in the first pass. *)
Lemma leapfrog_err_fresh (drift : drift_fn F) (kick : kick_fn F) (dim : nat)
    (yo : list F) (metric : metric_fn F) (scale2 : list F)
    (s : search_state F) :
  let y := leapfrog_trial drift kick dim yo (ss_to s) (ss_dt s /. lit 2)
             (ss_y11 s) (ss_y12 s) in
  ss_err (leapfrog_search_body drift kick dim yo metric scale2 s)
  = c_sqrt (sum_sq_err dim (metric dim y.1 y.2) scale2 (lit 0)
            /. of_int (Z.of_nat dim)).
Proof. reflexivity. Qed.

Lemma symplec4_err_carried (drift : drift_fn F) (kick : kick_fn F)
    (dim : nat) (yo t : list F) (metric : metric_fn F) (scale2 : list F)
    (s : search_state F) :
  let y := symplec4_trial drift kick dim yo t (ss_dt s /. lit 2)
             (ss_y11 s) (ss_y12 s) in
  ss_err (symplec4_search_body drift kick dim yo t metric scale2 s)
  = c_sqrt (sum_sq_err dim (metric dim y.1.1 y.1.2) scale2 (ss_err s)
            /. of_int (Z.of_nat dim)).
Proof. reflexivity. Qed.

End Tolerance.

(** ** The step-size searches *)

Section WhileFacts.
Context {S : Type} (cond : S -> bool) (body : S -> S).

Lemma while_fuel_exit (k : nat) :
  forall (fuel : nat) (s : S),
    k <= fuel ->
    (forall j, j < k -> cond (Nat.iter j body s) = true) ->
    cond (Nat.iter k body s) = false ->
    while_fuel fuel cond body s = Some (Nat.iter k body s).
Proof.
  induction k as [|k IH]; intros fuel s Hfuel Hbefore Hat.
  - simpl in Hat. destruct fuel; simpl; by rewrite Hat.
  - destruct fuel as [|fuel]; [lia|]. cbn [while_fuel].
    pose proof (Hbefore 0 ltac:(lia)) as H0. simpl in H0. rewrite H0.
    rewrite Nat.iter_succ_r.
    apply IH; [lia | | by rewrite <- Nat.iter_succ_r].
    intros j Hj. rewrite <- Nat.iter_succ_r. apply Hbefore. lia.
Qed.

(** Whatever the arithmetic: a loop that returns has run its body some [k]
    times, the condition failing then for the first time. *)
Lemma while_fuel_result (fuel : nat) :
  forall (s s' : S),
    while_fuel fuel cond body s = Some s' ->
    exists k, k <= fuel /\ s' = Nat.iter k body s /\ cond s' = false /\
              forall j, j < k -> cond (Nat.iter j body s) = true.
Proof.
  induction fuel as [|fuel IH]; intros s s' H; cbn [while_fuel] in H.
  - destruct (cond s) eqn:Hs; [done|]. injection H as <-.
    exists 0. split; [lia|]. split; [done|]. split; [done|]. intros j Hj. lia.
  - destruct (cond s) eqn:Hs.
    + destruct (IH _ _ H) as (k & Hk & -> & Hat & Hbefore).
      exists (Datatypes.S k). rewrite Nat.iter_succ_r.
      split; [lia|]. split; [done|]. split; [done|].
      intros [|j] Hj; [done|]. rewrite Nat.iter_succ_r. apply Hbefore. lia.
    + injection H as <-.
      exists 0. split; [lia|]. split; [done|]. split; [done|].
      intros j Hj. lia.
Qed.

Lemma exit_or_not (s : S) (n : nat) :
  (exists k, k <= n /\ cond (Nat.iter k body s) = false /\
             forall j, j < k -> cond (Nat.iter j body s) = true) \/
  (forall j, j <= n -> cond (Nat.iter j body s) = true).
Proof.
  induction n as [|n [(k & Hk & Hat & Hbefore)|Hall]].
  - destruct (cond s) eqn:Hs.
    + right. intros j Hj. by replace j with 0 by lia.
    + left. exists 0. split; [lia|]. split; [done|]. intros j Hj. lia.
  - left. exists k. split; [lia|]. done.
  - destruct (cond (Nat.iter (Datatypes.S n) body s)) eqn:Hs.
    + right. intros j Hj. destruct (decide (j = Datatypes.S n)) as [->|Hne];
        [done | apply Hall; lia].
    + left. exists (Datatypes.S n). split; [lia|]. split; [done|].
      intros j Hj. apply Hall. lia.
Qed.

Lemma first_exit (s : S) (n : nat) :
  cond (Nat.iter n body s) = false ->
  exists k, k <= n /\ cond (Nat.iter k body s) = false /\
            forall j, j < k -> cond (Nat.iter j body s) = true.
Proof.
  intros Hn. destruct (exit_or_not s n) as [H|Hall]; [done|].
  rewrite Hall in Hn by lia. done.
Qed.

End WhileFacts.

Section RealSearch.
Local Open Scope R_scope.

Lemma powerRZ_2 (x : R) : powerRZ x 2 = x * x.
Proof. simpl. ring. Qed.

Lemma lit_0 : lit 0 = 0.
Proof. cbn. unfold Q2R. simpl. lra. Qed.

Lemma lit_1 : lit 1 = 1.
Proof. cbn. unfold Q2R. simpl. lra. Qed.

Lemma lit_2 : lit 2 = 2.
Proof. cbn. unfold Q2R. simpl. lra. Qed.

Lemma lit_10000 : lit 10000 = 10000.
Proof. cbn. unfold Q2R. simpl. lra. Qed.

Lemma R_ltb_true (x y : R) : R_ltb x y = true <-> x < y.
Proof. unfold R_ltb. destruct (Rlt_dec x y); split; done. Qed.

Lemma R_ltb_false (x y : R) : R_ltb x y = false <-> y <= x.
Proof. unfold R_ltb. destruct (Rlt_dec x y); split; try done; lra. Qed.

Lemma search_cond_true (init_dt dt err : R) :
  search_cond init_dt dt err = true <-> 1 < err /\ init_dt / dt < 10000.
Proof.
  unfold search_cond, _MAX_DT_REDUCE. cbn [flt fdiv R_arith].
  rewrite andb_true_iff, !R_ltb_true, lit_1, lit_10000. done.
Qed.

Lemma search_cond_false (init_dt dt err : R) :
  search_cond init_dt dt err = false <-> err <= 1 \/ 10000 <= init_dt / dt.
Proof.
  unfold search_cond, _MAX_DT_REDUCE. cbn [flt fdiv R_arith].
  rewrite andb_false_iff, !R_ltb_false, lit_1, lit_10000. done.
Qed.

Lemma pow2_pos (j : nat) : 0 < 2 ^ j.
Proof. apply pow_lt. lra. Qed.

Lemma pow2_le (j k : nat) : (j <= k)%nat -> 2 ^ j <= 2 ^ k.
Proof. intros H. apply Rle_pow; [lra | done]. Qed.

Context {S : Type} (dt_of err_of : S -> R) (body : S -> S) (s0 : S).
Variable init_dt : R.
Hypothesis Hbody : forall s, dt_of (body s) = (dt_of s /. lit 2)%dbl.
Hypothesis Hdt0 : dt_of s0 = (init_dt *. lit 2)%dbl.
Hypothesis Herr0 : err_of s0 = lit 2.
Hypothesis Hinit : init_dt <> 0.

Lemma halving_dt (j : nat) : dt_of (Nat.iter j body s0) = init_dt * 2 / 2 ^ j.
Proof using Hbody Hdt0.
  induction j as [|j IH].
  - simpl. rewrite Hdt0. cbn [fmul R_arith]. rewrite lit_2. lra.
  - rewrite Nat.iter_succ, Hbody, IH. cbn [fdiv R_arith]. rewrite lit_2.
    simpl. pose proof (pow2_pos j). field. lra.
Qed.

Lemma halving_ratio (j : nat) :
  init_dt / dt_of (Nat.iter j body s0) = 2 ^ j / 2.
Proof using Hbody Hdt0 Hinit.
  rewrite halving_dt. pose proof (pow2_pos j). field. split; lra.
Qed.

Lemma halving_search :
  halving_search_contract
    (fun fuel =>
       match while_fuel fuel
               (fun s => search_cond init_dt (dt_of s) (err_of s)) body s0 with
       | Some s => Some (dt_of s)
       | None => None
       end)
    init_dt
    (fun j => dt_of (Nat.iter j body s0))
    (fun j => err_of (Nat.iter j body s0)).
Proof using Hbody Hdt0 Herr0 Hinit.
  split; [simpl; rewrite Hdt0; cbn [fmul R_arith]; by rewrite lit_2|].
  split; [intros j; rewrite Nat.iter_succ, Hbody; cbn [fdiv R_arith];
          by rewrite lit_2|].
  set (cond := fun s => search_cond init_dt (dt_of s) (err_of s)).
  assert (H15 : cond (Nat.iter 15 body s0) = false).
  { apply search_cond_false. right. rewrite halving_ratio. simpl. lra. }
  destruct (first_exit cond body s0 15 H15) as (k & Hk & Hat & Hbefore).
  assert (H0 : cond s0 = true).
  { apply search_cond_true. rewrite Herr0, lit_2.
    split; [lra|]. pose proof (halving_ratio 0) as Hr. simpl in Hr.
    rewrite Hr. lra. }
  assert (Hk1 : (1 <= k)%nat).
  { destruct k; [|lia]. simpl in Hat. congruence. }
  exists k. split; [lia|]. split; [|split; [|split]].
  - intros fuel Hfuel.
    rewrite (while_fuel_exit cond body k fuel s0) by (done || lia).
    by rewrite halving_dt.
  - apply halving_dt.
  - by apply search_cond_false.
  - intros j Hj. apply search_cond_true. by apply Hbefore.
Qed.

End RealSearch.

Section ThreeSearches.
Variables (drift : drift_fn R) (kick : kick_fn R) (func : func_fn R).
Variables (dim : nat) (yo qo po : list R) (init_dt : R) (t : list R).
Variables (rtol atol : R) (tol_scaling : tol_scaling_fn R).
Variable metric : metric_fn R.
Hypothesis Hinit : init_dt <> 0%R.

Lemma leapfrog_halving :
  halving_search_contract
    (fun fuel => leapfrog_estimate_step fuel drift kick dim yo init_dt t rtol
                   atol tol_scaling metric)
    init_dt
    (fun j => ss_dt (leapfrog_search_state drift kick dim yo init_dt t rtol
                       atol tol_scaling metric j))
    (fun j => ss_err (leapfrog_search_state drift kick dim yo init_dt t rtol
                        atol tol_scaling metric j)).
Proof using Hinit.
  apply (halving_search ss_dt ss_err
           (leapfrog_search_body drift kick dim yo metric
              (estimate_scale2 dim rtol atol (tol_scaling yo)))
           (leapfrog_search_init dim init_dt t) init_dt); done.
Qed.

Lemma symplec4_halving :
  halving_search_contract
    (fun fuel => symplec4_estimate_step fuel drift kick dim yo init_dt t rtol
                   atol tol_scaling metric)
    init_dt
    (fun j => ss_dt (symplec4_search_state drift kick dim yo init_dt t rtol
                       atol tol_scaling metric j))
    (fun j => ss_err (symplec4_search_state drift kick dim yo init_dt t rtol
                        atol tol_scaling metric j)).
Proof using Hinit.
  apply (halving_search ss_dt ss_err
           (symplec4_search_body drift kick dim yo t metric
              (estimate_scale2 dim rtol atol (tol_scaling yo)))
           (symplec4_search_init dim init_dt) init_dt); done.
Qed.

Lemma symplec6_halving :
  halving_search_contract
    (fun fuel => symplec6_estimate_step fuel func dim qo po init_dt t rtol
                   atol)
    init_dt
    (fun j => e6_dt (symplec6_search_state func dim qo po init_dt t rtol
                       atol j))
    (fun j => e6_err (symplec6_search_state func dim qo po init_dt t rtol
                        atol j)).
Proof using Hinit.
  apply (halving_search e6_dt e6_err
           (symplec6_search_body func dim qo po
              (symplec6_scale dim qo po rtol atol))
           (symplec6_search_init dim init_dt t) init_dt); done.
Qed.

End ThreeSearches.


(** ** Monotonicity of the leapfrog search in the tolerances *)

Section Monotone.
Local Open Scope R_scope.
Variables (drift : drift_fn R) (kick : kick_fn R) (dim : nat) (yo : list R).
Variables (init_dt : R) (t : list R) (metric : metric_fn R).
Variables (scale2 scale2' : list R).
Hypothesis Htight :
  forall i, (i < dim)%nat -> 0 < rd scale2' i <= rd scale2 i.





End Monotone.




(** ** The tolerance is not linear in [atol] and [rtol] *)

Section ToleranceCounterexample.
Local Open Scope R_scope.

(** C2, as the specification words it, fails: with [atol = rtol = 0] and a
    scaling of 1 the code normalises with [(exp 0 + exp 0 * 1)^2 = 4], where
    [atol + rtol * scaling] would give [(0 + 0 * 1)^2 = 0]. *)
Lemma tolerance_not_linear :
  rd (estimate_scale2 1 0 0 [1]) 0 = 4 /\
  rd (claimed_scale2 1 0 0 [1]) 0 = 0 /\
  rd (estimate_scale2 1 0 0 [1]) 0 <> rd (claimed_scale2 1 0 0 [1]) 0.
Proof.
  assert (H1 : rd (estimate_scale2 1 0 0 [1]) 0 = 4).
  { rewrite estimate_scale2_rd by lia. cbn [c_pow c_exp fadd fmul R_arith].
    rewrite powerRZ_2, exp_0. change (rd [1] 0) with 1. ring. }
  assert (H2 : rd (claimed_scale2 1 0 0 [1]) 0 = 0).
  { unfold claimed_scale2.
    rewrite (rd_fill_in 1 0 _ (malloc 1) 0) by (simpl; lia).
    unfold claimed_tolerance. cbn [c_pow fadd fmul R_arith].
    rewrite powerRZ_2. ring. }
  rewrite H1, H2. repeat split; lra.
Qed.

End ToleranceCounterexample.

(** ** The error of [symplec4_estimate_step] on a system at rest *)

Section AtRest.
Local Open Scope R_scope.

Lemma at_rest_err (err x : R) : (err + (1 - 1) * (1 - 1) / x) / 1 = err.
Proof. unfold Rdiv. rewrite Rinv_1. ring. Qed.

Lemma symplec4_at_rest_pass (dt err to a b : R) (t : list R) :
  exists to',
    symplec4_search_body still_drift still_kick 1 [1] t diff_metric
      (estimate_scale2 1 0 0 (zero_scaling [1]))
      {| ss_dt := dt; ss_err := err; ss_to := to; ss_y11 := [a];
         ss_y12 := [b] |}
    = {| ss_dt := (dt /. lit 2)%dbl; ss_err := sqrt err; ss_to := to';
         ss_y11 := [1]; ss_y12 := [1] |}.
Proof.
  eexists. unfold symplec4_search_body, symplec4_trial, still_drift,
    still_kick, diff_metric, sum_sq_err, reset_y, for_loop.
  cbn [ss_dt ss_err ss_to ss_y11 ss_y12 Nat.sub seq fold_left fst snd map].
  cbn [rd lookup list_lookup insert list_insert default fst snd].
  cbn [c_sqrt fadd fmul fdiv of_int Z.of_nat R_arith].
  rewrite at_rest_err. reflexivity.
Qed.

Lemma leapfrog_at_rest_pass (dt err to a b : R) :
  leapfrog_search_body still_drift still_kick 1 [1] diff_metric
      (estimate_scale2 1 0 0 (zero_scaling [1]))
    {| ss_dt := dt; ss_err := err; ss_to := to; ss_y11 := [a];
       ss_y12 := [b] |}
  = {| ss_dt := (dt /. lit 2)%dbl; ss_err := 0; ss_to := to;
       ss_y11 := [1]; ss_y12 := [1] |}.
Proof.
  unfold leapfrog_search_body, leapfrog_trial, still_drift,
    still_kick, diff_metric, sum_sq_err, reset_y, for_loop.
  cbn [ss_dt ss_err ss_to ss_y11 ss_y12 Nat.sub seq fold_left fst snd map].
  cbn [rd lookup list_lookup insert list_insert default fst snd].
  cbn [c_sqrt fadd fmul fdiv of_int Z.of_nat R_arith].
  rewrite at_rest_err, lit_0, sqrt_0. reflexivity.
Qed.

Lemma symplec4_at_rest_err (t : list R) (j : nat) :
  exists dt err to a b,
    symplec4_search_state still_drift still_kick 1 [1] 1 t 0 0 zero_scaling
      diff_metric j
    = {| ss_dt := dt; ss_err := err; ss_to := to; ss_y11 := [a];
         ss_y12 := [b] |} /\
    1 < err.
Proof.
  unfold symplec4_search_state.
  induction j as [|j (dt & err & to & a & b & Hs & Herr)].
  - eexists _, _, _, _, _. split; [reflexivity|]. rewrite lit_2. lra.
  - rewrite Nat.iter_succ, Hs.
    destruct (symplec4_at_rest_pass dt err to a b t) as [to' ->].
    eexists _, _, _, _, _. split; [reflexivity|].
    rewrite <- sqrt_1. apply sqrt_lt_1_alt. lra.
Qed.

(** C3 fails for [symplec4_estimate_step]. On a system at rest
    ([dim = 1], state [1], probe step 1, [atol = rtol = 0]) the two trial
    trajectories coincide in every pass, so the error of a pass alone is 0.
    [leapfrog_estimate_step] accepts the first candidate and returns 1.
    [symplec4_estimate_step] starts its sum from the error of the pass
    before (2 at first): its first error is [sqrt 2], every later one stays
    above 1, and the search runs into the cap and returns [2 / 2 ^ 15]. *)
Theorem symplec4_search_carries_error :
  leapfrog_estimate_step 15 still_drift still_kick 1 [1] 1 [0; 1] 0 0
    zero_scaling diff_metric = Some (1 * 2 / 2 ^ 1) /\
  ss_err (leapfrog_search_state still_drift still_kick 1 [1] 1 [0; 1] 0 0
            zero_scaling diff_metric 1) = 0 /\
  symplec4_estimate_step 15 still_drift still_kick 1 [1] 1 [0; 1] 0 0
    zero_scaling diff_metric = Some (1 * 2 / 2 ^ 15) /\
  ss_err (symplec4_search_state still_drift still_kick 1 [1] 1 [0; 1] 0 0
            zero_scaling diff_metric 1) = sqrt 2.
Proof.
  assert (Hne : (1 : R) <> 0) by lra.
  assert (Hl1 : ss_err (leapfrog_search_state still_drift still_kick 1 [1] 1
                          [0; 1] 0 0 zero_scaling diff_metric 1) = 0).
  { unfold leapfrog_search_state, leapfrog_search_init.
    rewrite Nat.iter_succ. cbn [Nat.iter nat_rect].
    change (malloc 1) with [lit 0]. by rewrite leapfrog_at_rest_pass. }
  split; [|split; [done|split]].
  - destruct (leapfrog_halving still_drift still_kick 1 [1] 1 [0; 1] 0 0
                zero_scaling diff_metric Hne)
      as (_ & _ & k & Hk & Hres & _ & _ & Hbefore).
    destruct (decide (k = 1%nat)) as [->|Hk1]; [by apply Hres|].
    destruct (Hbefore 1%nat ltac:(lia)) as [Herr _]. rewrite Hl1 in Herr. lra.
  - destruct (symplec4_halving still_drift still_kick 1 [1] 1 [0; 1] 0 0
                zero_scaling diff_metric Hne)
      as (_ & _ & k & Hk & Hres & Hdt & Hexit & _).
    destruct (decide (k = 15%nat)) as [->|Hk15]; [by apply Hres|].
    exfalso.
    destruct (symplec4_at_rest_err [0; 1] k) as (dt & err & to & a & b & Hs & Herr).
    destruct Hexit as [Hexit|Hexit];
      [rewrite Hs in Hexit; cbn [ss_err] in Hexit; lra|].
    rewrite Hdt in Hexit.
    pose proof (pow2_pos k). pose proof (pow2_le k 14 ltac:(lia)) as Hle.
    assert (H14 : 2 ^ 14 = 16384) by (simpl; ring).
    assert (Hr : 1 / (1 * 2 / 2 ^ k) = 2 ^ k / 2) by (field; lra).
    rewrite Hr in Hexit. lra.
  - unfold symplec4_search_state, symplec4_search_init.
    rewrite Nat.iter_succ. cbn [Nat.iter nat_rect].
    change (malloc 1) with [lit 0].
    destruct (symplec4_at_rest_pass (1 *. lit 2)%dbl (lit 2) (lit 0) (lit 0)
                (lit 0) [0; 1]) as [to' ->].
    cbn [ss_err]. by rewrite lit_2.
Qed.

End AtRest.

(** ** Concrete runs

    The statements above, used on a system at rest in the arithmetic of the
    real numbers. *)

Section ConcreteRuns.
Local Open Scope R_scope.

Lemma explicit_step_one : explicit_step (1 : R).
Proof.
  unfold explicit_step. cbn [feq lit R_arith]. unfold R_eqb.
  destruct (Req_dec_T 1 (Q2R (-9999.99))) as [Heq|Hne]; [|reflexivity].
  exfalso. unfold Q2R in Heq. simpl in Heq. lra.
Defined.

Lemma leap_primitives_pointwise_witness :
  (2 <= length [0; 0])%nat /\ (2 <= length [0; 0])%nat /\
  rd (leapfrog_leapq 2 [1; 2] [3; 4] 2 [0; 0]) 1 = 2 + 2 * 4.
Proof.
  split; [simpl; lia|]. split; [simpl; lia|].
  destruct (leap_primitives_pointwise 2 [1; 2] [3; 4] [5; 6] 2 [0; 0] [0; 0])
    as [H _]; [simpl; lia | simpl; lia |].
  exact (proj1 (H 1%nat ltac:(lia))).
Defined.

Lemma cancellation_keeps_prefix_witness :
  first_seen false (fun j => Nat.eqb j 1) 1 /\
  (Z.of_nat 1 < 3 - 1)%Z /\
  exists full r short : outcome R,
    leapfrog 0 still_drift still_kick 1 [1] 3 1 [0; 1; 2] 0 0 zero_scaling
      diff_metric false [0; 0; 0] false quiet = Some full /\
    leapfrog 0 still_drift still_kick 1 [1] 3 1 [0; 1; 2] 0 0 zero_scaling
      diff_metric false [0; 0; 0] false (fun j => Nat.eqb j 1) = Some r /\
    leapfrog 0 still_drift still_kick 1 [1] (Z.of_nat 1 + 1) 1 [0; 1; 2] 0 0
      zero_scaling diff_metric false [0; 0; 0] false quiet = Some short /\
    out_err r = (-10)%Z /\ out_interrupted r = false /\
    out_yo r = out_yo short /\ out_result r = out_result short /\
    take ((1 + 1) * 1) (out_result r) = take ((1 + 1) * 1) (out_result full).
Proof.
  assert (Hseen : first_seen false (fun j => Nat.eqb j 1) 1).
  { split; [reflexivity|]. intros j Hj. by replace j with 0%nat by lia. }
  split; [exact Hseen|]. split; [lia|].
  destruct (leapfrog_returns 0 still_drift still_kick 1 [1] 3 1 [0; 1; 2] 0 0
              zero_scaling diff_metric false [0; 0; 0] false quiet
              explicit_step_one) as [full Hfull].
  destruct (proj1 (cancellation_keeps_prefix 0 still_drift still_kick
                     (fun _ q => q) 1 [1] 1 [0; 1; 2] 0 0 zero_scaling
                     diff_metric false [0; 0; 0])
              3%Z false (fun j => Nat.eqb j 1) 1%nat full Hseen ltac:(lia)
              Hfull) as (r & short & H).
  exists full, r, short. split; [exact Hfull | exact H].
Defined.

Lemma tolerance_is_exponentiated_witness :
  (0 < 1)%nat /\
  rd (estimate_scale2 1 0 0 (zero_scaling [1])) 0
  = (c_pow (c_exp 0 +. c_exp 0 *. rd (zero_scaling [1]) 0) 2)%dbl.
Proof.
  split; [lia|].
  destruct (tolerance_is_exponentiated still_drift still_kick 1 [1] 1 [0; 1]
              0 0 zero_scaling diff_metric 0 ltac:(lia)) as [H _].
  exact H.
Defined.


Lemma leapfrog_interval_is_drift_kick_drift_witness :
  (1 <= 3)%Z /\
  kick_count (leapfrog_interval_spec (Z.to_nat 3)) = Z.to_nat 3 /\
  drift_halves (leapfrog_interval_spec (Z.to_nat 3)) = (2 * Z.to_nat 3)%nat /\
  rs_yo (leapfrog_interval still_drift still_kick 1 1 3 false
           (drift_kick_entry 1 [1] [0; 3] [0; 0] false))
  = lf_run still_drift still_kick 1 0
      [HalfDrift; KickMid 0; FullDrift; KickMid 1; FullDrift; KickMid 2;
       HalfDrift] [1].
Proof.
  split; [lia|].
  destruct (leapfrog_interval_is_drift_kick_drift still_drift still_kick 1 1
              3 false (drift_kick_entry 1 [1] [0; 3] [0; 0] false)
              ltac:(lia)) as (Hyo & Hk & Hd & _).
  split; [exact Hk|]. split; [exact Hd|]. exact Hyo.
Defined.


Lemma caller_state_on_return_witness :
  (exists r : outcome R,
     symplec6 0 (fun _ q => q) 1 [1; 2] 3 1 [0; 1; 2] 0 0 [0; 0; 0; 0; 0; 0]
       false quiet = Some r /\
     out_yo r = [1; 2]) /\
  (exists r : outcome R,
     leapfrog 0 still_drift still_kick 1 [7] 3 1 [0; 1; 2] 0 0 zero_scaling
       diff_metric false [0; 0; 0] false quiet = Some r /\
     out_err r = 0%Z /\
     out_yo r
     = rs_yo (Nat.iter (Z.to_nat (3 - 1))
                (leapfrog_interval still_drift still_kick 1 1
                   (to_long ((rd [0; 1; 2] 1 -. rd [0; 1; 2] 0) /. 1)%dbl)
                   false)
                (drift_kick_entry 1 [7] [0; 1; 2] [0; 0; 0] false))).
Proof.
  split.
  - destruct (symplec6_returns 0 (fun _ q => q) 1 [1; 2] 3 1 [0; 1; 2] 0 0
                [0; 0; 0; 0; 0; 0] false quiet explicit_step_one) as [r Hr].
    exists r. split; [exact Hr|].
    exact (proj1 (caller_state_on_return 0 still_drift still_kick
                    (fun _ q => q) 1 [1; 2] 3 1 [0; 1; 2] 0 0 zero_scaling
                    diff_metric false [0; 0; 0; 0; 0; 0] false quiet) r Hr).
  - destruct (leapfrog_returns 0 still_drift still_kick 1 [7] 3 1 [0; 1; 2]
                0 0 zero_scaling diff_metric false [0; 0; 0] false quiet
                explicit_step_one) as [r Hr].
    exists r. split; [exact Hr|].
    destruct (proj1 (proj2 (caller_state_on_return 0 still_drift still_kick
                              (fun _ q => q) 1 [7] 3 1 [0; 1; 2] 0 0
                              zero_scaling diff_metric false [0; 0; 0] false
                              quiet)) r Hr)
      as (d & k & Hd & Hk & Hyo & _).
    unfold leapfrog_dt in Hd. rewrite explicit_step_one in Hd.
    injection Hd as <-.
    destruct Hk as [(Herr & -> & _)|(_ & _ & [Hat _])].
    + split; [exact Herr | exact Hyo].
    + destruct k; discriminate Hat.
Defined.

Lemma first_block_is_initial_state_witness :
  (1 <= length [0; 0; 0])%nat /\
  exists r : outcome R,
    leapfrog 0 still_drift still_kick 1 [7] 3 1 [0; 1; 2] 0 0 zero_scaling
      diff_metric false [0; 0; 0] true quiet = Some r /\
    (0 < 1)%nat /\
    rd (out_result r) 0 = rd [7] 0.
Proof.
  assert (Hlen : (1 <= length [0; 0; 0])%nat) by (simpl; lia).
  split; [exact Hlen|].
  destruct (proj1 (first_block_is_initial_state 0 still_drift still_kick
                     (fun _ q => q) 1 [7] 3 1 [0; 1; 2] 0 0 zero_scaling
                     diff_metric false [0; 0; 0] true quiet) Hlen)
    as [Hret Hblock].
  destruct (Hret explicit_step_one) as [r Hr].
  exists r. split; [exact Hr|]. split; [lia|].
  exact (Hblock r Hr 0%nat ltac:(lia)).
Defined.

End ConcreteRuns.

(** ** Runs in rational arithmetic *)

Section RationalRuns.
Local Open Scope Q_scope.
Variables m_sqrt m_exp m_log : Q -> Q.

(** Two intervals of [1/2] of the oscillator from [q = 1], [p = 0] with
    [dt = 1/4]: the second block approximates [(cos (1/2), - sin (1/2))]. *)
Example leapfrog_oscillator :
  leapfrog (A := Q_arith m_sqrt m_exp m_log) 0 osc_drift osc_kick 2 [1; 0] 3 (1 # 4) [0; 1 # 2; 1]
    0 0 (fun y => y) (fun _ x _ => x) false (replicate 6 0) false quiet
  = Some {| out_yo := [70529 # 131072; -13919 # 16384];
            out_result := [1; 0; 449 # 512; -31 # 64;
                           70529 # 131072; -13919 # 16384];
            out_err := 0; out_interrupted := false |}.
Proof. vm_compute. reflexivity. Qed.

(** The same call with a SIGINT delivered during the first interval. *)
Example leapfrog_oscillator_interrupted :
  leapfrog (A := Q_arith m_sqrt m_exp m_log) 0 osc_drift osc_kick 2 [1; 0] 3 (1 # 4) [0; 1 # 2; 1]
    0 0 (fun y => y) (fun _ x _ => x) false (replicate 6 0) false
    (fun j => Nat.eqb j 1)
  = Some {| out_yo := [449 # 512; -31 # 64];
            out_result := [1; 0; 449 # 512; -31 # 64; 0; 0];
            out_err := -10; out_interrupted := false |}.
Proof. vm_compute. reflexivity. Qed.

(** With [construct_Lz] the state [[2; 0; 3; 0]] is integrated as
    [[2; 0; 6; 0]]; the first block is the state as given and the second has
    its third component divided back. *)
Example leapfrog_planar :
  leapfrog (A := Q_arith m_sqrt m_exp m_log) 0 planar_drift no_kick 4 [2; 0; 3; 0] 2 (1 # 2)
    [0; 1 # 2] 0 0 (fun y => y) (fun _ x _ => x) true (replicate 8 0) false
    quiet
  = Some {| out_yo := [2; 0; 6; 3 # 4];
            out_result := [2; 0; 3; 0; 2; 0; 3; 3 # 4];
            out_err := 0; out_interrupted := false |}.
Proof. vm_compute. reflexivity. Qed.

(** [symplec6] on the oscillator leaves the caller's [yo] as it was. *)
Example symplec6_oscillator :
  out_yo <$> symplec6 (A := Q_arith m_sqrt m_exp m_log) 0 (fun _ q => map Qopp q) 1 [1; 0] 3 (1 # 2)
               [0; 1 # 2; 1] 0 0 (replicate 6 0) false quiet
  = Some [1; 0].
Proof. vm_compute. reflexivity. Qed.

End RationalRuns.

(** * Further properties of the code *)

(** ** What the two saving functions write *)

Section SaveLayout.
Context {F : Type} {A : Arith F}.
Implicit Types (yo qo po result : list F).

Lemma rd_ext (l l' : list F) (j : nat) : l !! j = l' !! j -> rd l j = rd l' j.
Proof. unfold rd. by intros ->. Qed.

Lemma rd_insert_eq (l : list F) (i : nat) (x : F) :
  i < length l -> rd (<[i := x]> l) i = x.
Proof. intros Hi. unfold rd. by rewrite list_lookup_insert_eq. Qed.

Lemma rd_insert_ne (l : list F) (i j : nat) (x : F) :
  i <> j -> rd (<[i := x]> l) j = rd l j.
Proof. intros Hne. unfold rd. by rewrite list_lookup_insert_ne. Qed.

(** [save_qp] writes [dim] positions and then [dim] momenta from the cell
    [result] points at, and nothing else. *)
Theorem save_qp_layout dim qo po result (roff : nat) :
  roff + 2 * dim <= length result ->
  length (save_qp dim qo po result roff) = length result /\
  (forall i, i < dim ->
     rd (save_qp dim qo po result roff) (roff + i) = rd qo i /\
     rd (save_qp dim qo po result roff) (roff + dim + i) = rd po i) /\
  (forall j, j < roff \/ roff + 2 * dim <= j ->
     save_qp dim qo po result roff !! j = result !! j).
Proof.
  intros Hlen. rewrite save_qp_fill. split; [by rewrite !fill_length|].
  split.
  - intros i Hi. split.
    + unfold rd at 1. rewrite fill_lookup_out by lia.
      rewrite fill_lookup_in by lia. done.
    + apply rd_fill_in; [done | rewrite fill_length; lia].
  - intros j Hj. rewrite !fill_lookup_out by lia. done.
Qed.

Lemma save_result_divided_cell dim yo result (roff : nat) :
  roff + dim <= length result -> roff + 2 < length result ->
  rd (save_result dim yo result roff true) (roff + 2)
  = ((if decide (3 <= dim) then rd yo 2 else rd result (roff + 2))
     /. (if decide (1 <= dim) then rd yo 0 else rd result roff))%dbl.
Proof.
  intros Hlen H2. rewrite save_result_fill. cbn zeta.
  rewrite rd_insert_eq by (rewrite fill_length; lia).
  f_equal.
  - destruct (decide (3 <= dim)).
    + apply (rd_fill_in dim roff (rd yo) result 2); lia.
    + apply rd_ext, fill_lookup_out. lia.
  - destruct (decide (1 <= dim)).
    + pose proof (rd_fill_in dim roff (rd yo) result 0 ltac:(lia)
                    ltac:(lia)) as H0.
      by rewrite Nat.add_0_r in H0.
    + apply rd_ext, fill_lookup_out. lia.
Qed.

(** [save_result] copies [dim] cells.  With [construct_Lz] it then divides
    the cell two places after the start of the block by the first cell of
    the block: for [dim >= 3] that is the third component of the state, for
    [dim <= 2] it is a cell past the block.  No other cell changes. *)
Theorem save_result_layout dim yo result (roff : nat) (construct_Lz : bool) :
  roff + dim <= length result ->
  length (save_result dim yo result roff construct_Lz) = length result /\
  (forall i, i < dim -> construct_Lz = false \/ i <> 2 ->
     rd (save_result dim yo result roff construct_Lz) (roff + i) = rd yo i) /\
  (construct_Lz = true -> roff + 2 < length result ->
     rd (save_result dim yo result roff construct_Lz) (roff + 2)
     = ((if decide (3 <= dim) then rd yo 2 else rd result (roff + 2))
        /. (if decide (1 <= dim) then rd yo 0 else rd result roff))%dbl) /\
  (forall j, j < roff \/ roff + dim <= j ->
     construct_Lz = false \/ j <> roff + 2 ->
     save_result dim yo result roff construct_Lz !! j = result !! j).
Proof.
  intros Hlen. split; [apply save_result_length|].
  split; [intros i Hi Hc; apply save_result_rd; [done | lia | done]|].
  split; [intros -> H2; by apply save_result_divided_cell|].
  rewrite save_result_fill. cbn zeta.
  - intros j Hj Hc. destruct construct_Lz.
    + destruct Hc as [|Hne]; [done|].
      rewrite list_lookup_insert_ne by lia. by apply fill_lookup_out.
    + by apply fill_lookup_out.
Qed.

End SaveLayout.

Section LzRoundTrip.
Local Open Scope R_scope.

(** In exact arithmetic, constructing [Lz] on entry and saving with the
    transform gives back the state as it was: the output is the tangential
    velocity, not [Lz], as long as the first component is not zero. *)
Theorem construct_Lz_then_save_is_identity (dim : nat) (yo result : list R)
    (roff : nat) :
  (3 <= dim)%nat -> (3 <= length yo)%nat -> rd yo 0 <> 0 ->
  (roff + dim <= length result)%nat ->
  forall i, (i < dim)%nat ->
    rd (save_result dim (construct_Lz_init true yo) result roff true)
       (roff + i) = rd yo i.
Proof.
  intros Hdim Hyo H0 Hlen i Hi.
  pose proof (fun Hlt => save_result_divided_cell dim
                           (construct_Lz_init true yo) result roff Hlen Hlt)
    as Hdiv.
  assert (Hrd : forall j, j <> 2%nat ->
            rd (construct_Lz_init true yo) j = rd yo j).
  { intros j Hj. apply rd_ext. cbn [construct_Lz_init].
    by rewrite list_lookup_insert_ne by done. }
  destruct (decide (i = 2%nat)) as [->|Hne].
  - rewrite Hdiv by lia.
    destruct (decide (3 <= dim)%nat); [|lia].
    destruct (decide (1 <= dim)%nat); [|lia].
    rewrite (Hrd 0%nat) by lia. cbn [construct_Lz_init].
    rewrite rd_insert_eq by lia. cbn [fmul fdiv R_arith]. by field.
  - rewrite save_result_rd by (done || lia || by right). by apply Hrd.
Qed.

End LzRoundTrip.

(** ** Status, flag and extent of the output *)

Section MacroForm.
Context {F : Type} {A : Arith F} {S D : Type}.
Variables (res yoP : S -> list F) (body : D -> S -> S) (init : D -> S).
Variables (choose : option D) (nt : Z).
Variables (interrupted : bool) (sigint : nat -> bool).

Lemma macro_form_status :
  status_contract (macro_form res yoP body init choose nt interrupted sigint)
    nt interrupted sigint.
Proof.
  intros r Hr. unfold macro_form in Hr. destruct choose as [d|]; [|done].
  injection Hr as <-. cbn [out_err out_interrupted].
  destruct (seen_or_not interrupted sigint (Z.to_nat (nt - 1)))
    as [(k & Hk & Hseen)|Hnone].
  - left. rewrite (macro_loop_seen (body d) sigint 0%Z _ k) by done.
    cbn [fst snd]. split; [done|]. split; [done|]. exists k. split; [lia|done].
  - right. rewrite (macro_loop_unseen (body d) sigint 0%Z) by done.
    cbn [fst snd]. split; [done|]. split; [intros j Hj; apply Hnone; lia|].
    done.
Qed.

Lemma macro_form_seen (k : nat) (r : outcome F) :
  first_seen interrupted sigint k -> (Z.of_nat k < nt - 1)%Z ->
  macro_form res yoP body init choose nt interrupted sigint = Some r ->
  exists d, choose = Some d /\
    out_yo r = yoP (Nat.iter k (body d) (init d)) /\
    out_result r = res (Nat.iter k (body d) (init d)).
Proof.
  intros Hseen Hk Hr. unfold macro_form in Hr.
  destruct choose as [d|]; [|done].
  injection Hr as <-. exists d. split; [done|].
  rewrite (macro_loop_seen (body d) sigint 0%Z _ k) by (done || lia).
  done.
Qed.

End MacroForm.

Section ExtentFacts.
Context {F : Type} {S : Type}.
Variables (roff : S -> nat) (res : S -> list F) (body : S -> S) (blk : nat).
Hypothesis Hroff : forall s, roff (body s) = roff s + blk.
Hypothesis Hlen : forall s, length (res (body s)) = length (res s).
Hypothesis Hout :
  forall s j, roff s + blk <= j -> res (body s) !! j = res s !! j.

Lemma length_iter (m : nat) (s : S) :
  length (res (Nat.iter m body s)) = length (res s).
Proof using Hlen.
  induction m as [|m IH]; [done|]. rewrite Nat.iter_succ. by rewrite Hlen.
Qed.

Lemma tail_iter (m : nat) (s : S) (j : nat) :
  roff s + m * blk <= j -> res (Nat.iter m body s) !! j = res s !! j.
Proof using Hroff Hout.
  induction m as [|m IH]; intros Hj; [done|].
  rewrite Nat.iter_succ, Hout.
  - apply IH. lia.
  - rewrite (roff_iter roff body blk Hroff). lia.
Qed.

End ExtentFacts.

Section StatusAndExtent.
Context {F : Type} {A : Arith F}.
Variables (fuel : nat) (drift : drift_fn F) (kick : kick_fn F) (func : func_fn F).
Variables (dim : nat) (yo : list F) (nt : Z) (dt : F) (t : list F).
Variables (rtol atol : F) (tol_scaling : tol_scaling_fn F) (metric : metric_fn F).
Variables (construct_Lz : bool) (result : list F).
Variables (interrupted : bool) (sigint : nat -> bool).

(** The three schemes in the shape of [macro_form]. *)
Lemma leapfrog_macro_form :
  leapfrog fuel drift kick dim yo nt dt t rtol atol tol_scaling metric
    construct_Lz result interrupted sigint
  = macro_form rs_result rs_yo
      (fun d => leapfrog_interval drift kick dim d
                  (to_long ((rd t 1 -. rd t 0) /. d)) construct_Lz)
      (fun _ => drift_kick_entry dim yo t result construct_Lz)
      (leapfrog_dt fuel drift kick dim (construct_Lz_init construct_Lz yo)
         (rd t 1 -. rd t 0) dt t rtol atol tol_scaling metric)
      nt interrupted sigint.
Proof. reflexivity. Qed.

Lemma symplec4_macro_form :
  symplec4 fuel drift kick dim yo nt dt t rtol atol tol_scaling metric
    construct_Lz result interrupted sigint
  = macro_form rs_result rs_yo
      (fun d => symplec4_interval drift kick dim d
                  (to_long ((rd t 1 -. rd t 0) /. d)) construct_Lz)
      (fun _ => drift_kick_entry dim yo t result construct_Lz)
      (symplec4_dt fuel drift kick dim (construct_Lz_init construct_Lz yo)
         (rd t 1 -. rd t 0) dt t rtol atol tol_scaling metric)
      nt interrupted sigint.
Proof. reflexivity. Qed.

Lemma symplec6_macro_form :
  symplec6 fuel func dim yo nt dt t rtol atol result interrupted sigint
  = macro_form r6_result r6_yo
      (fun d => symplec6_interval func dim d
                  (to_long ((rd t 1 -. rd t 0) /. d)))
      (fun _ => symplec6_entry dim yo t result)
      (symplec6_dt fuel func dim
         (symplec6_copy_yo dim yo (malloc dim) (malloc dim)).1
         (symplec6_copy_yo dim yo (malloc dim) (malloc dim)).2
         (rd t 1 -. rd t 0) dt t rtol atol)
      nt interrupted sigint.
Proof. reflexivity. Qed.

(** The status of a call that returns is [-10] when a poll before the last
    output time saw the flag, the flag being cleared then, and [0] when none
    did.  In the second case the flag is set on return exactly when a SIGINT
    came after the last poll or, with [nt <= 1] and so no poll at all, when
    it was set on entry or a SIGINT came during the call. *)
Theorem status_is_interrupted_or_zero :
  status_contract
    (leapfrog fuel drift kick dim yo nt dt t rtol atol tol_scaling metric
       construct_Lz result interrupted sigint) nt interrupted sigint /\
  status_contract
    (symplec4 fuel drift kick dim yo nt dt t rtol atol tol_scaling metric
       construct_Lz result interrupted sigint) nt interrupted sigint /\
  status_contract
    (symplec6 fuel func dim yo nt dt t rtol atol result interrupted sigint)
    nt interrupted sigint.
Proof.
  rewrite leapfrog_macro_form, symplec4_macro_form, symplec6_macro_form.
  split; [|split]; apply macro_form_status.
Qed.

Lemma save_result_lookup_out (y buf : list F) (roff j : nat) :
  construct_Lz = false \/ 3 <= dim ->
  roff + dim <= j ->
  save_result dim y buf roff construct_Lz !! j = buf !! j.
Proof.
  intros Hc Hj. rewrite save_result_fill. cbn zeta.
  destruct construct_Lz.
  - destruct Hc as [|Hdim]; [done|].
    rewrite list_lookup_insert_ne by lia. apply fill_lookup_out. lia.
  - apply fill_lookup_out. lia.
Qed.

Lemma save_qp_lookup_out (qo po buf : list F) (roff j : nat) :
  roff + 2 * dim <= j -> save_qp dim qo po buf roff !! j = buf !! j.
Proof. intros Hj. rewrite save_qp_fill, !fill_lookup_out by lia. done. Qed.

Lemma save_qp_length (qo po buf : list F) (roff : nat) :
  length (save_qp dim qo po buf roff) = length buf.
Proof. by rewrite save_qp_fill, !fill_length. Qed.

Lemma macro_form_extent {S D : Type} (roff : S -> nat) (res yoP : S -> list F)
    (body : D -> S -> S) (init : S) (choose : option D) (blk : nat) :
  (forall d s, roff (body d s) = roff s + blk) ->
  (forall d s, length (res (body d s)) = length (res s)) ->
  (forall d s j, roff s + blk <= j -> res (body d s) !! j = res s !! j) ->
  roff init = blk ->
  length (res init) = length result ->
  (forall j, blk <= j -> res init !! j = result !! j) ->
  extent_contract
    (macro_form res yoP body (fun _ => init) choose nt interrupted sigint)
    nt interrupted sigint result blk.
Proof.
  intros Hroff Hlen Hout Hinit Hlen0 Hout0 r Hr.
  split; [|split].
  - destruct (macro_form_outcome _ _ _ _ _ _ _ _ _ Hr)
      as (d & m & _ & _ & _ & Hres).
    by rewrite Hres, (length_iter res (body d) (Hlen d)).
  - intros j Hj.
    destruct (macro_form_outcome _ _ _ _ _ _ _ _ _ Hr)
      as (d & m & _ & Hm & _ & Hres).
    rewrite Hres.
    rewrite (tail_iter roff res (body d) blk (Hroff d) (Hout d)) by nia.
    apply Hout0. nia.
  - intros k Hseen Hk j Hj.
    destruct (macro_form_seen _ _ _ _ _ _ _ _ k r Hseen Hk Hr)
      as (d & _ & _ & Hres).
    rewrite Hres.
    rewrite (tail_iter roff res (body d) blk (Hroff d) (Hout d)) by nia.
    apply Hout0. nia.
Qed.

(** A call that returns keeps the length of the output buffer and leaves
    every cell past the [nt] blocks (past the first block when [nt <= 1]) as
    it was; after an interruption at interval [k] it leaves every cell past
    block [k] as it was.  For [leapfrog] and [symplec4] this needs
    [dim >= 3] when [construct_Lz] is set. *)
Theorem output_extent :
  (construct_Lz = false \/ 3 <= dim ->
   extent_contract
     (leapfrog fuel drift kick dim yo nt dt t rtol atol tol_scaling metric
        construct_Lz result interrupted sigint)
     nt interrupted sigint result dim /\
   extent_contract
     (symplec4 fuel drift kick dim yo nt dt t rtol atol tol_scaling metric
        construct_Lz result interrupted sigint)
     nt interrupted sigint result dim) /\
  extent_contract
    (symplec6 fuel func dim yo nt dt t rtol atol result interrupted sigint)
    nt interrupted sigint result (2 * dim).
Proof.
  rewrite leapfrog_macro_form, symplec4_macro_form, symplec6_macro_form.
  split; [intros Hc; split|].
  - apply (macro_form_extent rs_roff); try done.
    + intros d s. apply save_result_length.
    + intros d s j Hj. by apply save_result_lookup_out.
    + apply save_result_length.
    + intros j Hj. cbn [drift_kick_entry rs_result].
      rewrite save_result_fill. cbn zeta. apply fill_lookup_out. lia.
  - apply (macro_form_extent rs_roff); try done.
    + intros d s. apply save_result_length.
    + intros d s j Hj. by apply save_result_lookup_out.
    + apply save_result_length.
    + intros j Hj. cbn [drift_kick_entry rs_result].
      rewrite save_result_fill. cbn zeta. apply fill_lookup_out. lia.
  - apply (macro_form_extent r6_roff); try done.
    + intros d s. apply save_qp_length.
    + intros d s j Hj. by apply save_qp_lookup_out.
    + apply save_qp_length.
    + intros j Hj. by apply save_qp_lookup_out.
Qed.

End StatusAndExtent.

(** ** Every output block *)

Section BlockFacts.
Context {F : Type} {A : Arith F}.
Variables (dim : nat) (construct_Lz : bool) (step : run_state F -> run_state F).
Hypothesis Hroff : forall s, rs_roff (step s) = rs_roff s + dim.
Hypothesis Hsave :
  forall s, rs_result (step s)
            = save_result dim (rs_yo (step s)) (rs_result s) (rs_roff s)
                construct_Lz.

Lemma step_prefix (s : run_state F) :
  take (rs_roff s) (rs_result (step s)) = take (rs_roff s) (rs_result s).
Proof using Hsave. rewrite Hsave. by apply save_result_take. Qed.

Lemma save_result_rd_Lz (y buf : list F) (roff : nat) :
  3 <= dim -> roff + dim <= length buf ->
  rd (save_result dim y buf roff true) (roff + 2)
  = (rd y 2 /. rd y 0)%dbl.
Proof.
  intros Hdim Hlen. rewrite save_result_fill. cbn zeta.
  rewrite rd_insert_eq by (rewrite fill_length; lia). f_equal.
  - apply (rd_fill_in dim roff (rd y) buf 2); lia.
  - pose proof (rd_fill_in dim roff (rd y) buf 0 ltac:(lia) ltac:(lia)) as H0.
    by rewrite Nat.add_0_r in H0.
Qed.

Lemma last_block_Lz (k : nat) (s : run_state F) :
  construct_Lz = true -> 3 <= dim -> 1 <= k ->
  rs_roff s + k * dim <= length (rs_result s) ->
  rd (rs_result (Nat.iter k step s)) (rs_roff s + (k - 1) * dim + 2)
  = (rd (rs_yo (Nat.iter k step s)) 2 /. rd (rs_yo (Nat.iter k step s)) 0)%dbl.
Proof using Hroff Hsave.
  intros Hc Hdim Hk Hlen. destruct k as [|k]; [lia|].
  rewrite Nat.iter_succ, Hsave, Hc.
  replace (rs_roff s + (Datatypes.S k - 1) * dim + 2)
    with (rs_roff (Nat.iter k step s) + 2)
    by (rewrite (roff_iter rs_roff step dim Hroff); lia).
  apply save_result_rd_Lz; [done|].
  rewrite (step_result_length dim construct_Lz step Hsave).
  rewrite (roff_iter rs_roff step dim Hroff). lia.
Qed.

(** A block, once written, is not touched by the later intervals. *)
Lemma block_kept (m j : nat) (s : run_state F) (x : nat) :
  j <= m -> x < rs_roff s + j * dim ->
  rd (rs_result (Nat.iter m step s)) x
  = rd (rs_result (Nat.iter j step s)) x.
Proof using Hroff Hsave.
  intros Hj Hx. replace m with ((m - j) + j) by lia. rewrite Nat.iter_add.
  rewrite <- (rd_take _ (rs_roff s + j * dim)) by done.
  rewrite (prefix_iter rs_roff rs_result step dim Hroff step_prefix);
    [by rewrite rd_take|].
  rewrite (roff_iter rs_roff step dim Hroff). lia.
Qed.

Lemma blocks_of_run (m j : nat) (s : run_state F) :
  1 <= j <= m -> rs_roff s + m * dim <= length (rs_result s) ->
  (forall i, i < dim -> construct_Lz = false \/ i <> 2 ->
     rd (rs_result (Nat.iter m step s)) (rs_roff s + (j - 1) * dim + i)
     = rd (rs_yo (Nat.iter j step s)) i) /\
  (construct_Lz = true -> 3 <= dim ->
     rd (rs_result (Nat.iter m step s)) (rs_roff s + (j - 1) * dim + 2)
     = (rd (rs_yo (Nat.iter j step s)) 2
        /. rd (rs_yo (Nat.iter j step s)) 0)%dbl).
Proof using Hroff Hsave.
  intros Hj Hlen. split.
  - intros i Hi Hc. rewrite (block_kept m j) by nia.
    apply (last_block_is_state dim construct_Lz step Hroff Hsave);
      [lia | nia | done | done].
  - intros Hc Hdim. rewrite (block_kept m j) by nia.
    apply last_block_Lz; [done | done | lia | nia].
Qed.

End BlockFacts.

Section BlockFacts6.
Context {F : Type} {A : Arith F}.
Variables (func : func_fn F) (dim : nat) (d : F) (ndt : Z).

Lemma save_qp_rd (qo po buf : list F) (roff i : nat) :
  i < dim -> roff + 2 * dim <= length buf ->
  rd (save_qp dim qo po buf roff) (roff + i) = rd qo i /\
  rd (save_qp dim qo po buf roff) (roff + dim + i) = rd po i.
Proof.
  intros Hi Hlen. rewrite save_qp_fill. split.
  - unfold rd at 1. rewrite fill_lookup_out by lia.
    by rewrite fill_lookup_in by lia.
  - apply rd_fill_in; [done | rewrite fill_length; lia].
Qed.

Lemma symplec6_prefix (s : s6_run F) :
  take (r6_roff s) (r6_result (symplec6_interval func dim d ndt s))
  = take (r6_roff s) (r6_result s).
Proof. by apply save_qp_take. Qed.

Lemma symplec6_result_length (k : nat) (s : s6_run F) :
  length (r6_result (Nat.iter k (symplec6_interval func dim d ndt) s))
  = length (r6_result s).
Proof.
  induction k as [|k IH]; [done|]. rewrite Nat.iter_succ.
  cbn [symplec6_interval r6_result]. by rewrite save_qp_length.
Qed.

Lemma symplec6_roff (k : nat) (s : s6_run F) :
  r6_roff (Nat.iter k (symplec6_interval func dim d ndt) s)
  = r6_roff s + k * (2 * dim).
Proof.
  apply (roff_iter r6_roff (symplec6_interval func dim d ndt) (2 * dim)
           (fun _ => eq_refl)).
Qed.

Lemma blocks_of_run6 (m j : nat) (s : s6_run F) (i : nat) :
  1 <= j <= m -> r6_roff s + m * (2 * dim) <= length (r6_result s) ->
  i < dim ->
  let sj := r6_s (Nat.iter j (symplec6_interval func dim d ndt) s) in
  let out := r6_result (Nat.iter m (symplec6_interval func dim d ndt) s) in
  rd out (r6_roff s + (j - 1) * (2 * dim) + i) = rd (s6_qo sj) i /\
  rd out (r6_roff s + (j - 1) * (2 * dim) + dim + i) = rd (s6_po sj) i.
Proof.
  intros Hj Hlen Hi sj out. subst sj out.
  assert (Hkept : forall x, x < r6_roff s + j * (2 * dim) ->
            rd (r6_result (Nat.iter m (symplec6_interval func dim d ndt) s)) x
            = rd (r6_result (Nat.iter j (symplec6_interval func dim d ndt) s))
                x).
  { intros x Hx. replace m with ((m - j) + j) by lia. rewrite Nat.iter_add.
    rewrite <- (rd_take _ (r6_roff s + j * (2 * dim))) by done.
    rewrite (prefix_iter r6_roff r6_result
               (symplec6_interval func dim d ndt) (2 * dim)
               (fun _ => eq_refl) symplec6_prefix); [by rewrite rd_take|].
    rewrite symplec6_roff. lia. }
  rewrite !Hkept by nia.
  destruct j as [|j]; [lia|]. rewrite Nat.iter_succ.
  set (sp := Nat.iter j (symplec6_interval func dim d ndt) s).
  cbn [symplec6_interval r6_result r6_s].
  replace (r6_roff s + (Datatypes.S j - 1) * (2 * dim))
    with (r6_roff sp) by (unfold sp; rewrite symplec6_roff; lia).
  apply save_qp_rd; [done|].
  unfold sp. rewrite symplec6_result_length, symplec6_roff. nia.
Qed.

End BlockFacts6.

Section EveryBlock.
Context {F : Type} {A : Arith F}.
Variables (fuel : nat) (drift : drift_fn F) (kick : kick_fn F) (func : func_fn F).
Variables (dim : nat) (yo : list F) (nt : Z) (dt : F) (t : list F).
Variables (rtol atol : F) (tol_scaling : tol_scaling_fn F) (metric : metric_fn F).
Variables (construct_Lz : bool) (result : list F).

Lemma macro_form_quiet {S D : Type} (res yoP : S -> list F)
    (body : D -> S -> S) (init : D -> S) (choose : option D)
    (r : outcome F) :
  macro_form res yoP body init choose nt false quiet = Some r ->
  exists d, choose = Some d /\
    out_yo r = yoP (Nat.iter (Z.to_nat (nt - 1)) (body d) (init d)) /\
    out_result r = res (Nat.iter (Z.to_nat (nt - 1)) (body d) (init d)) /\
    out_err r = 0%Z.
Proof.
  unfold macro_form. destruct choose as [d|]; [|done]. intros [= <-].
  exists d. rewrite macro_loop_quiet. done.
Qed.

(** In a call without signals whose buffer holds the [nt] blocks, block [j]
    (for [1 <= j <= nt - 1]) holds the state after [j] intervals: a later
    interval never overwrites it.  With [construct_Lz] (and [dim >= 3]) its
    third cell holds the third component divided by the first. *)
Theorem blocks_hold_states_in_time_order :
  (Z.to_nat (nt - 1) + 1) * dim <= length result ->
  forall r,
    leapfrog fuel drift kick dim yo nt dt t rtol atol tol_scaling metric
      construct_Lz result false quiet = Some r ->
    exists d,
      leapfrog_dt fuel drift kick dim (construct_Lz_init construct_Lz yo)
        (rd t 1 -. rd t 0) dt t rtol atol tol_scaling metric = Some d /\
      out_err r = 0%Z /\
      forall j, 1 <= j <= Z.to_nat (nt - 1) ->
        let yj := rs_yo (Nat.iter j
                           (leapfrog_interval drift kick dim d
                              (to_long ((rd t 1 -. rd t 0) /. d))
                              construct_Lz)
                           (drift_kick_entry dim yo t result construct_Lz)) in
        (forall i, i < dim -> construct_Lz = false \/ i <> 2 ->
           rd (out_result r) (j * dim + i) = rd yj i) /\
        (construct_Lz = true -> 3 <= dim ->
           rd (out_result r) (j * dim + 2) = (rd yj 2 /. rd yj 0)%dbl).
Proof.
  intros Hlen r Hr. rewrite leapfrog_macro_form in Hr.
  apply macro_form_quiet in Hr as (d & Hd & _ & Hres & Herr).
  exists d. split; [done|]. split; [done|]. intros j Hj yj. subst yj.
  rewrite Hres.
  pose proof (blocks_of_run dim construct_Lz
                (leapfrog_interval drift kick dim d
                   (to_long ((rd t 1 -. rd t 0) /. d)) construct_Lz)
                ltac:(done) ltac:(done) (Z.to_nat (nt - 1)) j
                (drift_kick_entry dim yo t result construct_Lz) Hj) as Hb.
  cbn [drift_kick_entry rs_roff rs_result] in Hb.
  rewrite save_result_length in Hb. destruct (Hb ltac:(lia)) as [H1 H2].
  split.
  - intros i Hi Hc. rewrite <- (H1 i Hi Hc). f_equal. nia.
  - intros Hc Hdim. rewrite <- (H2 Hc Hdim). f_equal. nia.
Qed.

(** The same for [symplec4], and for [symplec6] with blocks of the
    positions followed by the momenta; the intervals are those of the step
    that the call has chosen. *)
Theorem blocks_hold_states_in_time_order_4_6 :
  ((Z.to_nat (nt - 1) + 1) * dim <= length result ->
   forall r,
     symplec4 fuel drift kick dim yo nt dt t rtol atol tol_scaling metric
       construct_Lz result false quiet = Some r ->
     exists d,
       symplec4_dt fuel drift kick dim (construct_Lz_init construct_Lz yo)
         (rd t 1 -. rd t 0) dt t rtol atol tol_scaling metric = Some d /\
       out_err r = 0%Z /\
       forall j, 1 <= j <= Z.to_nat (nt - 1) ->
         let yj := rs_yo (Nat.iter j
                            (symplec4_interval drift kick dim d
                               (to_long ((rd t 1 -. rd t 0) /. d))
                               construct_Lz)
                            (drift_kick_entry dim yo t result construct_Lz)) in
         (forall i, i < dim -> construct_Lz = false \/ i <> 2 ->
            rd (out_result r) (j * dim + i) = rd yj i) /\
         (construct_Lz = true -> 3 <= dim ->
            rd (out_result r) (j * dim + 2) = (rd yj 2 /. rd yj 0)%dbl)) /\
  ((Z.to_nat (nt - 1) + 1) * (2 * dim) <= length result ->
   forall r,
     symplec6 fuel func dim yo nt dt t rtol atol result false quiet
     = Some r ->
     exists d,
       symplec6_dt fuel func dim
         (symplec6_copy_yo dim yo (malloc dim) (malloc dim)).1
         (symplec6_copy_yo dim yo (malloc dim) (malloc dim)).2
         (rd t 1 -. rd t 0) dt t rtol atol = Some d /\
       out_err r = 0%Z /\
       forall j i, 1 <= j <= Z.to_nat (nt - 1) -> i < dim ->
         let sj := r6_s (Nat.iter j
                           (symplec6_interval func dim d
                              (to_long ((rd t 1 -. rd t 0) /. d)))
                           (symplec6_entry dim yo t result)) in
         rd (out_result r) (j * (2 * dim) + i) = rd (s6_qo sj) i /\
         rd (out_result r) (j * (2 * dim) + dim + i) = rd (s6_po sj) i).
Proof.
  split; intros Hlen r Hr.
  - rewrite symplec4_macro_form in Hr.
    apply macro_form_quiet in Hr as (d & Hd & _ & Hres & Herr).
    exists d. split; [done|]. split; [done|]. intros j Hj yj. subst yj.
    rewrite Hres.
    pose proof (blocks_of_run dim construct_Lz
                  (symplec4_interval drift kick dim d
                     (to_long ((rd t 1 -. rd t 0) /. d)) construct_Lz)
                  ltac:(done) ltac:(done) (Z.to_nat (nt - 1)) j
                  (drift_kick_entry dim yo t result construct_Lz) Hj) as Hb.
    cbn [drift_kick_entry rs_roff rs_result] in Hb.
    rewrite save_result_length in Hb. destruct (Hb ltac:(lia)) as [H1 H2].
    split.
    + intros i Hi Hc. rewrite <- (H1 i Hi Hc). f_equal. nia.
    + intros Hc Hdim. rewrite <- (H2 Hc Hdim). f_equal. nia.
  - rewrite symplec6_macro_form in Hr.
    apply macro_form_quiet in Hr as (d & Hd & _ & Hres & Herr).
    exists d. split; [done|]. split; [done|].
    intros j i Hj Hi sj. subst sj. rewrite Hres.
    pose proof (blocks_of_run6 func dim d
                  (to_long ((rd t 1 -. rd t 0) /. d)) (Z.to_nat (nt - 1)) j
                  (symplec6_entry dim yo t result) i Hj) as Hb.
    cbn [symplec6_entry r6_roff r6_result] in Hb.
    rewrite save_qp_length in Hb. destruct (Hb ltac:(lia) Hi) as [H1 H2].
    split.
    + rewrite <- H1. f_equal. nia.
    + rewrite <- H2. f_equal. nia.
Qed.

End EveryBlock.

(** ** The leapfrog interval as a row of leapfrog steps *)

Section ForLoopFront.
Context {S : Type}.

Lemma for_loop_ext (lo hi : nat) (f g : nat -> S -> S) (s : S) :
  (forall ii x, f ii x = g ii x) -> for_loop lo hi f s = for_loop lo hi g s.
Proof.
  intros Hfg. unfold for_loop. generalize (seq lo (hi - lo)). intros l.
  revert s. induction l as [|i l IH]; intros s; simpl; [done|].
  by rewrite Hfg, IH.
Qed.

Lemma for_loop_front (n : nat) (body : nat -> S -> S) (s : S) :
  for_loop 0 (Datatypes.S n) body s
  = for_loop 0 n (fun j => body (Datatypes.S j)) (body 0 s).
Proof.
  unfold for_loop. rewrite !Nat.sub_0_r. cbn [seq fold_left].
  rewrite <- seq_shift. generalize (seq 0 n) (body 0 s). intros l.
  induction l as [|i l IH]; intros x; simpl; [done|]. apply IH.
Qed.

End ForLoopFront.

Section StepsFacts.
Context {F : Type} {A : Arith F}.
Variables (drift : drift_fn F) (kick : kick_fn F).

Lemma leapfrog_n_steps_snoc (dt to : F) (n : nat) (y : list F) :
  leapfrog_n_steps drift kick dt to (Datatypes.S n) y
  = leapfrog_step drift kick dt (substep_time dt to n)
      (leapfrog_n_steps drift kick dt to n y).
Proof. unfold leapfrog_n_steps. by rewrite for_loop_snoc by lia. Qed.

Lemma leapfrog_n_steps_front (dt to : F) (n : nat) (y : list F) :
  leapfrog_n_steps drift kick dt to (Datatypes.S n) y
  = leapfrog_n_steps drift kick dt (to +. dt) n
      (leapfrog_step drift kick dt to y).
Proof.
  unfold leapfrog_n_steps. rewrite for_loop_front. apply for_loop_ext.
  intros j x. unfold substep_time. by rewrite Nat.iter_succ_r.
Qed.

Variable dt : F.
Hypothesis Hhalves :
  forall y, drift (dt /. lit 2) (drift (dt /. lit 2) y) = drift dt y.

Lemma leapfrog_substeps_steps (m : nat) (y : list F) (to : F) :
  for_loop 0 m
    (fun _ s => (drift dt (kick dt (s.2 +. dt /. lit 2) s.1), s.2 +. dt))
    (drift (dt /. lit 2) y, to)
  = (drift (dt /. lit 2) (leapfrog_n_steps drift kick dt to m y),
     substep_time dt to m).
Proof using Hhalves.
  induction m as [|m IH].
  - rewrite for_loop_empty. unfold leapfrog_n_steps.
    by rewrite for_loop_empty.
  - rewrite for_loop_snoc by lia. rewrite IH. cbn [fst snd].
    rewrite leapfrog_n_steps_snoc. unfold leapfrog_step at 1.
    by rewrite Hhalves.
Qed.

Lemma leapfrog_interval_steps (dim : nat) (ndt : Z) (c : bool)
    (s : run_state F) :
  (1 <= ndt)%Z ->
  rs_yo (leapfrog_interval drift kick dim dt ndt c s)
  = leapfrog_n_steps drift kick dt (rs_to s) (Z.to_nat ndt) (rs_yo s) /\
  rs_to (leapfrog_interval drift kick dim dt ndt c s)
  = substep_time dt (rs_to s) (Z.to_nat ndt).
Proof using Hhalves.
  intros Hndt.
  assert (Hn : Z.to_nat ndt = Datatypes.S (Z.to_nat (ndt - 1))) by lia.
  unfold leapfrog_interval, leapfrog_substeps. cbn [rs_yo rs_to].
  rewrite leapfrog_substeps_steps. cbn [fst snd].
  rewrite Hn, leapfrog_n_steps_snoc. done.
Qed.

(** When two half drifts make a full one, a macro interval of [leapfrog]
    with [ndt >= 1] is [ndt] leapfrog steps of [dt] in a row, each a half
    drift, a kick at its midpoint and a half drift: fusing the half drifts
    of neighbouring steps changes nothing. *)
Theorem leapfrog_interval_is_n_steps (dim : nat) (ndt : Z) (c : bool)
    (s : run_state F) :
  (1 <= ndt)%Z ->
  rs_yo (leapfrog_interval drift kick dim dt ndt c s)
  = leapfrog_n_steps drift kick dt (rs_to s) (Z.to_nat ndt) (rs_yo s).
Proof using Hhalves. intros Hndt. by apply leapfrog_interval_steps. Qed.

End StepsFacts.

Section TimeReversal.
Local Open Scope R_scope.
Variables (drift : drift_fn R) (kick : kick_fn R).
Hypothesis Hadd : forall a b y, drift a (drift b y) = drift (a + b) y.
Hypothesis Hzero : forall y, drift 0 y = y.
Hypothesis Hkick : forall a t y, kick (- a) t (kick a t y) = y.

Lemma substep_time_R (dt to : R) (j : nat) :
  substep_time dt to j = to + INR j * dt.
Proof.
  unfold substep_time. induction j as [|j IH].
  - simpl. lra.
  - rewrite Nat.iter_succ, IH, S_INR. cbn [fadd R_arith]. lra.
Qed.

Lemma drift_halves_R (dt : R) (y : list R) :
  drift (dt /. lit 2)%dbl (drift (dt /. lit 2)%dbl y) = drift dt y.
Proof using Hadd.
  rewrite Hadd. f_equal. cbn [fdiv R_arith]. rewrite lit_2. lra.
Qed.

Lemma leapfrog_step_back (dt t T : R) (y : list R) :
  T = t + dt ->
  leapfrog_step drift kick (- dt) T (leapfrog_step drift kick dt t y) = y.
Proof using Hadd Hzero Hkick.
  intros ->. unfold leapfrog_step. cbn [fadd fdiv R_arith]. rewrite lit_2.
  rewrite Hadd. replace (- dt / 2 + dt / 2) with 0 by lra. rewrite Hzero.
  replace (t + dt + - dt / 2) with (t + dt / 2) by lra. rewrite Hkick.
  rewrite Hadd. replace (- dt / 2 + dt / 2) with 0 by lra. by rewrite Hzero.
Qed.

Lemma leapfrog_n_steps_back (dt to : R) (n : nat) :
  forall (T : R) (y : list R),
    T = to + INR n * dt ->
    leapfrog_n_steps drift kick (- dt) T n
      (leapfrog_n_steps drift kick dt to n y) = y.
Proof using Hadd Hzero Hkick.
  induction n as [|n IH]; intros T y HT.
  - unfold leapfrog_n_steps. by rewrite !for_loop_empty.
  - rewrite (leapfrog_n_steps_snoc drift kick dt to n y).
    rewrite (leapfrog_n_steps_front drift kick (- dt) T n).
    rewrite leapfrog_step_back
      by (rewrite substep_time_R, HT, S_INR; lra).
    apply IH. cbn [fadd R_arith]. rewrite HT, S_INR. lra.
Qed.

(** In exact arithmetic, for a drift that is additive in its step and a
    kick that its negative step undoes, one macro interval of [leapfrog]
    followed by one with the step [- dt] from the state and the time reached
    gives back the state and the time it started from. *)
Theorem leapfrog_interval_reverses (dim : nat) (dt : R) (ndt : Z)
    (c c' : bool) (s s' : run_state R) :
  (1 <= ndt)%Z ->
  rs_yo s' = rs_yo (leapfrog_interval drift kick dim dt ndt c s) ->
  rs_to s' = rs_to (leapfrog_interval drift kick dim dt ndt c s) ->
  rs_yo (leapfrog_interval drift kick dim (- dt) ndt c' s') = rs_yo s /\
  rs_to (leapfrog_interval drift kick dim (- dt) ndt c' s') = rs_to s.
Proof using Hadd Hzero Hkick.
  intros Hndt Hyo Hto.
  destruct (leapfrog_interval_steps drift kick dt (drift_halves_R dt) dim
              ndt c s Hndt) as [Hfy Hft].
  destruct (leapfrog_interval_steps drift kick (- dt) (drift_halves_R (- dt))
              dim ndt c' s' Hndt) as [Hby Hbt].
  rewrite Hby, Hbt, Hyo, Hto, Hfy, Hft. split.
  - apply leapfrog_n_steps_back. by rewrite substep_time_R.
  - rewrite !substep_time_R. lra.
Qed.

End TimeReversal.

(** ** What a search returns, in any arithmetic *)

Section SearchResult.
Context {F : Type} {A : Arith F} {S : Type}.
Variables (dt_of err_of : S -> F) (body : S -> S) (s0 : S) (init_dt : F).
Hypothesis Hbody : forall s, dt_of (body s) = dt_of s /. lit 2.
Hypothesis Hdt0 : dt_of s0 = init_dt *. lit 2.

Lemma dt_of_iter (k : nat) : dt_of (Nat.iter k body s0) = halved init_dt k.
Proof using Hbody Hdt0.
  unfold halved. induction k as [|k IH]; [done|].
  by rewrite !Nat.iter_succ, Hbody, IH.
Qed.

Lemma search_result_halved :
  halving_result_contract
    (fun fuel =>
       match while_fuel fuel
               (fun s => search_cond init_dt (dt_of s) (err_of s)) body s0 with
       | Some s => Some (dt_of s)
       | None => None
       end)
    init_dt (fun j => err_of (Nat.iter j body s0)).
Proof using Hbody Hdt0.
  intros fuel d Hd.
  destruct (while_fuel fuel _ body s0) as [s|] eqn:Hw; [|done].
  injection Hd as <-.
  apply while_fuel_result in Hw as (k & Hk & -> & Hat & Hbefore).
  exists k. split; [done|]. split; [apply dt_of_iter|].
  split; [done|]. split.
  - intros j Hj. rewrite <- dt_of_iter. by apply Hbefore.
  - intros fuel' Hfuel.
    by rewrite (while_fuel_exit _ body k fuel' s0) by (done || lia).
Qed.

End SearchResult.

(** Whatever the arithmetic and the callbacks, a search that returns gives
    the doubled probe step halved [k] times, where [k >= 0] is the number of
    passes made: [err > 1 && init_dt / dt < 10000] is false at the step
    returned and was true at every candidate before it.  No pass is made,
    and the doubled probe step is returned, when the test fails at once.
    The step does not depend on the fuel. *)
Theorem search_returns_first_rejected_halving {F : Type} {A : Arith F}
    (drift : drift_fn F) (kick : kick_fn F) (func : func_fn F) (dim : nat)
    (yo qo po : list F) (init_dt : F) (t : list F) (rtol atol : F)
    (tol_scaling : tol_scaling_fn F) (metric : metric_fn F) :
  halving_result_contract
    (fun fuel => leapfrog_estimate_step fuel drift kick dim yo init_dt t rtol
                   atol tol_scaling metric)
    init_dt
    (fun j => ss_err (leapfrog_search_state drift kick dim yo init_dt t rtol
                        atol tol_scaling metric j)) /\
  halving_result_contract
    (fun fuel => symplec4_estimate_step fuel drift kick dim yo init_dt t rtol
                   atol tol_scaling metric)
    init_dt
    (fun j => ss_err (symplec4_search_state drift kick dim yo init_dt t rtol
                        atol tol_scaling metric j)) /\
  halving_result_contract
    (fun fuel => symplec6_estimate_step fuel func dim qo po init_dt t rtol
                   atol)
    init_dt
    (fun j => e6_err (symplec6_search_state func dim qo po init_dt t rtol
                        atol j)).
Proof.
  split; [|split].
  - apply (search_result_halved ss_dt ss_err
             (leapfrog_search_body drift kick dim yo metric
                (estimate_scale2 dim rtol atol (tol_scaling yo)))
             (leapfrog_search_init dim init_dt t) init_dt); done.
  - apply (search_result_halved ss_dt ss_err
             (symplec4_search_body drift kick dim yo t metric
                (estimate_scale2 dim rtol atol (tol_scaling yo)))
             (symplec4_search_init dim init_dt) init_dt); done.
  - apply (search_result_halved e6_dt e6_err
             (symplec6_search_body func dim qo po
                (symplec6_scale dim qo po rtol atol))
             (symplec6_search_init dim init_dt t) init_dt); done.
Qed.

(** ** The step found by a search divides the interval *)

Section SearchedStep.
Local Open Scope R_scope.

Lemma R_trunc_INR (n : nat) : R_trunc (INR n) = Z.of_nat n.
Proof.
  unfold R_trunc. destruct (Rle_dec 0 (INR n)) as [|Hneg].
  - apply Int_part_INR.
  - exfalso. apply Hneg, pos_INR.
Qed.

Lemma halving_divides (result : nat -> option R) (init_dt : R)
    (dt_of err_of : nat -> R) (fuel : nat) :
  init_dt <> 0 -> (15 <= fuel)%nat ->
  halving_search_contract result init_dt dt_of err_of ->
  exists (d : R) (k : nat),
    result fuel = Some d /\ (1 <= k <= 15)%nat /\
    to_long (init_dt /. d)%dbl = Z.of_nat (2 ^ (k - 1)) /\
    INR (2 ^ (k - 1)) * d = init_dt.
Proof.
  intros Hinit Hfuel (_ & _ & k & Hk & Hres & _).
  exists (init_dt * 2 / 2 ^ k), k. split; [by apply Hres|]. split; [done|].
  assert (Hpow : INR (2 ^ (k - 1)) = 2 ^ (k - 1)).
  { rewrite pow_INR. f_equal. }
  assert (Hk2 : 2 ^ k = 2 * 2 ^ (k - 1)).
  { replace k with (Datatypes.S (k - 1)) at 1 by lia. reflexivity. }
  pose proof (pow2_pos (k - 1)) as Hpos.
  split.
  - cbn [to_long fdiv R_arith]. rewrite <- R_trunc_INR. f_equal.
    rewrite Hpow, Hk2. field. split; lra.
  - rewrite Hpow, Hk2. field. lra.
Qed.

(** In exact arithmetic and for a probe step [init_dt <> 0], the number of
    sub-steps [(long) (init_dt / dt)] that a scheme takes with the step of
    its search is a power of two between 1 and 16384, and that many steps
    make up the interval exactly. *)
Theorem searched_step_divides_interval (drift : drift_fn R)
    (kick : kick_fn R) (func : func_fn R) (dim : nat) (yo qo po : list R)
    (init_dt : R) (t : list R) (rtol atol : R)
    (tol_scaling : tol_scaling_fn R) (metric : metric_fn R) (fuel : nat) :
  init_dt <> 0 -> (15 <= fuel)%nat ->
  (exists (d : R) (k : nat),
     leapfrog_estimate_step fuel drift kick dim yo init_dt t rtol atol
       tol_scaling metric = Some d /\ (1 <= k <= 15)%nat /\
     to_long (init_dt /. d)%dbl = Z.of_nat (2 ^ (k - 1)) /\
     INR (2 ^ (k - 1)) * d = init_dt) /\
  (exists (d : R) (k : nat),
     symplec4_estimate_step fuel drift kick dim yo init_dt t rtol atol
       tol_scaling metric = Some d /\ (1 <= k <= 15)%nat /\
     to_long (init_dt /. d)%dbl = Z.of_nat (2 ^ (k - 1)) /\
     INR (2 ^ (k - 1)) * d = init_dt) /\
  (exists (d : R) (k : nat),
     symplec6_estimate_step fuel func dim qo po init_dt t rtol atol = Some d /\
     (1 <= k <= 15)%nat /\
     to_long (init_dt /. d)%dbl = Z.of_nat (2 ^ (k - 1)) /\
     INR (2 ^ (k - 1)) * d = init_dt).
Proof.
  intros Hinit Hfuel. split; [|split].
  - apply (halving_divides _ init_dt _ _ fuel Hinit Hfuel
             (leapfrog_halving drift kick dim yo init_dt t rtol atol
                tol_scaling metric Hinit)).
  - apply (halving_divides _ init_dt _ _ fuel Hinit Hfuel
             (symplec4_halving drift kick dim yo init_dt t rtol atol
                tol_scaling metric Hinit)).
  - apply (halving_divides _ init_dt _ _ fuel Hinit Hfuel
             (symplec6_halving func dim qo po init_dt t rtol atol Hinit)).
Qed.

End SearchedStep.

(** ** The scale of the sixth-order search *)

Section Scale6.
Local Open Scope R_scope.

Lemma max_fabs_loop (y : list R) (n : nat) :
  let M := for_loop 1 n
             (fun ii max_val =>
                if (max_val <. c_fabs (rd y ii))%dbl then c_fabs (rd y ii)
                else max_val)
             (c_fabs (rd y 0)) in
  (forall i, (i < n)%nat \/ i = 0%nat -> Rabs (rd y i) <= M) /\
  exists j, ((j < n)%nat \/ j = 0%nat) /\ M = Rabs (rd y j).
Proof.
  induction n as [|n IH].
  - cbn zeta. unfold for_loop. simpl. split.
    + intros i [Hi| ->]; [lia | lra].
    + exists 0%nat. split; [by right | done].
  - destruct n as [|n].
    + cbn zeta. unfold for_loop. simpl. split.
      * intros i [Hi| ->]; [replace i with 0%nat by lia|]; lra.
      * exists 0%nat. split; [by right | done].
    + cbn zeta in IH |- * . rewrite for_loop_snoc by lia.
      set (M := for_loop 1 (Datatypes.S n) _ _) in IH |- * .
      destruct IH as [Hub (j & Hj & HM)].
      cbn [flt c_fabs R_arith]. unfold R_ltb.
      destruct (Rlt_dec M (Rabs (rd y (Datatypes.S n)))) as [Hlt|Hge].
      * split.
        -- intros i [Hi| ->].
           ++ destruct (decide (i = Datatypes.S n)) as [->|Hne]; [lra|].
              specialize (Hub i ltac:(left; lia)). lra.
           ++ specialize (Hub 0%nat ltac:(by right)). lra.
        -- exists (Datatypes.S n). split; [left; lia | done].
      * split.
        -- intros i [Hi| ->].
           ++ destruct (decide (i = Datatypes.S n)) as [->|Hne]; [lra|].
              apply Hub. left. lia.
           ++ apply Hub. by right.
        -- exists j. split; [|done]. destruct Hj; [left; lia | by right].
Qed.

(** [max_fabs dim y] is the largest absolute value among the first [dim]
    cells of [y]; the first cell is read also when [dim] is 0. *)
Theorem max_fabs_is_the_largest (dim : nat) (y : list R) :
  (forall i, (i < dim)%nat -> Rabs (rd y i) <= max_fabs dim y) /\
  Rabs (rd y 0) <= max_fabs dim y /\
  exists j, ((j < dim)%nat \/ j = 0%nat) /\ max_fabs dim y = Rabs (rd y j).
Proof.
  destruct (max_fabs_loop y dim) as [Hub Hex]. split; [|split].
  - intros i Hi. apply Hub. by left.
  - apply Hub. by right.
  - exact Hex.
Qed.

Lemma s6_scale_of_ln (rtol atol max_val : R) :
  s6_scale_of rtol atol max_val = ln (exp atol + exp (rtol * max_val)).
Proof.
  unfold s6_scale_of. cbn [c_fmax c_log c_exp fadd fsub fmul R_arith].
  set (c := Rmax atol (rtol * max_val)).
  pose proof (exp_pos atol). pose proof (exp_pos (rtol * max_val)).
  pose proof (exp_pos (- c)).
  replace (exp (atol - c) + exp (rtol * max_val - c))
    with ((exp atol + exp (rtol * max_val)) * exp (- c))
    by (unfold Rminus; rewrite !exp_plus; ring).
  rewrite ln_mult by lra. rewrite ln_exp. lra.
Qed.

Lemma symplec6_scale_cells (dim : nat) (qo po : list R)
    (rtol atol : R) (i : nat) :
  (i < dim)%nat ->
  rd (symplec6_scale dim qo po rtol atol) i
  = ln (exp atol + exp (rtol * max_fabs dim qo)) /\
  rd (symplec6_scale dim qo po rtol atol) (dim + i)
  = ln (exp atol + exp (rtol * max_fabs dim po)).
Proof.
  intros Hi. unfold symplec6_scale. cbn zeta.
  rewrite (for_loop_ext 0 dim
             (fun ii (scale : list R) =>
                <[(ii + dim)%nat := s6_scale_of rtol atol (max_fabs dim po)]>
                  scale)
             (fun ii (scale : list R) =>
                <[(dim + ii)%nat := s6_scale_of rtol atol (max_fabs dim po)]>
                  scale))
    by (intros ii x; f_equal; lia).
  change (for_loop 0 dim
            (fun ii scale => <[(dim + ii)%nat := ?v]> scale) ?l)
    with (fill dim dim (fun _ => v) l).
  change (for_loop 0 dim (fun ii scale => <[ii := ?v]> scale) ?l)
    with (fill dim 0 (fun _ => v) l).
  assert (Hlen : length (malloc (2 * dim) : list R) = (2 * dim)%nat)
    by apply malloc_length.
  split.
  - unfold rd at 1. rewrite (fill_lookup_out dim dim _ _ i) by lia.
    rewrite (fill_lookup_in dim 0 _ _ i) by (rewrite ?Hlen; lia).
    apply s6_scale_of_ln.
  - rewrite (rd_fill_in dim dim _ _ i) by (rewrite ?fill_length, ?Hlen; lia).
    apply s6_scale_of_ln.
Qed.

(** In exact arithmetic the scale of [symplec6_estimate_step], computed
    with the shift by the larger exponent, is
    [log (exp atol + exp (rtol * max |q|))] in the cells of the positions and
    the same with [max |p|] in the cells of the momenta. *)
Theorem symplec6_scale_is_log_sum_exp (dim : nat) (qo po : list R)
    (rtol atol : R) (i : nat) :
  (i < dim)%nat ->
  rd (symplec6_scale dim qo po rtol atol) i
  = ln (exp atol + exp (rtol * max_fabs dim qo)) /\
  rd (symplec6_scale dim qo po rtol atol) (dim + i)
  = ln (exp atol + exp (rtol * max_fabs dim po)).
Proof. apply symplec6_scale_cells. Qed.

End Scale6.

(** ** Composing the step primitives *)

Section LeapCompose.
Local Open Scope R_scope.

(** In exact arithmetic, advancing positions by [a] and then by [b] with
    the same momenta is advancing by [a + b], and advancing by 0 copies
    them, cell by cell; likewise for momenta.  This is what licenses the
    drifts for [(c8+c1)*dt] and [(c4+c1)*dt] that join two steps. *)
Theorem leap_steps_add (dim : nat) (q p acc : list R) (a b : R)
    (b1 b2 b3 : list R) (i : nat) :
  (dim <= length b1)%nat -> (dim <= length b2)%nat ->
  (dim <= length b3)%nat -> (i < dim)%nat ->
  rd (leapfrog_leapq dim (leapfrog_leapq dim q p a b1) p b b2) i
  = rd (leapfrog_leapq dim q p (a + b) b3) i /\
  rd (leapfrog_leapp dim (leapfrog_leapp dim p a acc b1) b acc b2) i
  = rd (leapfrog_leapp dim p (a + b) acc b3) i /\
  rd (leapfrog_leapq dim q p 0 b1) i = rd q i /\
  rd (leapfrog_leapp dim p 0 acc b1) i = rd p i.
Proof.
  intros H1 H2 H3 Hi.
  rewrite !leapfrog_leapq_fill, !leapfrog_leapp_fill.
  rewrite !(rd_fill_in dim 0 _ _ i) by (simpl; lia).
  cbn [fadd fmul R_arith]. repeat split; ring.
Qed.

End LeapCompose.

(** ** The output times that are read *)

Section OnlyTwoTimes.
Context {F : Type} {A : Arith F}.
Variables (fuel : nat) (drift : drift_fn F) (kick : kick_fn F)
  (func : func_fn F) (dim : nat) (yo : list F) (nt : Z) (dt : F)
  (t t' : list F) (rtol atol : F) (tol_scaling : tol_scaling_fn F)
  (metric : metric_fn F) (construct_Lz : bool) (result : list F)
  (interrupted : bool) (sigint : nat -> bool).

(** The three integrators read the output times only through [t[0]] and
    [t[1]]: two calls whose time vectors agree on these two cells return the
    same, whatever the later cells hold. *)
Theorem only_first_two_times_are_read :
  rd t 0 = rd t' 0 -> rd t 1 = rd t' 1 ->
  leapfrog fuel drift kick dim yo nt dt t rtol atol tol_scaling metric
    construct_Lz result interrupted sigint
  = leapfrog fuel drift kick dim yo nt dt t' rtol atol tol_scaling metric
      construct_Lz result interrupted sigint /\
  symplec4 fuel drift kick dim yo nt dt t rtol atol tol_scaling metric
    construct_Lz result interrupted sigint
  = symplec4 fuel drift kick dim yo nt dt t' rtol atol tol_scaling metric
      construct_Lz result interrupted sigint /\
  symplec6 fuel func dim yo nt dt t rtol atol result interrupted sigint
  = symplec6 fuel func dim yo nt dt t' rtol atol result interrupted sigint.
Proof.
  intros H0 H1. repeat split.
  - unfold leapfrog, leapfrog_dt, leapfrog_estimate_step, leapfrog_search_init.
    rewrite H0, H1. reflexivity.
  - unfold symplec4, symplec4_dt, symplec4_estimate_step.
    assert (Hb : forall yo' scale2,
              symplec4_search_body drift kick dim yo' t metric scale2
              = symplec4_search_body drift kick dim yo' t' metric scale2).
    { intros. unfold symplec4_search_body, symplec4_trial. by rewrite H0. }
    rewrite H0, H1. cbn zeta. by rewrite Hb.
  - unfold symplec6, symplec6_dt, symplec6_estimate_step, symplec6_search_init.
    rewrite H0, H1. reflexivity.
Qed.
End OnlyTwoTimes.

(** ** The searches probe the integrators *)

Section Probes.
Local Open Scope R_scope.

Lemma lit_3 : lit 3 = 3.
Proof. cbn. unfold Q2R. simpl. lra. Qed.

Lemma lit_4 : lit 4 = 4.
Proof. cbn. unfold Q2R. simpl. lra. Qed.

(** In exact arithmetic the two trial trajectories of a pass of
    [leapfrog_estimate_step] are macro intervals of [leapfrog] itself, begun
    at the same time from the copy of the state: one with one sub-step of
    [dt] and one with two sub-steps of [dt/2]. *)
Theorem leapfrog_search_probes_the_integrator (drift : drift_fn R)
    (kick : kick_fn R) (dim : nat) (yo : list R) (to dt : R)
    (y11 y12 result : list R) (roff : nat) (c : bool) :
  (leapfrog_trial drift kick dim yo to dt y11 y12).1
  = rs_yo (leapfrog_interval drift kick dim dt 1 c
             {| rs_yo := (reset_y dim yo y11 y12).1; rs_to := to;
                rs_result := result; rs_roff := roff |}) /\
  (leapfrog_trial drift kick dim yo to dt y11 y12).2
  = rs_yo (leapfrog_interval drift kick dim (dt / 2) 2 c
             {| rs_yo := (reset_y dim yo y11 y12).2; rs_to := to;
                rs_result := result; rs_roff := roff |}).
Proof.
  split; [reflexivity|].
  unfold leapfrog_trial, leapfrog_interval, leapfrog_substeps.
  change (Z.to_nat (2 - 1)) with 1%nat.
  cbn [for_loop seq Nat.sub fold_left fst snd rs_yo rs_to fadd fdiv fmul
       R_arith].
  rewrite lit_2, lit_3, lit_4.
  replace (dt / 2 / 2) with (dt / 4) by lra.
  replace (to + dt / 2 + dt / 4) with (to + 3 * dt / 4) by lra.
  reflexivity.
Qed.

(** In exact arithmetic the two trial trajectories of a pass of
    [symplec4_estimate_step] are macro intervals of [symplec4] itself: one
    with one sub-step of [dt] begun at [t[0]], and one with two sub-steps of
    [dt/2] begun at [t[0] - 0.6756035959798287 * dt], because [to] is set
    back by [dt] after it was advanced by [c1*dt], [c2*dt] and [c3*dt]
    only. *)
Theorem symplec4_search_probes_the_integrator (drift : drift_fn R)
    (kick : kick_fn R) (dim : nat) (yo t : list R) (dt : R)
    (y11 y12 result : list R) (roff : nat) (c : bool) :
  (symplec4_trial drift kick dim yo t dt y11 y12).1.1
  = rs_yo (symplec4_interval drift kick dim dt 1 c
             {| rs_yo := (reset_y dim yo y11 y12).1; rs_to := rd t 0;
                rs_result := result; rs_roff := roff |}) /\
  (symplec4_trial drift kick dim yo t dt y11 y12).1.2
  = rs_yo (symplec4_interval drift kick dim (dt / 2) 2 c
             {| rs_yo := (reset_y dim yo y11 y12).2;
                rs_to := rd t 0 - lit 0.6756035959798287 * dt;
                rs_result := result; rs_roff := roff |}).
Proof.
  split; [reflexivity|].
  unfold symplec4_trial, symplec4_interval, symplec4_substeps.
  change (Z.to_nat (2 - 1)) with 1%nat.
  cbn [for_loop seq Nat.sub fold_left fst snd rs_yo rs_to fadd fdiv fmul fsub
       R_arith].
  rewrite lit_2.
  replace (rd t 0 + s4_c1 * dt + s4_c2 * dt + s4_c3 * dt - dt)
    with (rd t 0 - Q2R 0.6756035959798287 * dt).
  - reflexivity.
  - unfold s4_c3, s4_c2, s4_c1. cbn [lit R_arith]. unfold Q2R. simpl. lra.
Qed.

End Probes.

(** ** Sub-steps and time symmetry of the fourth-order scheme *)

Section Symplec4Steps.
Local Open Scope R_scope.
Variables (drift : drift_fn R) (kick : kick_fn R).
Hypothesis Hadd : forall a b y, drift a (drift b y) = drift (a + b) y.

Lemma symplec4_substeps_front (dt : R) (m : nat) (y : list R) (to : R)
    (s1 : run_state R) (dim : nat) (c : bool) (res : list R) (roff : nat) :
  same_motion s1
    (symplec4_interval drift kick dim dt 1 c
       {| rs_yo := y; rs_to := to; rs_result := res; rs_roff := roff |}) ->
  symplec4_substeps drift kick dt (Z.of_nat m + 2)
    (drift (s4_c1 *. dt)%dbl y) (to +. s4_c1 *. dt)%dbl
  = symplec4_substeps drift kick dt (Z.of_nat m + 1)
      (drift (s4_c1 *. dt)%dbl (rs_yo s1)) (rs_to s1 +. s4_c1 *. dt)%dbl.
Proof using Hadd.
  intros [Hy Ht]. rewrite Hy, Ht. unfold symplec4_substeps.
  replace (Z.to_nat (Z.of_nat m + 2 - 1)) with (S m) by lia.
  replace (Z.to_nat (Z.of_nat m + 1 - 1)) with m by lia.
  rewrite for_loop_front. f_equal.
  unfold symplec4_interval, symplec4_substeps.
  change (Z.to_nat (1 - 1)) with 0%nat. rewrite for_loop_empty.
  cbn [fst snd rs_yo rs_to]. f_equal.
  - rewrite Hadd. f_equal. unfold s4_c41. cbn [fadd fmul R_arith]. lra.
  - unfold s4_c41. cbn [fadd fmul R_arith]. lra.
Qed.

Lemma symplec4_interval_front (dim : nat) (dt : R) (m : nat) (c c' c'' : bool)
    (s : run_state R) :
  same_motion (symplec4_interval drift kick dim dt (Z.of_nat m + 2) c s)
    (symplec4_interval drift kick dim dt (Z.of_nat m + 1) c'
       (symplec4_interval drift kick dim dt 1 c'' s)).
Proof using Hadd.
  unfold same_motion.
  unfold symplec4_interval at 1 3. cbn [rs_yo rs_to].
  unfold symplec4_interval at 2 4. cbn [rs_yo rs_to].
  rewrite (symplec4_substeps_front dt m (rs_yo s) (rs_to s)
             (symplec4_interval drift kick dim dt 1 c'' s) dim c''
             (rs_result s) (rs_roff s)).
  - done.
  - apply symplec4_interval_motion. done.
Qed.

Lemma symplec4_interval_iter (dim : nat) (dt : R) (c c' : bool) (m : nat) :
  forall s : run_state R,
    same_motion (symplec4_interval drift kick dim dt (Z.of_nat m + 1) c s)
      (Nat.iter (S m) (symplec4_interval drift kick dim dt 1 c') s).
Proof using Hadd.
  induction m as [|m IH]; intros s.
  - apply symplec4_interval_motion. done.
  - rewrite Nat.iter_succ_r.
    destruct (IH (symplec4_interval drift kick dim dt 1 c' s)) as [Hy Ht].
    destruct (symplec4_interval_front dim dt m c c c' s) as [Hy' Ht'].
    replace (Z.of_nat (S m) + 1)%Z with (Z.of_nat m + 2)%Z by lia.
    split; congruence.
Qed.

Lemma symplec4_interval_single (dim : nat) (dt : R) (ndt : Z)
    (c c' : bool) (s : run_state R) :
  (1 <= ndt)%Z ->
  same_motion (symplec4_interval drift kick dim dt ndt c s)
    (Nat.iter (Z.to_nat ndt) (symplec4_interval drift kick dim dt 1 c') s).
Proof using Hadd.
  intros Hndt.
  replace ndt with (Z.of_nat (Z.to_nat (ndt - 1)) + 1)%Z at 1 by lia.
  replace (Z.to_nat ndt) with (S (Z.to_nat (ndt - 1))) by lia.
  apply symplec4_interval_iter.
Qed.

(** In exact arithmetic and for a drift that is additive in its step, a
    macro interval of [symplec4] with [ndt >= 1] sub-steps moves the state
    and the time as [ndt] intervals of one sub-step in a row: the drift of
    [(c4+c1)*dt] that joins two sub-steps changes nothing. *)
Theorem symplec4_interval_is_n_single_steps (dim : nat) (dt : R) (ndt : Z)
    (c c' : bool) (s : run_state R) :
  (1 <= ndt)%Z ->
  same_motion (symplec4_interval drift kick dim dt ndt c s)
    (Nat.iter (Z.to_nat ndt) (symplec4_interval drift kick dim dt 1 c') s).
Proof using Hadd. apply symplec4_interval_single. Qed.

Hypothesis Hzero : forall y, drift 0 y = y.
Hypothesis Hkick : forall a t y, kick (- a) t (kick a t y) = y.

Lemma symplec4_step_back (dim : nat) (dt : R) (c c' : bool)
    (s s' : run_state R) :
  same_motion s' (symplec4_interval drift kick dim dt 1 c s) ->
  same_motion (symplec4_interval drift kick dim (- dt) 1 c' s') s.
Proof using Hadd Hzero Hkick.
  intros [Hy Ht]. unfold same_motion.
  unfold symplec4_interval at 1 2. cbn [rs_yo rs_to].
  rewrite Hy, Ht. unfold symplec4_interval, symplec4_substeps.
  change (Z.to_nat (1 - 1)) with 0%nat. rewrite !for_loop_empty.
  cbn [fst snd rs_yo rs_to]. unfold s4_c4, s4_d3, s4_c3.
  cbn [fadd fmul R_arith].
  set (c1 := s4_c1). set (c2 := s4_c2). set (d1 := s4_d1). set (d2 := s4_d2).
  set (t0 := rs_to s). set (y0 := rs_yo s).
  assert (Hd : forall a b y, a + b = 0 -> drift a (drift b y) = y).
  { intros a b y Hab. by rewrite Hadd, Hab, Hzero. }
  assert (Hk : forall a b t t' y, a = - b -> t = t' ->
                 kick a t (kick b t' y) = y).
  { intros a b t t' y -> ->. apply Hkick. }
  split.
  - rewrite (Hd (c1 * - dt)) by lra.
    rewrite (Hk (d1 * - dt)) by lra.
    rewrite (Hd (c2 * - dt)) by lra.
    rewrite (Hk (d2 * - dt)) by lra.
    rewrite (Hd (c2 * - dt)) by lra.
    rewrite (Hk (d1 * - dt)) by lra.
    rewrite (Hd (c1 * - dt)) by lra. done.
  - lra.
Qed.

Lemma symplec4_steps_back (dim : nat) (dt : R) (c c' : bool) (n : nat) :
  forall s s' : run_state R,
    same_motion s' (Nat.iter n (symplec4_interval drift kick dim dt 1 c) s) ->
    same_motion (Nat.iter n (symplec4_interval drift kick dim (- dt) 1 c') s')
      s.
Proof using Hadd Hzero Hkick.
  induction n as [|n IH]; intros s s' Hs; [done|].
  rewrite Nat.iter_succ_r. rewrite Nat.iter_succ in Hs.
  apply IH. by apply symplec4_step_back with (c := c).
Qed.

(** In exact arithmetic, for a drift additive in its step and a kick that
    its negative step undoes, a macro interval of [symplec4] followed by one
    with the step [- dt] from the state and the time reached gives back the
    state and the time it started from: the coefficients are symmetric
    ([c4 = c1], [c3 = c2], [d3 = d1]). *)
Theorem symplec4_interval_reverses (dim : nat) (dt : R) (ndt : Z)
    (c c' : bool) (s s' : run_state R) :
  (1 <= ndt)%Z ->
  same_motion s' (symplec4_interval drift kick dim dt ndt c s) ->
  same_motion (symplec4_interval drift kick dim (- dt) ndt c' s') s.
Proof using Hadd Hzero Hkick.
  intros Hndt [Hy Ht].
  destruct (symplec4_interval_single dim dt ndt c c s Hndt) as [Hfy Hft].
  destruct (symplec4_interval_single dim (- dt) ndt c' c' s' Hndt)
    as [Hby Hbt].
  destruct (symplec4_steps_back dim dt c c' (Z.to_nat ndt) s s') as [Hry Hrt].
  { split; congruence. }
  split; congruence.
Qed.

End Symplec4Steps.

(** ** The cells of the sixth-order scheme *)

Section Cells.
Context {F : Type} {A : Arith F}.

Lemma fill_full (n : nat) (f : nat -> F) (l : list F) :
  length l = n -> fill n 0 f l = map f (seq 0 n).
Proof.
  intros Hl. apply list_eq. intros j.
  destruct (decide (j < n)) as [Hj|Hj].
  - pose proof (fill_lookup_in n 0 f l j Hj ltac:(simpl; lia)) as H.
    simpl in H. rewrite H. rewrite list_lookup_fmap.
    rewrite lookup_seq_lt by done. done.
  - rewrite fill_lookup_out by lia.
    rewrite lookup_ge_None_2 by lia.
    symmetry. apply lookup_ge_None_2. rewrite length_map, length_seq. lia.
Qed.

Lemma leapq_full dim (q p : list F) (dt : F) (qn : list F) :
  length qn = dim -> leapfrog_leapq dim q p dt qn = leapq_cells dim q p dt.
Proof. intros H. rewrite leapfrog_leapq_fill. by apply fill_full. Qed.

Lemma leapp_full dim (p : list F) (dt : F) (a pn : list F) :
  length pn = dim -> leapfrog_leapp dim p dt a pn = leapp_cells dim p dt a.
Proof. intros H. rewrite leapfrog_leapp_fill. by apply fill_full. Qed.

Lemma leapq_cells_length dim (q p : list F) (dt : F) :
  length (leapq_cells dim q p dt) = dim.
Proof. unfold leapq_cells. by rewrite length_map, length_seq. Qed.

Lemma leapp_cells_length dim (p : list F) (dt : F) (a : list F) :
  length (leapp_cells dim p dt a) = dim.
Proof. unfold leapp_cells. by rewrite length_map, length_seq. Qed.

Lemma leapq_length dim (q p : list F) (dt : F) (qn : list F) :
  length (leapfrog_leapq dim q p dt qn) = length qn.
Proof. rewrite leapfrog_leapq_fill. apply fill_length. Qed.

Lemma leapp_length dim (p : list F) (dt : F) (a pn : list F) :
  length (leapfrog_leapp dim p dt a pn) = length pn.
Proof. rewrite leapfrog_leapp_fill. apply fill_length. Qed.

Lemma rd_cells (n : nat) (f : nat -> F) (i : nat) :
  i < n -> rd (map f (seq 0 n)) i = f i.
Proof.
  intros Hi. unfold rd. rewrite list_lookup_fmap.
  by rewrite lookup_seq_lt by done.
Qed.

Lemma cells_id (n : nat) (l : list F) :
  length l = n -> map (rd l) (seq 0 n) = l.
Proof.
  intros Hl. apply list_eq. intros j. rewrite list_lookup_fmap.
  destruct (decide (j < n)) as [Hj|Hj].
  - rewrite lookup_seq_lt by done. simpl. unfold rd.
    destruct (lookup_lt_is_Some_2 l j ltac:(lia)) as [x Hx]. by rewrite Hx.
  - rewrite lookup_seq_ge by lia. simpl. symmetry.
    apply lookup_ge_None_2. lia.
Qed.

Lemma copy_full (n : nat) (src dst : list F) :
  length dst = n -> length src = n ->
  for_loop 0 n (fun kk po => <[kk := rd src kk]> po) dst = src.
Proof.
  intros Hd Hs.
  change (fill n 0 (rd src) dst = src).
  rewrite fill_full by done. by apply cells_id.
Qed.

Lemma copy_pair_full (n : nat) (s1 s2 d1 d2 : list F) :
  length d1 = n -> length d2 = n -> length s1 = n -> length s2 = n ->
  for_loop 0 n
    (fun kk qp => (<[kk := rd s1 kk]> qp.1, <[kk := rd s2 kk]> qp.2)) (d1, d2)
  = (s1, s2).
Proof.
  intros. rewrite (for_loop_pair n (fun kk q => <[kk := rd s1 kk]> q)
                     (fun kk p => <[kk := rd s2 kk]> p)).
  by rewrite !copy_full.
Qed.

End Cells.


(** Symbolic execution of the straight-line code of [symplec6]: each [let]
    is taken in turn; a buffer written by [leapfrog_leapq] or
    [leapfrog_leapp] becomes a variable with the equation of its cells, a
    copy loop is replaced by its source, anything else is substituted. *)
Ltac sx_simpl e :=
  eval cbn [s6_qo s6_po s6_q12 s6_p12 s6_a s6_to e6_dt e6_err e6_to e6_q11
            e6_q12 e6_p11 e6_p12 e6_qtmp e6_ptmp e6_a fst snd] in e.

Ltac sx_bind G b e' tac :=
  let v := fresh "v" in
  pose (v := e');
  let g := context G [b v] in
  change g; cbv beta; tac v.

Ltac sx_step :=
  lazymatch goal with
  | |- context G [let x := ?e in @?b x] =>
      let e' := sx_simpl e in
      lazymatch e' with
      | leapfrog_leapq ?d ?q ?p ?h ?buf =>
          sx_bind G b e' ltac:(fun v =>
            let Hv := fresh "Hv" in
            let Hl := fresh "Hl" in
            assert (Hv : v = leapq_cells d q p h)
              by (apply leapq_full; assumption);
            assert (Hl : length v = d)
              by (rewrite Hv; apply leapq_cells_length);
            clearbody v)
      | leapfrog_leapp ?d ?p ?h ?a ?buf =>
          sx_bind G b e' ltac:(fun v =>
            let Hv := fresh "Hv" in
            let Hl := fresh "Hl" in
            assert (Hv : v = leapp_cells d p h a)
              by (apply leapp_full; assumption);
            assert (Hl : length v = d)
              by (rewrite Hv; apply leapp_cells_length);
            clearbody v)
      | for_loop 0 ?d (fun kk po => <[kk := rd ?src kk]> po) ?dst =>
          sx_bind G b e' ltac:(fun v =>
            let Hv := fresh "Hv" in
            assert (Hv : v = src) by (apply copy_full; assumption);
            clearbody v; subst v)
      | for_loop 0 ?d
          (fun kk qp => (<[kk := rd ?s1 kk]> qp.1, <[kk := rd ?s2 kk]> qp.2))
          (?d1, ?d2) =>
          sx_bind G b e' ltac:(fun v =>
            let Hv := fresh "Hv" in
            assert (Hv : v = (s1, s2)) by (apply copy_pair_full; assumption);
            clearbody v; subst v)
      | _ =>
          let g := context G [b e'] in
          change g; cbv beta
      end
  end.

(** Evaluation of the composition of drifts and kicks along the equations
    that [sx_step] has left. *)
Ltac sx_fold :=
  repeat match goal with
    | Hv : ?v = leapq_cells ?d ?q ?p ?h |- context [leapq_cells ?d ?q ?p ?h] =>
        rewrite <- Hv
    | Hv : ?v = leapp_cells ?d ?p ?h ?a |- context [leapp_cells ?d ?p ?h ?a] =>
        rewrite <- Hv
    end.

Ltac sx_eval tac :=
  repeat (
    lazymatch goal with
    | |- context G [let x := ?e in @?b x] =>
        let e' := eval cbv beta iota delta [s6_drift s6_kick fst snd] in e in
        let g := context G [b e'] in
        change g; cbv beta; tac; sx_fold
    end).

Section S6.
Context {F : Type} {A : Arith F}.
Variables (func : func_fn F) (dim : nat) (dt : F).

Lemma symplec6_steps_parts (ndt : Z) (s : s6_state F) :
  symplec6_steps func dim dt ndt s
  = symplec6_last func dim dt
      (for_loop 0 (Z.to_nat (ndt - 1))
         (fun _ s => symplec6_substep func dim dt s)
         (symplec6_first dim dt s)).
Proof. reflexivity. Qed.

Lemma copy_length (n : nat) (src dst : list F) :
  length (for_loop 0 n (fun kk po => <[kk := rd src kk]> po) dst)
  = length dst.
Proof. apply (fill_length n 0 (rd src) dst). Qed.

Lemma symplec6_first_sized (s : s6_state F) :
  s6_sized dim s -> s6_sized dim (symplec6_first dim dt s).
Proof.
  intros (Hqo & Hpo & Hq12 & Hp12). unfold s6_sized, symplec6_first.
  cbn [s6_qo s6_po s6_q12 s6_p12]. by rewrite leapq_length.
Qed.

Lemma symplec6_substep_sized (s : s6_state F) :
  s6_sized dim s -> s6_sized dim (symplec6_substep func dim dt s).
Proof.
  intros (Hqo & Hpo & Hq12 & Hp12). unfold s6_sized, symplec6_substep.
  cbn [s6_qo s6_po s6_q12 s6_p12].
  rewrite (for_loop_pair dim (fun kk q => <[kk := rd _ kk]> q)
             (fun kk p => <[kk := rd _ kk]> p)).
  cbn [fst snd]. rewrite !copy_length, !leapq_length, !leapp_length. done.
Qed.

Lemma symplec6_last_sized (s : s6_state F) :
  s6_sized dim s -> s6_sized dim (symplec6_last func dim dt s).
Proof.
  intros (Hqo & Hpo & Hq12 & Hp12). unfold s6_sized, symplec6_last.
  cbn [s6_qo s6_po s6_q12 s6_p12].
  rewrite !copy_length, !leapq_length, !leapp_length. done.
Qed.

Lemma symplec6_passes_sized (m : nat) (s : s6_state F) :
  s6_sized dim s ->
  s6_sized dim (for_loop 0 m (fun _ s => symplec6_substep func dim dt s) s).
Proof.
  intros Hs. induction m as [|m IH]; [by rewrite for_loop_empty|].
  rewrite for_loop_snoc by lia. by apply symplec6_substep_sized.
Qed.

Lemma symplec6_steps_sized (ndt : Z) (s : s6_state F) :
  s6_sized dim s -> s6_sized dim (symplec6_steps func dim dt ndt s).
Proof.
  intros Hs. rewrite symplec6_steps_parts.
  by apply symplec6_last_sized, symplec6_passes_sized, symplec6_first_sized.
Qed.

Lemma symplec6_first_work (s : s6_state F) :
  s6_sized dim s ->
  s6_work (symplec6_first dim dt s)
  = s6_drift dim (s6_c1 *. dt) (s6_live s).
Proof.
  intros (Hqo & Hpo & Hq12 & Hp12).
  unfold s6_work, symplec6_first, s6_drift, s6_live.
  cbn [s6_qo s6_po s6_q12 s6_to fst snd]. by rewrite leapq_full.
Qed.

Lemma symplec6_last_live (s : s6_state F) :
  s6_sized dim s ->
  s6_live (symplec6_last func dim dt s)
  = s6_drift dim (s6_c8 *. dt) (s6_middle func dim dt (s6_work s)).
Proof.
  destruct s as [qo po q12 p12 a to]. unfold s6_sized.
  cbn [s6_qo s6_po s6_q12 s6_p12 s6_a s6_to].
  intros (Hqo & Hpo & Hq12 & Hp12).
  unfold s6_work. cbn [s6_qo s6_po s6_q12 s6_p12 s6_a s6_to].
  cbv beta delta [symplec6_last].
  repeat sx_step.
  unfold s6_live. cbn [s6_qo s6_po s6_to].
  cbv beta delta [s6_middle].
  sx_eval idtac.
  cbv beta iota delta [s6_drift s6_kick fst snd]. sx_fold. reflexivity.
Qed.

Lemma symplec6_substep_work (s : s6_state F) :
  s6_sized dim s ->
  s6_work (symplec6_substep func dim dt s)
  = s6_drift dim ((s6_c8 +. s6_c1) *. dt)
      (s6_middle func dim dt (s6_work s)).
Proof.
  destruct s as [qo po q12 p12 a to]. unfold s6_sized.
  cbn [s6_qo s6_po s6_q12 s6_p12 s6_a s6_to].
  intros (Hqo & Hpo & Hq12 & Hp12).
  unfold s6_work at 2. cbn [s6_qo s6_po s6_q12 s6_p12 s6_a s6_to].
  cbv beta delta [symplec6_substep].
  repeat sx_step.
  unfold s6_work. cbn [s6_q12 s6_po s6_to].
  cbv beta delta [s6_middle].
  sx_eval idtac.
  cbv beta iota delta [s6_drift s6_kick fst snd]. sx_fold. reflexivity.
Qed.

End S6.

Section Sized3.
Context {F : Type} {A : Arith F}.
Variables (func : func_fn F) (dim : nat).

Lemma s6_drift_sized (h : F) (x : list F * list F * F) :
  s6_sized3 dim x -> s6_sized3 dim (s6_drift dim h x).
Proof.
  intros [Hq Hp]. split; [apply leapq_cells_length|done].
Qed.

Lemma s6_kick_sized (h : F) (x : list F * list F * F) :
  s6_sized3 dim x -> s6_sized3 dim (s6_kick func dim h x).
Proof.
  intros [Hq Hp]. split; [done|apply leapp_cells_length].
Qed.

End Sized3.

Ltac s6_sized_tac :=
  repeat lazymatch goal with
    | |- s6_sized3 _ (s6_drift _ _ _) => apply s6_drift_sized
    | |- s6_sized3 _ (s6_kick _ _ _ _) => apply s6_kick_sized
    end.

Section S6R.
Local Open Scope R_scope.
Variables (func : func_fn R) (dim : nat).

Lemma leapq_cells_add (q p : list R) (a b : R) :
  leapq_cells dim (leapq_cells dim q p a) p b = leapq_cells dim q p (a + b).
Proof.
  unfold leapq_cells at 1 3. apply map_ext_in. intros i Hi.
  apply in_seq in Hi. unfold leapq_cells. rewrite rd_cells by lia.
  cbn [fadd fmul R_arith]. lra.
Qed.

Lemma leapq_cells_zero (q p : list R) :
  length q = dim -> leapq_cells dim q p 0 = q.
Proof.
  intros Hq. rewrite <- (cells_id dim q Hq) at 2. unfold leapq_cells.
  apply map_ext. intros i. cbn [fadd fmul R_arith]. lra.
Qed.

Lemma leapp_cells_back (p acc : list R) (a b : R) :
  length p = dim -> a + b = 0 ->
  leapp_cells dim (leapp_cells dim p b acc) a acc = p.
Proof.
  intros Hp Hab. rewrite <- (cells_id dim p Hp) at 2.
  unfold leapp_cells at 1. apply map_ext_in. intros i Hi.
  apply in_seq in Hi. unfold leapp_cells. rewrite rd_cells by lia.
  cbn [fadd fmul R_arith]. nra.
Qed.

Lemma s6_drift_add (a b : R) (x : list R * list R * R) :
  s6_drift dim a (s6_drift dim b x) = s6_drift dim (b + a) x.
Proof.
  unfold s6_drift. cbn [fst snd]. rewrite leapq_cells_add.
  cbn [fadd R_arith]. f_equal. lra.
Qed.

Lemma s6_drift_back (a b : R) (x : list R * list R * R) :
  s6_sized3 dim x -> a + b = 0 -> s6_drift dim a (s6_drift dim b x) = x.
Proof.
  intros [Hq Hp] Hab. rewrite s6_drift_add.
  replace (b + a) with 0 by lra. destruct x as [[q p] t].
  unfold s6_drift. cbn [fst snd] in * . rewrite leapq_cells_zero by done.
  cbn [fadd R_arith]. f_equal. lra.
Qed.

Lemma s6_kick_back (a b : R) (x : list R * list R * R) :
  s6_sized3 dim x -> a + b = 0 ->
  s6_kick func dim a (s6_kick func dim b x) = x.
Proof.
  intros [Hq Hp] Hab. destruct x as [[q p] t]. unfold s6_kick.
  cbn [fst snd] in * . by rewrite leapp_cells_back.
Qed.

Lemma s6_step_sized (dt : R) (x : list R * list R * R) :
  s6_sized3 dim x -> s6_sized3 dim (s6_step func dim dt x).
Proof.
  intros Hx. unfold s6_step, s6_middle. cbv zeta.
  s6_sized_tac. done.
Qed.

Lemma s6_step_back (dt : R) (x : list R * list R * R) :
  s6_sized3 dim x -> s6_step func dim (- dt) (s6_step func dim dt x) = x.
Proof.
  intros Hx. unfold s6_step, s6_middle. cbv zeta.
  unfold s6_c8, s6_c7, s6_c6, s6_c5, s6_d7, s6_d6, s6_d5.
  cbn [fmul R_arith].
  repeat match goal with
    | |- context [s6_drift dim ?a (s6_drift dim ?b ?y)] =>
        rewrite (s6_drift_back a b y);
        [| s6_sized_tac; exact Hx | lra]
    | |- context [s6_kick func dim ?a (s6_kick func dim ?b ?y)] =>
        rewrite (s6_kick_back a b y);
        [| s6_sized_tac; exact Hx | lra]
    end.
  reflexivity.
Qed.

Lemma s6_live_sized (s : s6_state R) :
  s6_sized dim s -> s6_sized3 dim (s6_live s).
Proof. by intros (Hqo & Hpo & _). Qed.

Lemma symplec6_passes_work (dt : R) (m : nat) (s : s6_state R) :
  s6_sized dim s ->
  s6_work (for_loop 0 m (fun _ s => symplec6_substep func dim dt s)
             (symplec6_first dim dt s))
  = s6_drift dim (s6_c1 *. dt)%dbl
      (Nat.iter m (s6_step func dim dt) (s6_live s)).
Proof.
  intros Hs. induction m as [|m IH].
  - rewrite for_loop_empty. by apply symplec6_first_work.
  - rewrite for_loop_snoc by lia.
    rewrite symplec6_substep_work
      by (by apply symplec6_passes_sized, symplec6_first_sized).
    rewrite IH. rewrite Nat.iter_succ. unfold s6_step at 2.
    rewrite s6_drift_add. cbn [fadd fmul R_arith]. f_equal. lra.
Qed.

Lemma symplec6_steps_live (dt : R) (ndt : Z) (s : s6_state R) :
  s6_sized dim s -> (1 <= ndt)%Z ->
  s6_live (symplec6_steps func dim dt ndt s)
  = Nat.iter (Z.to_nat ndt) (s6_step func dim dt) (s6_live s).
Proof.
  intros Hs Hndt. rewrite symplec6_steps_parts.
  rewrite symplec6_last_live
    by (by apply symplec6_passes_sized, symplec6_first_sized).
  rewrite symplec6_passes_work by done.
  replace (Z.to_nat ndt) with (S (Z.to_nat (ndt - 1))) by lia.
  by rewrite Nat.iter_succ.
Qed.

Lemma s6_steps_sized (dt : R) (n : nat) (x : list R * list R * R) :
  s6_sized3 dim x -> s6_sized3 dim (Nat.iter n (s6_step func dim dt) x).
Proof.
  intros Hx. induction n as [|n IH]; [done|].
  rewrite Nat.iter_succ. by apply s6_step_sized.
Qed.

Lemma s6_steps_back (dt : R) (n : nat) (x : list R * list R * R) :
  s6_sized3 dim x ->
  Nat.iter n (s6_step func dim (- dt)) (Nat.iter n (s6_step func dim dt) x)
  = x.
Proof.
  intros Hx. induction n as [|n IH]; [done|].
  rewrite Nat.iter_succ_r, Nat.iter_succ.
  rewrite s6_step_back by (by apply s6_steps_sized). done.
Qed.

(** In exact arithmetic the steps of a macro interval of [symplec6], which
    juggle five buffers and fuse the last drift of a sub-step with the first
    of the next, give the positions, the momenta and the time of [ndt]
    sixth-order steps in a row, each the plain composition of eight drifts
    and seven kicks. *)
Theorem symplec6_steps_compose_drifts_and_kicks (dt : R) (ndt : Z)
    (s : s6_state R) :
  s6_sized dim s -> (1 <= ndt)%Z ->
  s6_live (symplec6_steps func dim dt ndt s)
  = Nat.iter (Z.to_nat ndt) (s6_step func dim dt) (s6_live s).
Proof. intros Hs Hndt. by apply symplec6_steps_live. Qed.

(** In exact arithmetic the steps of a macro interval of [symplec6]
    followed by those with the step [- dt], from the positions, the momenta
    and the time reached, give back the positions, the momenta and the time
    they started from, for any acceleration function. *)
Theorem symplec6_steps_reverse (dt : R) (ndt : Z) (s s' : s6_state R) :
  s6_sized dim s -> s6_sized dim s' -> (1 <= ndt)%Z ->
  s6_live s' = s6_live (symplec6_steps func dim dt ndt s) ->
  s6_live (symplec6_steps func dim (- dt) ndt s') = s6_live s.
Proof.
  intros Hs Hs' Hndt Hlive.
  rewrite symplec6_steps_live by done. rewrite Hlive.
  rewrite symplec6_steps_live by done.
  by apply s6_steps_back, s6_live_sized.
Qed.

End S6R.

Ltac s6_len :=
  repeat first [rewrite leapq_length | rewrite leapp_length];
  first [assumption | apply leapq_cells_length | apply leapp_cells_length].

Ltac s6_norm :=
  repeat first
    [rewrite leapq_full by s6_len
    |rewrite leapp_full by s6_len].

Section Probe6.
Context {F : Type} {A : Arith F}.
Variables (func : func_fn F) (dim : nat).

Lemma symplec6_one_step_live (dt : F) (s : s6_state F) :
  s6_sized dim s ->
  s6_live (symplec6_steps func dim dt 1 s)
  = s6_step func dim dt (s6_live s).
Proof.
  intros Hs. rewrite symplec6_steps_parts.
  change (Z.to_nat (1 - 1)) with 0. rewrite for_loop_empty.
  rewrite symplec6_last_live by (by apply symplec6_first_sized).
  by rewrite symplec6_first_work.
Qed.

Lemma symplec6_search_body_first (qo po scale : list F)
    (s : s6_search_state F) :
  length qo = dim -> length po = dim ->
  length (e6_q11 s) = dim -> length (e6_q12 s) = dim ->
  length (e6_p11 s) = dim -> length (e6_p12 s) = dim ->
  length (e6_qtmp s) = dim -> length (e6_ptmp s) = dim ->
  (e6_q11 (symplec6_search_body func dim qo po scale s),
   e6_p11 (symplec6_search_body func dim qo po scale s))
  = (s6_step func dim (e6_dt s /. lit 2) (qo, po, e6_to s)).1.
Proof.
  destruct s as [dtv err to q11 q12 p11 p12 qtmp ptmp a].
  cbn [e6_q11 e6_q12 e6_p11 e6_p12 e6_qtmp e6_ptmp].
  intros Hqo Hpo Hq11 Hq12 Hp11 Hp12 Hqtmp Hptmp.
  lazy beta iota zeta delta [symplec6_search_body e6_dt e6_err e6_to e6_q11
    e6_q12 e6_p11 e6_p12 e6_qtmp e6_ptmp e6_a s6_step s6_middle s6_drift
    s6_kick fst snd].
  s6_norm.
  reflexivity.
Qed.

(** The one-step trial of a pass of [symplec6_estimate_step] is the
    integrator's own step: its positions [q11] and momenta [p11] are those
    that the steps of a macro interval of [symplec6] with one sub-step of the
    same [dt] reach from [qo], [po] and the time of the pass. *)
Theorem symplec6_search_first_probe_is_one_step (qo po scale : list F)
    (s : s6_search_state F) :
  length qo = dim -> length po = dim ->
  length (e6_q11 s) = dim -> length (e6_q12 s) = dim ->
  length (e6_p11 s) = dim -> length (e6_p12 s) = dim ->
  length (e6_qtmp s) = dim -> length (e6_ptmp s) = dim ->
  e6_q11 (symplec6_search_body func dim qo po scale s)
  = s6_qo (symplec6_steps func dim (e6_dt s /. lit 2) 1
             {| s6_qo := qo; s6_po := po; s6_q12 := e6_q12 s;
                s6_p12 := e6_p12 s; s6_a := e6_a s; s6_to := e6_to s |}) /\
  e6_p11 (symplec6_search_body func dim qo po scale s)
  = s6_po (symplec6_steps func dim (e6_dt s /. lit 2) 1
             {| s6_qo := qo; s6_po := po; s6_q12 := e6_q12 s;
                s6_p12 := e6_p12 s; s6_a := e6_a s; s6_to := e6_to s |}).
Proof.
  intros Hqo Hpo Hq11 Hq12 Hp11 Hp12 Hqtmp Hptmp.
  pose proof (symplec6_search_body_first qo po scale s Hqo Hpo Hq11 Hq12
                Hp11 Hp12 Hqtmp Hptmp) as Hb.
  assert (Hs : s6_sized dim
                 {| s6_qo := qo; s6_po := po; s6_q12 := e6_q12 s;
                    s6_p12 := e6_p12 s; s6_a := e6_a s; s6_to := e6_to s |})
    by (by repeat split).
  pose proof (symplec6_one_step_live (e6_dt s /. lit 2) _ Hs) as Hl.
  unfold s6_live at 2 in Hl. cbn [s6_qo s6_po s6_to] in Hl.
  rewrite <- Hl in Hb. unfold s6_live in Hb. cbn [fst] in Hb.
  split.
  - exact (f_equal fst Hb).
  - exact (f_equal snd Hb).
Qed.

End Probe6.

(** ** A step longer than the spacing *)

Section OneStepF.
Context {F : Type} {A : Arith F}.

Lemma leapfrog_interval_le_1 (drift : drift_fn F) (kick : kick_fn F) dim dt
    (ndt : Z) c (s : run_state F) :
  (ndt <= 1)%Z ->
  leapfrog_interval drift kick dim dt ndt c s
  = leapfrog_interval drift kick dim dt 1 c s.
Proof.
  intros Hn. unfold leapfrog_interval, leapfrog_substeps.
  replace (Z.to_nat (ndt - 1)) with (Z.to_nat (1 - 1)) by lia. reflexivity.
Qed.

Lemma symplec4_interval_le_1 (drift : drift_fn F) (kick : kick_fn F) dim dt
    (ndt : Z) c (s : run_state F) :
  (ndt <= 1)%Z ->
  symplec4_interval drift kick dim dt ndt c s
  = symplec4_interval drift kick dim dt 1 c s.
Proof.
  intros Hn. unfold symplec4_interval, symplec4_substeps.
  replace (Z.to_nat (ndt - 1)) with (Z.to_nat (1 - 1)) by lia. reflexivity.
Qed.

Lemma symplec6_steps_le_1 (func : func_fn F) dim dt (ndt : Z)
    (s : s6_state F) :
  (ndt <= 1)%Z ->
  symplec6_steps func dim dt ndt s = symplec6_steps func dim dt 1 s.
Proof.
  intros Hn. rewrite !symplec6_steps_parts.
  replace (Z.to_nat (ndt - 1)) with (Z.to_nat (1 - 1)) by lia. reflexivity.
Qed.

End OneStepF.

Section OneStep.
Local Open Scope R_scope.

Lemma R_trunc_lt_2 (x : R) : x < 2 -> (R_trunc x <= 1)%Z.
Proof.
  intros Hx. unfold R_trunc. destruct (Rle_dec 0 x) as [H0|H0].
  - destruct (base_Int_part x) as [Hle _].
    apply Z.lt_succ_r. apply lt_IZR. change (IZR (Z.succ 1)) with 2. lra.
  - destruct (base_Int_part (- x)) as [_ Hgt].
    assert (- 1 < IZR (Int_part (- x))) by lra.
    apply lt_IZR in H. lia.
Qed.

(** In exact arithmetic a step with [init_dt / dt < 2], that is one longer
    than half the spacing of the output times or of the opposite sign, gives
    [ndt <= 1], and a macro interval then is the interval with one sub-step:
    one full step of [dt] is taken, whatever the spacing is. *)
Theorem long_step_is_taken_once (drift : drift_fn R) (kick : kick_fn R)
    (func : func_fn R) (dim : nat) (init_dt dt : R) (c : bool)
    (s : run_state R) (r : s6_run R) :
  dt <> 0 -> init_dt / dt < 2 ->
  leapfrog_interval drift kick dim dt (to_long (init_dt /. dt)%dbl) c s
  = leapfrog_interval drift kick dim dt 1 c s /\
  symplec4_interval drift kick dim dt (to_long (init_dt /. dt)%dbl) c s
  = symplec4_interval drift kick dim dt 1 c s /\
  symplec6_interval func dim dt (to_long (init_dt /. dt)%dbl) r
  = symplec6_interval func dim dt 1 r.
Proof.
  intros _ Hlt. apply R_trunc_lt_2 in Hlt.
  split; [by apply leapfrog_interval_le_1|].
  split; [by apply symplec4_interval_le_1|].
  unfold symplec6_interval. by rewrite symplec6_steps_le_1.
Qed.
End OneStep.

(** ** The output of the sixth-order scheme, end to end *)

Section Output6.
Local Open Scope R_scope.
Variables (fuel : nat) (func : func_fn R) (dim : nat) (yo : list R) (nt : Z).
Variables (dt : R) (t : list R) (rtol atol : R) (result : list R).

Lemma iter_mul {X : Type} (f : X -> X) (j n : nat) (x : X) :
  Nat.iter (j * n) f x = Nat.iter j (Nat.iter n f) x.
Proof.
  induction j as [|j IH]; [done|].
  cbn [Nat.mul]. by rewrite Nat.iter_add, IH.
Qed.

Lemma symplec6_steps_live_any (d : R) (ndt : Z) (s : s6_state R) :
  s6_sized dim s ->
  s6_live (symplec6_steps func dim d ndt s)
  = Nat.iter (Z.to_nat (Z.max 1 ndt)) (s6_step func dim d) (s6_live s).
Proof.
  intros Hs. destruct (Z.le_gt_cases 1 ndt) as [Hn|Hn].
  - rewrite Z.max_r by done. by apply symplec6_steps_live.
  - rewrite Z.max_l by lia. rewrite symplec6_steps_le_1 by lia.
    by apply symplec6_steps_live.
Qed.

Lemma symplec6_intervals_live (d : R) (ndt : Z) (j : nat) (s : s6_run R) :
  s6_sized dim (r6_s s) ->
  s6_sized dim (r6_s (Nat.iter j (symplec6_interval func dim d ndt) s)) /\
  s6_live (r6_s (Nat.iter j (symplec6_interval func dim d ndt) s))
  = Nat.iter (j * Z.to_nat (Z.max 1 ndt)) (s6_step func dim d)
      (s6_live (r6_s s)).
Proof.
  intros Hs. induction j as [|j [IHs IHl]]; [done|].
  rewrite Nat.iter_succ. cbn [symplec6_interval r6_s]. split.
  - by apply symplec6_steps_sized.
  - rewrite symplec6_steps_live_any by done. rewrite IHl.
    cbn [Nat.mul]. by rewrite Nat.iter_add.
Qed.

Lemma symplec6_entry_sized :
  s6_sized dim (r6_s (symplec6_entry dim yo t result)).
Proof.
  unfold s6_sized, symplec6_entry. cbn [r6_s s6_qo s6_po s6_q12 s6_p12].
  rewrite symplec6_copy_yo_fill. cbn [fst snd].
  rewrite !fill_length, !malloc_length. done.
Qed.

(** In exact arithmetic, in a call of [symplec6] without signals whose
    buffer holds the [nt] blocks, block [j] holds the positions and the
    momenta that [j * n] sixth-order steps of the chosen step reach from the
    initial conditions at time [t[0]], where [n] is [ndt] or 1 when
    [ndt <= 0]. *)
Theorem symplec6_output_is_the_iterated_step :
  ((Z.to_nat (nt - 1) + 1) * (2 * dim) <= length result)%nat ->
  forall r,
    symplec6 fuel func dim yo nt dt t rtol atol result false quiet = Some r ->
    exists d,
      symplec6_dt fuel func dim
        (symplec6_copy_yo dim yo (malloc dim) (malloc dim)).1
        (symplec6_copy_yo dim yo (malloc dim) (malloc dim)).2
        (rd t 1 -. rd t 0)%dbl dt t rtol atol = Some d /\
      forall j i, (1 <= j <= Z.to_nat (nt - 1))%nat -> (i < dim)%nat ->
        let n := Z.to_nat (Z.max 1 (to_long ((rd t 1 -. rd t 0) /. d)%dbl)) in
        let xj := Nat.iter (j * n) (s6_step func dim d)
                    ((symplec6_copy_yo dim yo (malloc dim) (malloc dim)).1,
                     (symplec6_copy_yo dim yo (malloc dim) (malloc dim)).2,
                     rd t 0) in
        rd (out_result r) (j * (2 * dim) + i) = rd xj.1.1 i /\
        rd (out_result r) (j * (2 * dim) + dim + i) = rd xj.1.2 i.
Proof.
  intros Hlen r Hr. rewrite symplec6_macro_form in Hr.
  apply macro_form_quiet in Hr as (d & Hd & _ & Hres & _).
  exists d. split; [done|]. intros j i Hj Hi n xj.
  rewrite Hres.
  pose proof (blocks_of_run6 func dim d
                (to_long ((rd t 1 -. rd t 0) /. d)%dbl) (Z.to_nat (nt - 1)) j
                (symplec6_entry dim yo t result) i Hj) as Hb.
  cbn [symplec6_entry r6_roff r6_result] in Hb.
  rewrite save_qp_length in Hb. destruct (Hb ltac:(lia) Hi) as [H1 H2].
  destruct (symplec6_intervals_live d (to_long ((rd t 1 -. rd t 0) /. d)%dbl)
              j (symplec6_entry dim yo t result) symplec6_entry_sized)
    as [_ Hl].
  change (s6_live (r6_s (symplec6_entry dim yo t result)))
    with ((symplec6_copy_yo dim yo (malloc dim) (malloc dim)).1,
          (symplec6_copy_yo dim yo (malloc dim) (malloc dim)).2, rd t 0)
    in Hl.
  fold n in Hl. fold xj in Hl. rewrite <- Hl. unfold s6_live. cbn [fst snd].
  split.
  - rewrite <- H1. f_equal. nia.
  - rewrite <- H2. f_equal. nia.
Qed.

End Output6.

(** ** The error of the sixth-order search *)

Section ForLoopExtIn.
Context {S : Type}.


End ForLoopExtIn.

Section Error6.
Local Open Scope R_scope.



End Error6.

(** ** Concrete uses of the further properties *)

Section ConcreteUses.
Local Open Scope R_scope.

Lemma save_qp_layout_witness :
  (0 + 2 * 1 <= length [7; 8; 9])%nat /\
  rd (save_qp 1 [1] [2] [7; 8; 9] 0) (0 + 0) = rd [1] 0 /\
  rd (save_qp 1 [1] [2] [7; 8; 9] 0) (0 + 1 + 0) = rd [2] 0.
Proof.
  assert (Hlen : (0 + 2 * 1 <= length [7; 8; 9])%nat) by (simpl; lia).
  split; [exact Hlen|].
  destruct (save_qp_layout 1 [1] [2] [7; 8; 9] 0 Hlen) as (_ & H & _).
  exact (H 0%nat ltac:(lia)).
Defined.

Lemma save_result_layout_witness :
  (0 + 2 <= length [7; 8; 9])%nat /\
  (0 + 2 < length [7; 8; 9])%nat /\
  rd (save_result 2 [4; 5] [7; 8; 9] 0 true) (0 + 2)
  = ((if decide (3 <= 2)%nat then rd [4; 5] 2 else rd [7; 8; 9] (0 + 2))
     /. (if decide (1 <= 2)%nat then rd [4; 5] 0 else rd [7; 8; 9] 0))%dbl.
Proof.
  assert (Hlen : (0 + 2 <= length [7; 8; 9])%nat) by (simpl; lia).
  assert (H2 : (0 + 2 < length [7; 8; 9])%nat) by (simpl; lia).
  split; [exact Hlen|]. split; [exact H2|].
  destruct (save_result_layout 2 [4; 5] [7; 8; 9] 0 true Hlen)
    as (_ & _ & H & _).
  exact (H eq_refl H2).
Defined.

Lemma construct_Lz_then_save_is_identity_witness :
  (3 <= 3)%nat /\ (3 <= length [2; 0; 3])%nat /\ rd [2; 0; 3] 0 <> 0 /\
  (0 + 3 <= length [0; 0; 0])%nat /\ (2 < 3)%nat /\
  rd (save_result 3 (construct_Lz_init true [2; 0; 3]) [0; 0; 0] 0 true)
     (0 + 2) = rd [2; 0; 3] 2.
Proof.
  assert (H0 : rd [2; 0; 3] 0 <> 0) by (change (rd [2; 0; 3] 0) with 2; lra).
  assert (Hyo : (3 <= length [2; 0; 3])%nat) by (simpl; lia).
  assert (Hlen : (0 + 3 <= length [0; 0; 0])%nat) by (simpl; lia).
  split; [lia|]. split; [exact Hyo|]. split; [exact H0|].
  split; [exact Hlen|]. split; [lia|].
  exact (construct_Lz_then_save_is_identity 3 [2; 0; 3] [0; 0; 0] 0
           ltac:(lia) Hyo H0 Hlen 2%nat ltac:(lia)).
Defined.

Lemma output_extent_witness :
  (false = false \/ (3 <= 1)%nat) /\
  exists r : outcome R,
    leapfrog 0 still_drift still_kick 1 [1] 2 1 [0; 1] 0 0 zero_scaling
      diff_metric false [0; 0; 7] false quiet = Some r /\
    length (out_result r) = length [0; 0; 7] /\
    out_result r !! 2%nat = [0; 0; 7] !! 2%nat.
Proof.
  assert (Hc : false = false \/ (3 <= 1)%nat) by (by left).
  split; [exact Hc|].
  destruct (leapfrog_returns 0 still_drift still_kick 1 [1] 2 1 [0; 1] 0 0
              zero_scaling diff_metric false [0; 0; 7] false quiet
              explicit_step_one) as [r Hr].
  exists r. split; [exact Hr|].
  destruct (proj1 (proj1 (output_extent 0 still_drift still_kick
                            (fun _ q => q) 1 [1] 2 1 [0; 1] 0 0 zero_scaling
                            diff_metric false [0; 0; 7] false quiet) Hc)
              r Hr) as (Hlen & Hpast & _).
  split; [exact Hlen|]. apply Hpast. simpl. lia.
Defined.

Lemma blocks_hold_states_in_time_order_witness :
  ((Z.to_nat (3 - 1) + 1) * 1 <= length [0; 0; 0])%nat /\
  exists r : outcome R,
    leapfrog 0 still_drift still_kick 1 [1] 3 1 [0; 1; 2] 0 0 zero_scaling
      diff_metric false [0; 0; 0] false quiet = Some r /\
    out_err r = 0%Z.
Proof.
  assert (Hlen : ((Z.to_nat (3 - 1) + 1) * 1 <= length [0; 0; 0])%nat)
    by (simpl; lia).
  split; [exact Hlen|].
  destruct (leapfrog_returns 0 still_drift still_kick 1 [1] 3 1 [0; 1; 2] 0 0
              zero_scaling diff_metric false [0; 0; 0] false quiet
              explicit_step_one) as [r Hr].
  exists r. split; [exact Hr|].
  destruct (blocks_hold_states_in_time_order 0 still_drift still_kick 1 [1]
              3 1 [0; 1; 2] 0 0 zero_scaling diff_metric false [0; 0; 0]
              Hlen r Hr) as (d & _ & Herr & _).
  exact Herr.
Defined.

Lemma blocks_hold_states_in_time_order_4_6_witness :
  ((Z.to_nat (3 - 1) + 1) * (2 * 1) <= length [0; 0; 0; 0; 0; 0])%nat /\
  exists r : outcome R,
    symplec6 0 (fun _ q => q) 1 [1; 2] 3 1 [0; 1; 2] 0 0 [0; 0; 0; 0; 0; 0]
      false quiet = Some r /\
    out_err r = 0%Z.
Proof.
  assert (Hlen : ((Z.to_nat (3 - 1) + 1) * (2 * 1)
                  <= length [0; 0; 0; 0; 0; 0])%nat) by (simpl; lia).
  split; [exact Hlen|].
  destruct (symplec6_returns 0 (fun _ q => q) 1 [1; 2] 3 1 [0; 1; 2] 0 0
              [0; 0; 0; 0; 0; 0] false quiet explicit_step_one) as [r Hr].
  exists r. split; [exact Hr|].
  destruct (proj2 (blocks_hold_states_in_time_order_4_6 0 still_drift
                     still_kick (fun _ q => q) 1 [1; 2] 3 1 [0; 1; 2] 0 0
                     zero_scaling diff_metric false [0; 0; 0; 0; 0; 0])
              Hlen r Hr) as (d & _ & Herr & _).
  exact Herr.
Defined.

Lemma osc_drift_R_add (a b : R) (y : list R) :
  osc_drift_R a (osc_drift_R b y) = osc_drift_R (a + b) y.
Proof.
  destruct y as [|q [|p [|x y]]]; try reflexivity.
  unfold osc_drift_R. f_equal. ring.
Defined.

Lemma osc_drift_R_zero (y : list R) : osc_drift_R 0 y = y.
Proof.
  destruct y as [|q [|p [|x y]]]; try reflexivity.
  unfold osc_drift_R. f_equal. ring.
Defined.

Lemma osc_kick_R_back (a t : R) (y : list R) :
  osc_kick_R (- a) t (osc_kick_R a t y) = y.
Proof.
  destruct y as [|q [|p [|x y]]]; try reflexivity.
  unfold osc_kick_R. do 2 f_equal. ring.
Defined.

Lemma osc_drift_R_halves (dt : R) (y : list R) :
  osc_drift_R (dt /. lit 2)%dbl (osc_drift_R (dt /. lit 2)%dbl y)
  = osc_drift_R dt y.
Proof.
  rewrite osc_drift_R_add. f_equal. cbn [fdiv R_arith]. rewrite lit_2. lra.
Defined.

Lemma leapfrog_interval_is_n_steps_witness :
  (forall y, osc_drift_R (1 /. lit 2)%dbl (osc_drift_R (1 /. lit 2)%dbl y)
             = osc_drift_R 1 y) /\
  (1 <= 2)%Z /\
  rs_yo (leapfrog_interval osc_drift_R osc_kick_R 2 1 2 false
           (drift_kick_entry 2 [1; 0] [0; 2] [0; 0; 0; 0] false))
  = leapfrog_n_steps osc_drift_R osc_kick_R 1 0 (Z.to_nat 2) [1; 0].
Proof.
  split; [exact (osc_drift_R_halves 1)|]. split; [lia|].
  exact (leapfrog_interval_is_n_steps osc_drift_R osc_kick_R 1
           (osc_drift_R_halves 1) 2 2 false
           (drift_kick_entry 2 [1; 0] [0; 2] [0; 0; 0; 0] false) ltac:(lia)).
Defined.

Lemma leapfrog_interval_reverses_witness :
  (forall a b y, osc_drift_R a (osc_drift_R b y) = osc_drift_R (a + b) y) /\
  (forall y, osc_drift_R 0 y = y) /\
  (forall a t y, osc_kick_R (- a) t (osc_kick_R a t y) = y) /\
  (1 <= 2)%Z /\
  rs_yo (leapfrog_interval osc_drift_R osc_kick_R 2 (- 1) 2 false
           (leapfrog_interval osc_drift_R osc_kick_R 2 1 2 false
              (drift_kick_entry 2 [1; 0] [0; 2] [0; 0; 0; 0; 0; 0] false)))
  = [1; 0].
Proof.
  split; [exact osc_drift_R_add|]. split; [exact osc_drift_R_zero|].
  split; [exact osc_kick_R_back|]. split; [lia|].
  exact (proj1 (leapfrog_interval_reverses osc_drift_R osc_kick_R
                  osc_drift_R_add osc_drift_R_zero osc_kick_R_back 2 1 2
                  false false
                  (drift_kick_entry 2 [1; 0] [0; 2] [0; 0; 0; 0; 0; 0] false)
                  _ ltac:(lia) eq_refl eq_refl)).
Defined.

Lemma searched_step_divides_interval_witness :
  1 <> 0 /\ (15 <= 15)%nat /\
  exists (d : R) (k : nat),
    symplec6_estimate_step 15 (fun _ q => q) 1 [1] [0] 1 [0; 1] 0 0 = Some d /\
    (1 <= k <= 15)%nat /\
    to_long (1 /. d)%dbl = Z.of_nat (2 ^ (k - 1)) /\
    INR (2 ^ (k - 1)) * d = 1.
Proof.
  assert (Hne : (1 : R) <> 0) by lra.
  split; [exact Hne|]. split; [lia|].
  exact (proj2 (proj2 (searched_step_divides_interval still_drift still_kick
                         (fun _ q => q) 1 [1] [1] [0] 1 [0; 1] 0 0
                         zero_scaling diff_metric 15 Hne ltac:(lia)))).
Defined.

Lemma symplec6_scale_is_log_sum_exp_witness :
  (0 < 1)%nat /\
  rd (symplec6_scale 1 [3] [4] 0 0) 0
  = ln (exp 0 + exp (0 * max_fabs 1 [3])).
Proof.
  split; [lia|].
  exact (proj1 (symplec6_scale_is_log_sum_exp 1 [3] [4] 0 0 0 ltac:(lia))).
Defined.

Lemma leap_steps_add_witness :
  (1 <= length [0])%nat /\ (1 <= length [0])%nat /\ (1 <= length [0])%nat /\
  (0 < 1)%nat /\
  rd (leapfrog_leapq 1 (leapfrog_leapq 1 [1] [2] 3 [0]) [2] 4 [0]) 0
  = rd (leapfrog_leapq 1 [1] [2] (3 + 4) [0]) 0.
Proof.
  assert (Hlen : (1 <= length [0])%nat) by (simpl; lia).
  split; [exact Hlen|]. split; [exact Hlen|]. split; [exact Hlen|].
  split; [lia|].
  exact (proj1 (leap_steps_add 1 [1] [2] [5] 3 4 [0] [0] [0] 0 Hlen Hlen Hlen
                  ltac:(lia))).
Defined.

Lemma only_first_two_times_are_read_witness :
  rd [0; 1; 2] 0 = rd [0; 1; 5] 0 /\ rd [0; 1; 2] 1 = rd [0; 1; 5] 1 /\
  leapfrog 0 still_drift still_kick 1 [1] 3 1 [0; 1; 2] 0 0 zero_scaling
    diff_metric false [0; 0; 0] false quiet
  = leapfrog 0 still_drift still_kick 1 [1] 3 1 [0; 1; 5] 0 0 zero_scaling
      diff_metric false [0; 0; 0] false quiet.
Proof.
  assert (H0 : rd [0; 1; 2] 0 = rd [0; 1; 5] 0) by reflexivity.
  assert (H1 : rd [0; 1; 2] 1 = rd [0; 1; 5] 1) by reflexivity.
  split; [exact H0|]. split; [exact H1|].
  exact (proj1 (only_first_two_times_are_read 0 still_drift still_kick
                  (fun _ q => q) 1 [1] 3 1 [0; 1; 2] [0; 1; 5] 0 0
                  zero_scaling diff_metric false [0; 0; 0] false quiet
                  H0 H1)).
Defined.

Lemma long_step_is_taken_once_witness :
  (1 / 2 < 2) /\ 2 <> 0 /\
  leapfrog_interval still_drift still_kick 1 2 (to_long (1 /. 2)%dbl) false
    (drift_kick_entry 1 [1] [0; 1] [0; 0] false)
  = leapfrog_interval still_drift still_kick 1 2 1 false
      (drift_kick_entry 1 [1] [0; 1] [0; 0] false).
Proof.
  assert (Hd : (2 : R) <> 0) by lra.
  assert (Hlt : 1 / 2 < 2) by lra.
  split; [exact Hlt|]. split; [exact Hd|].
  exact (proj1 (long_step_is_taken_once still_drift still_kick
                  (fun _ q => q) 1 1 2 false
                  (drift_kick_entry 1 [1] [0; 1] [0; 0] false)
                  (symplec6_entry 1 [1; 2] [0; 1] [0; 0; 0; 0]) Hd Hlt)).
Defined.

Lemma symplec4_interval_is_n_single_steps_witness :
  (forall a b y, osc_drift_R a (osc_drift_R b y) = osc_drift_R (a + b) y) /\
  (1 <= 2)%Z /\
  same_motion
    (symplec4_interval osc_drift_R osc_kick_R 2 1 2 false
       (drift_kick_entry 2 [1; 0] [0; 2] [0; 0; 0; 0] false))
    (Nat.iter (Z.to_nat 2) (symplec4_interval osc_drift_R osc_kick_R 2 1 1 false)
       (drift_kick_entry 2 [1; 0] [0; 2] [0; 0; 0; 0] false)).
Proof.
  split; [exact osc_drift_R_add|]. split; [lia|].
  exact (symplec4_interval_is_n_single_steps osc_drift_R osc_kick_R
           osc_drift_R_add 2 1 2 false false
           (drift_kick_entry 2 [1; 0] [0; 2] [0; 0; 0; 0] false) ltac:(lia)).
Defined.

Lemma symplec4_interval_reverses_witness :
  (forall a b y, osc_drift_R a (osc_drift_R b y) = osc_drift_R (a + b) y) /\
  (forall y, osc_drift_R 0 y = y) /\
  (forall a t y, osc_kick_R (- a) t (osc_kick_R a t y) = y) /\
  (1 <= 2)%Z /\
  same_motion
    (symplec4_interval osc_drift_R osc_kick_R 2 (- 1) 2 false
       (symplec4_interval osc_drift_R osc_kick_R 2 1 2 false
          (drift_kick_entry 2 [1; 0] [0; 2] [0; 0; 0; 0; 0; 0] false)))
    (drift_kick_entry 2 [1; 0] [0; 2] [0; 0; 0; 0; 0; 0] false).
Proof.
  split; [exact osc_drift_R_add|]. split; [exact osc_drift_R_zero|].
  split; [exact osc_kick_R_back|]. split; [lia|].
  exact (symplec4_interval_reverses osc_drift_R osc_kick_R osc_drift_R_add
           osc_drift_R_zero osc_kick_R_back 2 1 2 false false
           (drift_kick_entry 2 [1; 0] [0; 2] [0; 0; 0; 0; 0; 0] false) _
           ltac:(lia) (conj eq_refl eq_refl)).
Defined.

Lemma symplec6_steps_compose_drifts_and_kicks_witness :
  s6_sized 1 {| s6_qo := [1]; s6_po := [2]; s6_q12 := [0]; s6_p12 := [0];
                s6_a := [0]; s6_to := 0 |} /\
  (1 <= 2)%Z /\
  s6_live (symplec6_steps (fun _ q => q) 1 1 2
             {| s6_qo := [1]; s6_po := [2]; s6_q12 := [0]; s6_p12 := [0];
                s6_a := [0]; s6_to := 0 |})
  = Nat.iter (Z.to_nat 2) (s6_step (fun _ q => q) 1 1) ([1], [2], 0).
Proof.
  assert (Hs : s6_sized 1 {| s6_qo := [1]; s6_po := [2]; s6_q12 := [0];
                             s6_p12 := [0]; s6_a := [0]; s6_to := 0 |})
    by (repeat split; reflexivity).
  split; [exact Hs|]. split; [lia|].
  exact (symplec6_steps_compose_drifts_and_kicks (fun _ q => q) 1 1 2 _ Hs
           ltac:(lia)).
Defined.

Lemma symplec6_steps_reverse_witness :
  s6_sized 1 {| s6_qo := [1]; s6_po := [2]; s6_q12 := [0]; s6_p12 := [0];
                s6_a := [0]; s6_to := 0 |} /\
  (1 <= 2)%Z /\
  s6_live (symplec6_steps (fun _ q => q) 1 (- 1) 2
             (symplec6_steps (fun _ q => q) 1 1 2
                {| s6_qo := [1]; s6_po := [2]; s6_q12 := [0]; s6_p12 := [0];
                   s6_a := [0]; s6_to := 0 |}))
  = ([1], [2], 0).
Proof.
  assert (Hs : s6_sized 1 {| s6_qo := [1]; s6_po := [2]; s6_q12 := [0];
                             s6_p12 := [0]; s6_a := [0]; s6_to := 0 |})
    by (repeat split; reflexivity).
  split; [exact Hs|]. split; [lia|].
  exact (symplec6_steps_reverse (fun _ q => q) 1 1 2 _ _ Hs
           (symplec6_steps_sized (fun _ q => q) 1 1 2 _ Hs) ltac:(lia)
           eq_refl).
Defined.

Lemma symplec6_search_first_probe_is_one_step_witness :
  length (e6_q11 (symplec6_search_init 1 1 [0; 1])) = 1%nat /\
  e6_q11 (symplec6_search_body (fun _ q => q) 1 [1] [2] [0; 0]
            (symplec6_search_init 1 1 [0; 1]))
  = s6_qo (symplec6_steps (fun _ q => q) 1
             (e6_dt (symplec6_search_init 1 1 [0; 1]) /. lit 2)%dbl 1
             {| s6_qo := [1]; s6_po := [2];
                s6_q12 := e6_q12 (symplec6_search_init 1 1 [0; 1]);
                s6_p12 := e6_p12 (symplec6_search_init 1 1 [0; 1]);
                s6_a := e6_a (symplec6_search_init 1 1 [0; 1]);
                s6_to := e6_to (symplec6_search_init 1 1 [0; 1]) |}).
Proof.
  split; [reflexivity|].
  exact (proj1 (symplec6_search_first_probe_is_one_step (fun _ q => q) 1
                  [1] [2] [0; 0] (symplec6_search_init 1 1 [0; 1])
                  eq_refl eq_refl eq_refl eq_refl eq_refl eq_refl eq_refl
                  eq_refl)).
Defined.

Lemma symplec6_output_is_the_iterated_step_witness :
  ((Z.to_nat (3 - 1) + 1) * (2 * 1) <= length [0; 0; 0; 0; 0; 0])%nat /\
  exists (r : outcome R) (d : R),
    symplec6 0 (fun _ q => q) 1 [1; 2] 3 1 [0; 1; 2] 0 0 [0; 0; 0; 0; 0; 0]
      false quiet = Some r /\
    rd (out_result r) (1 * (2 * 1) + 0)
    = rd (Nat.iter
            (1 * Z.to_nat (Z.max 1 (to_long ((rd [0; 1; 2] 1 -. rd [0; 1; 2] 0)
                                             /. d)%dbl)))
            (s6_step (fun _ q => q) 1 d)
            ((symplec6_copy_yo 1 [1; 2] (malloc 1) (malloc 1)).1,
             (symplec6_copy_yo 1 [1; 2] (malloc 1) (malloc 1)).2,
             rd [0; 1; 2] 0)).1.1 0.
Proof.
  assert (Hlen : ((Z.to_nat (3 - 1) + 1) * (2 * 1)
                  <= length [0; 0; 0; 0; 0; 0])%nat) by (simpl; lia).
  split; [exact Hlen|].
  destruct (symplec6_returns 0 (fun _ q => q) 1 [1; 2] 3 1 [0; 1; 2] 0 0
              [0; 0; 0; 0; 0; 0] false quiet explicit_step_one) as [r Hr].
  destruct (symplec6_output_is_the_iterated_step 0 (fun _ q => q) 1 [1; 2] 3
              1 [0; 1; 2] 0 0 [0; 0; 0; 0; 0; 0] Hlen r Hr) as (d & _ & Hc).
  exists r, d. split; [exact Hr|].
  exact (proj1 (Hc 1%nat 0%nat ltac:(simpl; lia) ltac:(lia))).
Defined.


Lemma status_is_interrupted_or_zero_witness :
  exists r : outcome R,
    leapfrog 0 still_drift still_kick 1 [7] 2 1 [0; 1] 0 0 zero_scaling
      diff_metric false [0; 0] false (fun j => Nat.eqb j 1) = Some r /\
    out_err r = 0%Z /\ out_interrupted r = true.
Proof.
  destruct (leapfrog_returns 0 still_drift still_kick 1 [7] 2 1 [0; 1] 0 0
              zero_scaling diff_metric false [0; 0] false
              (fun j => Nat.eqb j 1) explicit_step_one) as [r Hr].
  exists r. split; [exact Hr|].
  destruct (proj1 (status_is_interrupted_or_zero 0 still_drift still_kick
                     (fun _ q => q) 1 [7] 2 1 [0; 1] 0 0 zero_scaling
                     diff_metric false [0; 0] false (fun j => Nat.eqb j 1))
              r Hr) as [(_ & _ & k & Hk & [Hat _])|(Herr & _ & Hfl)].
  - destruct k as [|k]; [discriminate Hat | lia].
  - split; [exact Herr | exact Hfl].
Defined.

End ConcreteUses.
